(** * MLInterviewPro: auth-state broadcast, session cache, content gate and
      progress reconciliation

    A shallow embedding of the JavaScript of [js/auth.js], [js/auth-ui.js]
    and [js/database.js].  Module-level [let]/[const] variables of a script
    become fields of a state record that every function takes and returns;
    a JavaScript exception is the [Throw] completion and [try]/[catch] is a
    match on it; [async] functions are run to completion, one [await]
    after the other.

    The browser and the Firebase SDK are not code of the repository.  They
    are modelled by what the scripts rely on:
    - [localStorage] is a finite map from strings to strings whose
      [setItem] raises when the quota is exhausted;
    - Firestore is a reliable document store used by one client: [get],
      [set] and [update] succeed, except [update] on a document that
      does not exist, which rejects; document ids are taken as given;
      [FieldValue.serverTimestamp()] is resolved to the server clock when
      the write commits and the clock advances with every commit;
      [FieldValue.increment(n)] adds [n];
    - [JSON.stringify]/[JSON.parse] cover null, booleans, strings and
      objects (the session record has no other values);
    - a listener passed to onAuthStateChanged acts on the document and
      returns or throws; in [Auth] it does not subscribe or unsubscribe
      while it runs, and [Live] has the fan-out for listeners that call
      unsubscribe functions while they run.

    The definitions come first, module by module; the facts about them
    follow. *)

From Stdlib Require Import ZArith String Ascii List Bool Lia.
From stdpp Require Import base option gmap strings list sorting fin_maps.

Local Open Scope string_scope.

(** ** JavaScript values and completions *)

Module Js.

Inductive Error :=
| QuotaExceededError
| NotFoundError
| SyntaxError
| UserError (msg : string).

(** The outcome of running a statement: it returns or it throws. *)
Inductive Completion (A : Type) :=
| Normal (a : A)
| Throw (e : Error).
Arguments Normal {A} a.
Arguments Throw {A} e.

(** A string-valued argument that may be [null]/[undefined] ([None]).
    [if (x)] holds for a non-empty string only; [truthy] returns the
    string in that case. *)
Definition truthy (x : option string) : option string :=
  match x with
  | Some s => if decide (s = "") then None else Some s
  | None => None
  end.

(** [s.startsWith(p)] *)
Definition startsWith (p s : string) : bool := String.prefix p s.

(** [s.replace(p, r)] for a string pattern: the first occurrence only. *)
Fixpoint replace (p r s : string) : string :=
  if String.prefix p s
  then r ++ String.substring (String.length p) (String.length s - String.length p) s
  else match s with
       | EmptyString => EmptyString
       | String c s' => String c (replace p r s')
       end.

(** [s.split('_')[0]]: what precedes the first underscore. *)
Fixpoint split_first (sep : ascii) (s : string) : string :=
  match s with
  | EmptyString => EmptyString
  | String c s' => if Ascii.eqb c sep then EmptyString else String c (split_first sep s')
  end.

End Js.

Import Js.

(** ** window.localStorage *)

Module LocalStorage.

Record Storage := mkStorage {
  items : gmap string string;
  quotaExceeded : bool      (* every [setItem] raises QuotaExceededError *)
}.

Definition getItem (k : string) (st : Storage) : option string := items st !! k.

Definition setItem (k v : string) (st : Storage) : Completion Storage :=
  if quotaExceeded st then Throw QuotaExceededError
  else Normal (mkStorage (<[k := v]> (items st)) (quotaExceeded st)).

Definition removeItem (k : string) (st : Storage) : Storage :=
  mkStorage (delete k (items st)) (quotaExceeded st).

(** [Object.keys(localStorage)] *)
Definition keys (st : Storage) : list string := (map_to_list (items st)).*1.

End LocalStorage.

Import LocalStorage.

(** ** js/database.js *)

Module Database.

Local Open Scope Z_scope.

(** *** The Firestore documents the module reads and writes *)

(** A document of [users/{uid}/progress/{problemId}], with the fields
    [updateProblemProgress] and [recordProblemView] write. *)
Record ProgressDoc := mkProgress {
  problemId : string;
  category : string;
  status : string;
  firstAccessedAt : Z;
  lastUpdatedAt : Z;
  lastViewedAt : option Z;
  solvedAt : option Z;
  timeSpent : Z;
  viewCount : Z
}.

Record UserStats := mkStats {
  problemsSolved : Z;
  problemsAccessed : Z;
  totalTimeSpent : Z;
  lastActivityAt : Z
}.

(** A document of [users/{uid}]; the profile strings play no role in
    progress tracking and are left out. *)
Record UserDoc := mkUser {
  createdAt : Z;
  lastLoginAt : Z;
  totalLogins : Z;
  stats : UserStats
}.

Record Firestore := mkFirestore {
  userDocs : gmap string UserDoc;
  progressDocs : gmap (string * string) ProgressDoc;
  serverClock : Z
}.

(** [progressRef.get()]: [Some] is [doc.exists]. *)
Definition progress_get (uid pid : string) (fs : Firestore) : option ProgressDoc :=
  progressDocs fs !! (uid, pid).

(** [progressRef.set(d)]; [mk] receives the commit time for the
    [serverTimestamp()] fields. *)
Definition progress_set (uid pid : string) (mk : Z -> ProgressDoc) (fs : Firestore) : Firestore :=
  mkFirestore (userDocs fs)
              (<[(uid, pid) := mk (serverClock fs)]> (progressDocs fs))
              (serverClock fs + 1).

(** [progressRef.update(u)] rejects when the document is missing. *)
Definition progress_update (uid pid : string) (f : Z -> ProgressDoc -> ProgressDoc)
    (fs : Firestore) : Completion Firestore :=
  match progressDocs fs !! (uid, pid) with
  | Some d =>
      Normal (mkFirestore (userDocs fs)
                          (<[(uid, pid) := f (serverClock fs) d]> (progressDocs fs))
                          (serverClock fs + 1))
  | None => Throw NotFoundError
  end.

(** [userRef.update(u)] *)
Definition user_update (uid : string) (f : Z -> UserDoc -> UserDoc)
    (fs : Firestore) : Completion Firestore :=
  match userDocs fs !! uid with
  | Some d =>
      Normal (mkFirestore (<[uid := f (serverClock fs) d]> (userDocs fs))
                          (progressDocs fs)
                          (serverClock fs + 1))
  | None => Throw NotFoundError
  end.

(** *** Module state: [let db = null] and the page's localStorage *)

Record World := mkWorld {
  db : option Firestore;      (* [None] until initializeFirestore succeeds *)
  localStorage : Storage
}.

Definition with_db (fs : Firestore) (w : World) : World :=
  mkWorld (Some fs) (localStorage w).

Definition with_storage (st : Storage) (w : World) : World :=
  mkWorld (db w) st.

(** *** PROBLEM_CATEGORIES *)

(** The four own properties of the object; [None] is [undefined]. *)
Definition PROBLEM_CATEGORIES (prefix : string) : option string :=
  if decide (prefix = "lc") then Some "LeetCode"
  else if decide (prefix = "mlsd") then Some "ML System Design"
  else if decide (prefix = "mlcoding") then Some "ML Coding"
  else if decide (prefix = "behavioral") then Some "Behavioral"
  else None.

Definition categoryName (pid : string) : string :=
  default "Unknown" (PROBLEM_CATEGORIES (split_first "_" pid)).

(** *** updateUserStats *)

(** The [stats] argument: a missing property and [0] are both falsy, so
    an absent counter is [0]. *)
Record StatsDelta := mkDelta {
  d_problemsSolved : Z;
  d_problemsAccessed : Z;
  d_totalTimeSpent : Z
}.

Definition apply_stats (d : StatsDelta) (now : Z) (u : UserDoc) : UserDoc :=
  let s := stats u in
  let solved := if decide (d_problemsSolved d = 0) then problemsSolved s
                else problemsSolved s + d_problemsSolved d in
  let accessed := if decide (d_problemsAccessed d = 0) then problemsAccessed s
                  else problemsAccessed s + d_problemsAccessed d in
  let spent := if decide (d_totalTimeSpent d = 0) then totalTimeSpent s
               else totalTimeSpent s + d_totalTimeSpent d in
  mkUser (createdAt u) (lastLoginAt u) (totalLogins u) (mkStats solved accessed spent now).

Definition updateUserStats (userId : option string) (d : StatsDelta) (w : World) : bool * World :=
  match db w, truthy userId with
  | Some fs, Some uid =>
      match user_update uid (apply_stats d) fs with
      | Normal fs' => (true, with_db fs' w)
      | Throw _ => (false, w)
      end
  | _, _ => (false, w)
  end.

(** *** updateProblemProgress *)

Definition set_status (st : string) (solved : bool) (now : Z) (d : ProgressDoc) : ProgressDoc :=
  mkProgress (problemId d) (category d) st (firstAccessedAt d) now (lastViewedAt d)
             (if solved then Some now else solvedAt d) (timeSpent d) (viewCount d).

Definition new_progress (pid st : string) (now : Z) : ProgressDoc :=
  mkProgress pid (categoryName pid) st now now None
             (if decide (st = "solved") then Some now else None) 0 1.

Definition updateProblemProgress (userId problemId : option string) (st : string)
    (w : World) : bool * World :=
  match db w, truthy userId, truthy problemId with
  | Some fs, Some uid, Some pid =>
      match progress_get uid pid fs with
      | Some data =>
          let newly := bool_decide (st = "solved")
                       && negb (bool_decide (status data = "solved")) in
          let w1 := if newly then snd (updateUserStats (Some uid) (mkDelta 1 0 0) w) else w in
          (* updateUserStats leaves the handle in place *)
          match progress_update uid pid (set_status st newly) (default fs (db w1)) with
          | Normal fs2 => (true, with_db fs2 w1)
          | Throw _ => (false, w1)
          end
      | None =>
          let fs1 := progress_set uid pid (new_progress pid st) fs in
          let delta := mkDelta (if decide (st = "solved") then 1 else 0) 1 0 in
          (true, snd (updateUserStats (Some uid) delta (with_db fs1 w)))
      end
  | _, _, _ => (false, w)
  end.

(** *** recordProblemView *)

Definition viewed (now : Z) (d : ProgressDoc) : ProgressDoc :=
  mkProgress (problemId d) (category d) (status d) (firstAccessedAt d) (lastUpdatedAt d)
             (Some now) (solvedAt d) (timeSpent d) (viewCount d + 1).

Definition recordProblemView (userId problemId : option string) (w : World) : bool * World :=
  match db w, truthy userId, truthy problemId with
  | Some fs, Some uid, Some pid =>
      match progress_get uid pid fs with
      | Some _ =>
          match progress_update uid pid viewed fs with
          | Normal fs1 => (true, with_db fs1 w)
          | Throw _ => (false, w)
          end
      | None =>
          let mk now :=
            mkProgress pid (categoryName pid) "notstarted" now now (Some now) None 0 1 in
          let fs1 := progress_set uid pid mk fs in
          (true, snd (updateUserStats (Some uid) (mkDelta 0 1 0) (with_db fs1 w)))
      end
  | _, _, _ => (false, w)
  end.

(** *** updateTimeSpent *)

(** [seconds] is an integer: every caller passes
    [Math.floor((Date.now() - sessionStartTime) / 1000)]. *)
Definition add_time (seconds : Z) (now : Z) (d : ProgressDoc) : ProgressDoc :=
  mkProgress (problemId d) (category d) (status d) (firstAccessedAt d) now
             (lastViewedAt d) (solvedAt d) (timeSpent d + seconds) (viewCount d).

Definition updateTimeSpent (userId problemId : option string) (seconds : Z)
    (w : World) : bool * World :=
  match db w, truthy userId, truthy problemId with
  | Some fs, Some uid, Some pid =>
      if decide (seconds <= 0) then (false, w)
      else
        match progress_update uid pid (add_time seconds) fs with
        | Normal fs1 =>
            (true, snd (updateUserStats (Some uid) (mkDelta 0 0 seconds) (with_db fs1 w)))
        | Throw _ => (false, w)
        end
  | _, _, _ => (false, w)
  end.

(** A run of calls, each given as (userId, problemId, seconds). *)
Definition updateTimeSpent_all (calls : list (option string * option string * Z))
    (w : World) : World :=
  foldl (fun w c => (updateTimeSpent c.1.1 c.1.2 c.2 w).2) w calls.

(** *** getAllProgress *)

(** The documents of [users/{uid}/progress] as [(id, data)]. *)
Definition progress_of (uid : string) (fs : Firestore) : list (string * ProgressDoc) :=
  omap (fun kv : string * string * ProgressDoc =>
          if decide (kv.1.1 = uid) then Some (kv.1.2, kv.2) else None)
       (map_to_list (progressDocs fs)).

(** [orderBy('lastUpdatedAt', 'desc')] *)
Definition newer_first (a b : string * ProgressDoc) : Prop :=
  lastUpdatedAt b.2 <= lastUpdatedAt a.2.

#[local] Instance newer_first_dec a b : Decision (newer_first a b).
Proof. unfold newer_first. apply _. Defined.

Definition getAllProgress (userId : option string) (w : World) : list (string * ProgressDoc) :=
  match db w, truthy userId with
  | Some fs, Some uid => merge_sort newer_first (progress_of uid fs)
  | _, _ => []
  end.

(** *** syncLocalStorageToFirestore *)

(** The body of [for (const key of progressKeys)]. *)
Fixpoint push_keys (uid : string) (ks : list string) (w : World) (syncedCount : nat)
    : nat * World :=
  match ks with
  | [] => (syncedCount, w)
  | key :: rest =>
      let st := getItem key (localStorage w) in
      let pid := replace "progress_" "" key in
      match truthy st, truthy (Some pid) with
      | Some s, Some p =>
          push_keys uid rest (snd (updateProblemProgress (Some uid) (Some p) s w))
                    (S syncedCount)
      | _, _ => push_keys uid rest w syncedCount
      end
  end.

(** [Object.keys(localStorage).filter(k => k.startsWith('progress_'))] *)
Definition progressKeys (w : World) : list string :=
  filter (fun k => startsWith "progress_" k = true) (keys (localStorage w)).

Definition syncLocalStorageToFirestore (userId : option string) (w : World) : nat * World :=
  match db w, truthy userId with
  | Some _, Some uid => push_keys uid (progressKeys w) w 0
  | _, _ => (0%nat, w)
  end.

(** *** syncFirestoreToLocalStorage *)

(** [`progress_${item.problemId}`] *)
Definition key_of (item : string * ProgressDoc) : string :=
  "progress_" ++ problemId item.2.

(** The body of [for (const item of progressData)]; a [setItem] that
    throws leaves the loop through the [catch]. *)
Fixpoint pull_items (progressData : list (string * ProgressDoc)) (st : Storage)
    (syncedCount : nat) : nat * Storage :=
  match progressData with
  | [] => (syncedCount, st)
  | item :: rest =>
      match setItem (key_of item) (status item.2) st with
      | Normal st' => pull_items rest st' (S syncedCount)
      | Throw _ => (syncedCount, st)
      end
  end.

Definition syncFirestoreToLocalStorage (userId : option string) (w : World) : nat * World :=
  match db w, truthy userId with
  | Some _, Some _ =>
      let r := pull_items (getAllProgress userId w) (localStorage w) 0 in
      (r.1, with_storage r.2 w)
  | _, _ => (0%nat, w)
  end.

(** The two sync steps in the order [handleAuthStateChange] chains them. *)
Definition reconcile (userId : option string) (w : World) : World :=
  snd (syncFirestoreToLocalStorage userId (snd (syncLocalStorageToFirestore userId w))).

(** *** Observations *)

Definition remote (uid pid : string) (w : World) : option ProgressDoc :=
  fs ← db w; progressDocs fs !! (uid, pid).

Definition remoteStatus (uid pid : string) (w : World) : option string :=
  status <$> remote uid pid w.

Definition localStatus (pid : string) (w : World) : option string :=
  getItem ("progress_" ++ pid) (localStorage w).

Definition timeSpentOf (uid pid : string) (w : World) : option Z :=
  timeSpent <$> remote uid pid w.

Definition solvedCount (uid : string) (w : World) : option Z :=
  fs ← db w; (fun u => problemsSolved (stats u)) <$> userDocs fs !! uid.

(** The record moves into 'solved': it was missing or had another status. *)
Definition enters_solved (previous : option string) (st : string) : bool :=
  bool_decide (st = "solved") && negb (bool_decide (previous = Some "solved")).

(** Every progress document of the user carries its own id in the
    [problemId] field, as [progressRef.set] writes it. *)
Definition wf_remote (uid : string) (w : World) : Prop :=
  forall pid d, remote uid pid w = Some d -> problemId d = pid.

(** A progress document with its [lastUpdatedAt] blanked. *)
Definition erase_lastUpdated (d : ProgressDoc) : ProgressDoc :=
  mkProgress (problemId d) (category d) (status d) (firstAccessedAt d) 0
             (lastViewedAt d) (solvedAt d) (timeSpent d) (viewCount d).

(** Two stores agree on every user document and on every progress
    document up to [lastUpdatedAt]. *)
Definition same_ledger (fs1 fs2 : Firestore) : Prop :=
  userDocs fs2 = userDocs fs1 /\
  erase_lastUpdated <$> progressDocs fs2 = erase_lastUpdated <$> progressDocs fs1.

(** The local ledger is the same and the remote one is the same up to
    [lastUpdatedAt]. *)
Definition ledgers_agree (w1 w2 : World) : Prop :=
  localStorage w2 = localStorage w1 /\
  match db w1, db w2 with
  | Some fs1, Some fs2 => same_ledger fs1 fs2
  | None, None => True
  | _, _ => False
  end.

(** Every usable local entry is the status of its remote record. *)
Definition pushed (uid : string) (w : World) : Prop :=
  forall key s,
    getItem key (localStorage w) = Some s ->
    startsWith "progress_" key = true ->
    s <> "" -> replace "progress_" "" key <> "" ->
    remoteStatus uid (replace "progress_" "" key) w = Some s.

(** Every remote record of the user is copied to localStorage, unless
    localStorage refuses writes. *)
Definition mirrored (uid : string) (w : World) : Prop :=
  quotaExceeded (localStorage w) = true \/
  forall pid d, remote uid pid w = Some d ->
                items (localStorage w) !! key_of (pid, d) = Some (status d).

(** The state reconciliation leaves behind. *)
Definition in_sync (uid : string) (w : World) : Prop :=
  pushed uid w /\ mirrored uid w.

(** *** The merge rule of the specification *)

(** The status ranking of the specification,
    not-started < working < needs-help < solved, and the merge by it. *)
Definition spec_rank (st : string) : nat :=
  if decide (st = "solved") then 3
  else if decide (st = "needs-help") then 2
  else if decide (st = "working") then 1
  else 0.

Definition spec_merge (local_st remote_st : string) : string :=
  if (spec_rank local_st <? spec_rank remote_st)%nat then remote_st else local_st.

(** *** Sample states *)

(** A signed-in user whose remote record of lc_1 is 'solved' while this
    device still holds 'working' for it. *)
Definition stale_device : World :=
  mkWorld
    (Some (mkFirestore
             {[ "u1" := mkUser 0 0 1 (mkStats 1 1 0 2) ]}
             {[ ("u1", "lc_1") :=
                  mkProgress "lc_1" "LeetCode" "solved" 1 2 None (Some 2) 0 1 ]}
             10))
    (mkStorage {[ "progress_lc_1" := "working" ]} false).

(** A first sign-in: lc_1 solved locally, nothing stored remotely. *)
Definition first_login : World :=
  mkWorld
    (Some (mkFirestore {[ "u1" := mkUser 0 0 1 (mkStats 0 0 0 0) ]} ∅ 10))
    (mkStorage {[ "progress_lc_1" := "solved" ]} false).

End Database.

(** ** JSON.stringify and JSON.parse *)

Module Json.

(** The values a stored session can hold.  Numbers and arrays do not
    occur in it and are not covered: [parse] rejects them. *)
#[warnings="-register-all"]
Inductive json :=
| JNull
| JBool (b : bool)
| JStr (s : string)
| JObj (fields : list (string * json)).

Definition dquote : ascii := "034"%char.
Definition backslash : ascii := "092"%char.

Fixpoint escape (s : string) : string :=
  match s with
  | EmptyString => EmptyString
  | String c r =>
      if Ascii.eqb c dquote || Ascii.eqb c backslash
      then String backslash (String c (escape r))
      else String c (escape r)
  end.

Definition quote (s : string) : string :=
  String dquote (escape s ++ String dquote EmptyString).

Fixpoint stringify (j : json) : string :=
  match j with
  | JNull => "null"
  | JBool true => "true"
  | JBool false => "false"
  | JStr s => quote s
  | JObj fs =>
      "{" ++
      (fix members (l : list (string * json)) : string :=
         match l with
         | [] => ""
         | (k, v) :: rest =>
             quote k ++ ":" ++ stringify v ++
             match rest with [] => "" | _ => "," ++ members rest end
         end) fs
      ++ "}"
  end.

Fixpoint skip_ws (s : string) : string :=
  match s with
  | String c r => if Ascii.eqb c " " then skip_ws r else s
  | EmptyString => s
  end.

Definition drop_chars (n : nat) (s : string) : string :=
  String.substring n (String.length s - n) s.

(** The characters of a string literal up to its closing quote. *)
Fixpoint parse_chars (s : string) : option (string * string) :=
  match s with
  | EmptyString => None
  | String c rest =>
      if Ascii.eqb c dquote then Some (EmptyString, rest)
      else if Ascii.eqb c backslash then
        match rest with
        | String e rest' =>
            if Ascii.eqb e dquote || Ascii.eqb e backslash || Ascii.eqb e "/"
            then prod_map (String e) id <$> parse_chars rest'
            else None
        | EmptyString => None
        end
      else prod_map (String c) id <$> parse_chars rest
  end.

Fixpoint parse_value (fuel : nat) (s : string) : option (json * string) :=
  match fuel with
  | O => None
  | S fuel' =>
      let s := skip_ws s in
      if String.prefix "null" s then Some (JNull, drop_chars 4 s)
      else if String.prefix "true" s then Some (JBool true, drop_chars 4 s)
      else if String.prefix "false" s then Some (JBool false, drop_chars 5 s)
      else match s with
           | String c rest =>
               if Ascii.eqb c dquote then prod_map JStr id <$> parse_chars rest
               else if Ascii.eqb c "{" then
                 match skip_ws rest with
                 | String "}" rest' => Some (JObj [], rest')
                 | _ => parse_members fuel' rest []
                 end
               else None
           | EmptyString => None
           end
  end
with parse_members (fuel : nat) (s : string) (acc : list (string * json))
    : option (json * string) :=
  match fuel with
  | O => None
  | S fuel' =>
      match skip_ws s with
      | String c rest =>
          if Ascii.eqb c dquote then
            match parse_chars rest with
            | Some (k, r1) =>
                match skip_ws r1 with
                | String ":" r2 =>
                    match parse_value fuel' r2 with
                    | Some (v, r3) =>
                        match skip_ws r3 with
                        | String "," r4 => parse_members fuel' r4 (acc ++ [(k, v)])
                        | String "}" r4 => Some (JObj (acc ++ [(k, v)]), r4)
                        | _ => None
                        end
                    | None => None
                    end
                | _ => None
                end
            | None => None
            end
          else None
      | EmptyString => None
      end
  end.

(** [JSON.parse(text)] *)
Definition parse (text : string) : Completion json :=
  match parse_value (S (String.length text)) text with
  | Some (v, rest) =>
      match skip_ws rest with
      | EmptyString => Normal v
      | _ => Throw SyntaxError
      end
  | None => Throw SyntaxError
  end.

End Json.

Import Json.

(** ** The page: document, storage, console and the auth module's variables *)

Module Page.

(** *** The part of the document the scripts touch *)

(** A child of a gated region: the wrapper and the overlay that
    createContentGate builds, or any other node. *)
#[warnings="-register-all"]
Inductive Node :=
| Element (ref : nat)
| GatedContent (ref : nat) (cssText : string) (kids : list Node)
| GateOverlay (ref : nat) (className title description buttonText : string).


(** [container._authGate = { overlay, contentWrapper }] holds the two
    nodes by reference. *)
Record Container := mkContainer {
  position : string;
  childNodes : list Node;
  _authGate : option (nat * nat)
}.

Inductive Task :=
| ActivateModal                  (* requestAnimationFrame: overlay.classList.add('active') *)
| ShowGateMessage (msg : string).  (* setTimeout(..., 100) of requireAuth *)

Record Dom := mkDom {
  containers : gmap nat Container;
  nextRef : nat;                 (* identity of the next created object *)
  gateStyles : bool;             (* style#auth-gate-styles is in the head *)
  modalStyles : bool;            (* style#auth-modal-styles is in the head *)
  modalInjected : bool;          (* div#auth-modal-overlay is in the body *)
  bodyOverflow : string;
  href : string;                 (* window.location.href *)
  scheduled : list Task
}.

(** *** Values of [currentUser] *)

Record FirebaseUser := mkFirebaseUser {
  uid : string;
  email : option string;
  displayName : option string;
  photoURL : option string;
  emailVerified : bool;
  providerData : list string     (* the providerId of each entry *)
}.

Inductive UserValue :=
| Undefined
| Null
| User (u : FirebaseUser).

(** [if (user)] *)
Definition is_user (v : UserValue) : bool :=
  match v with User _ => true | _ => false end.

(** *** Listeners *)

(** A function object passed to onAuthStateChanged: its identity and
    what a call does.  A listener acts on the document and either
    returns or throws; it does not call back into the auth module. *)
Record Callback := mkCallback {
  cb_ref : nat;
  cb_run : UserValue -> Dom -> Dom * option Error
}.

(** One call of a listener: who, with what, and what it threw. *)
Record Invocation := mkInvocation {
  who : nat;
  arg : UserValue;
  threw : option Error
}.

Inductive LogEntry :=
| ConsoleLog (msg : string)
| ConsoleWarn (msg : string)
| ConsoleError (msg : string) (e : option Error).

(** *** The state of the page *)

Record Page := mkPage {
  authLoaded : bool;                    (* window.MLInterviewAuth is defined *)
  dbLoaded : bool;                      (* window.MLInterviewDB is defined *)
  currentUser : UserValue;              (* auth.js: let currentUser *)
  authStateListeners : list Callback;   (* auth.js: const authStateListeners *)
  dom : Dom;
  localStorage : Storage;
  console : list LogEntry;
  dateNow : string;                     (* new Date().toISOString() *)
  dbChains : list string;               (* uids whose database chain was started *)
  invocations : list Invocation         (* history of listener calls *)
}.

Definition set_currentUser (v : UserValue) (pg : Page) : Page :=
  mkPage (authLoaded pg) (dbLoaded pg) v (authStateListeners pg) (dom pg)
         (localStorage pg) (console pg) (dateNow pg) (dbChains pg) (invocations pg).

Definition set_listeners (ls : list Callback) (pg : Page) : Page :=
  mkPage (authLoaded pg) (dbLoaded pg) (currentUser pg) ls (dom pg)
         (localStorage pg) (console pg) (dateNow pg) (dbChains pg) (invocations pg).

Definition set_dom (d : Dom) (pg : Page) : Page :=
  mkPage (authLoaded pg) (dbLoaded pg) (currentUser pg) (authStateListeners pg) d
         (localStorage pg) (console pg) (dateNow pg) (dbChains pg) (invocations pg).

Definition set_localStorage (st : Storage) (pg : Page) : Page :=
  mkPage (authLoaded pg) (dbLoaded pg) (currentUser pg) (authStateListeners pg) (dom pg)
         st (console pg) (dateNow pg) (dbChains pg) (invocations pg).

Definition add_log (l : LogEntry) (pg : Page) : Page :=
  mkPage (authLoaded pg) (dbLoaded pg) (currentUser pg) (authStateListeners pg) (dom pg)
         (localStorage pg) (console pg ++ [l]) (dateNow pg) (dbChains pg) (invocations pg).

Definition add_dbChain (u : string) (pg : Page) : Page :=
  mkPage (authLoaded pg) (dbLoaded pg) (currentUser pg) (authStateListeners pg) (dom pg)
         (localStorage pg) (console pg) (dateNow pg) (dbChains pg ++ [u]) (invocations pg).

Definition add_invocation (i : Invocation) (pg : Page) : Page :=
  mkPage (authLoaded pg) (dbLoaded pg) (currentUser pg) (authStateListeners pg) (dom pg)
         (localStorage pg) (console pg) (dateNow pg) (dbChains pg) (invocations pg ++ [i]).

(** *** Statements: a state transformer that returns or throws *)

Definition M (A : Type) : Type := Page -> Page * Completion A.

Definition ret {A} (a : A) : M A := fun pg => (pg, Normal a).

Definition throw {A} (e : Error) : M A := fun pg => (pg, Throw e).

Definition seq {A B} (m : M A) (k : A -> M B) : M B :=
  fun pg =>
    match m pg with
    | (pg', Normal a) => k a pg'
    | (pg', Throw e) => (pg', Throw e)
    end.

(** [try { body } catch (e) { handler }] *)
Definition try_catch {A} (body : M A) (handler : Error -> M A) : M A :=
  fun pg =>
    match body pg with
    | (pg', Normal a) => (pg', Normal a)
    | (pg', Throw e) => handler e pg'
    end.

Definition modify (f : Page -> Page) : M unit := fun pg => (f pg, Normal tt).

Definition console_log (msg : string) : M unit := modify (add_log (ConsoleLog msg)).
Definition console_error (msg : string) (e : option Error) : M unit :=
  modify (add_log (ConsoleError msg e)).

End Page.

Import Page.

(** [s1; s2]: run [s2] unless [s1] threw. *)
Declare Scope js_scope.
Delimit Scope js_scope with js.
Notation "m ;; k" := (seq m (fun _ => k))
  (at level 100, k at level 200, right associativity) : js_scope.

(** ** js/auth.js *)

Module Auth.

Local Open Scope js_scope.

Definition SESSION_KEY : string := "mlinterviewpro_user_session".

(** The state of a freshly loaded page: [let currentUser = null] and
    [const authStateListeners = []]. *)
Definition initial (d : Dom) (st : Storage) (now : string) : Page :=
  mkPage true false Null [] d st [] now [] [].

(** *** Session cache *)

Definition of_nullable (x : option string) : json :=
  match x with Some s => JStr s | None => JNull end.

(** [user.providerData[0]?.providerId || 'unknown'] *)
Definition providerId (user : FirebaseUser) : string :=
  default "unknown" (truthy (head (providerData user))).

Definition sessionData (user : FirebaseUser) (now : string) : json :=
  JObj [ ("uid", JStr (uid user));
         ("email", of_nullable (email user));
         ("displayName", of_nullable (displayName user));
         ("photoURL", of_nullable (photoURL user));
         ("emailVerified", JBool (emailVerified user));
         ("providerId", JStr (providerId user));
         ("lastLoginAt", JStr now) ].

(** [localStorage.setItem(k, v)] as a statement *)
Definition storage_setItem (k v : string) : M unit :=
  fun pg =>
    match setItem k v (localStorage pg) with
    | Normal st => (set_localStorage st pg, Normal tt)
    | Throw e => (pg, Throw e)
    end.

Definition storage_removeItem (k : string) : M unit :=
  modify (fun pg => set_localStorage (removeItem k (localStorage pg)) pg).

Definition storeUserSession (user : FirebaseUser) : M unit :=
  fun pg =>
    let data := sessionData user (dateNow pg) in
    try_catch (storage_setItem SESSION_KEY (stringify data))
              (fun e => console_error "Error storing user session:" (Some e))
              pg.

Definition clearUserSession : M unit :=
  try_catch (storage_removeItem SESSION_KEY)
            (fun e => console_error "Error clearing user session:" (Some e)).

(** Returns the stored object, or [JNull] for [null]. *)
Definition getStoredUserSession : M json :=
  try_catch
    (fun pg =>
       match truthy (getItem SESSION_KEY (localStorage pg)) with
       | Some text => (pg, parse text)
       | None => (pg, Normal JNull)
       end)
    (fun e => console_error "Error retrieving user session:" (Some e) ;; ret JNull).

(** *** Auth state *)

(** [listener(user)] *)
Definition call (listener : Callback) (user : UserValue) : M unit :=
  fun pg =>
    let r := cb_run listener user (dom pg) in
    let pg' := add_invocation (mkInvocation (cb_ref listener) user r.2) (set_dom r.1 pg) in
    match r.2 with
    | None => (pg', Normal tt)
    | Some e => (pg', Throw e)
    end.

(** [authStateListeners.forEach(listener => { try {...} catch {...} })]
    for listeners that leave the array alone; [Live.notify] is the loop
    over the array as the listeners may change it. *)
Fixpoint notify (user : UserValue) (listeners : list Callback) : M unit :=
  match listeners with
  | [] => ret tt
  | listener :: rest =>
      try_catch (call listener user)
                (fun e => console_error "Error in auth state listener:" (Some e)) ;;
      notify user rest
  end.

Definition handleAuthStateChange (user : UserValue) : M unit :=
  modify (set_currentUser user) ;;
  match user with
  | User u =>
      console_log "User signed in:" ;;
      storeUserSession u ;;
      (* the database chain runs after the listeners, as promise callbacks *)
      fun pg => if dbLoaded pg then modify (add_dbChain (uid u)) pg else ret tt pg
  | _ =>
      console_log "User signed out" ;;
      clearUserSession
  end ;;
  fun pg => notify user (authStateListeners pg) pg.

Definition getCurrentUser (pg : Page) : UserValue := currentUser pg.

(** [authStateListeners.indexOf(callback)]: functions are compared by
    identity; [None] is -1. *)
Fixpoint indexOf (callback : Callback) (l : list Callback) : option nat :=
  match l with
  | [] => None
  | x :: rest =>
      if decide (cb_ref x = cb_ref callback) then Some O
      else S <$> indexOf callback rest
  end.

(** [l.splice(index, 1)] *)
Definition splice1 (index : nat) (l : list Callback) : list Callback :=
  take index l ++ drop (S index) l.

(** The function onAuthStateChanged returns, for the callback it closed
    over. *)
Definition unsubscribe (callback : Callback) : M unit :=
  modify (fun pg =>
    match indexOf callback (authStateListeners pg) with
    | Some index => set_listeners (splice1 index (authStateListeners pg)) pg
    | None => pg
    end).

(** [callback] is [None] for an argument that is not a function.  The
    result is the callback the returned unsubscribe function closes
    over. *)
Definition onAuthStateChanged (callback : option Callback) : M Callback :=
  match callback with
  | None => throw (UserError "Callback must be a function")
  | Some cb =>
      modify (fun pg => set_listeners (authStateListeners pg ++ [cb]) pg) ;;
      (fun pg =>
         match currentUser pg with
         | Undefined => ret tt pg
         | v => call cb v pg
         end) ;;
      ret cb
  end.

(** *** Login modal *)

Definition injectLoginModal : M unit :=
  modify (fun pg =>
    let d := dom pg in
    if modalInjected d then pg
    else set_dom (mkDom (containers d) (nextRef d) (gateStyles d) true true
                        (bodyOverflow d) (href d) (scheduled d)) pg).

Definition showLoginModal : M unit :=
  injectLoginModal ;;
  modify (fun pg =>
    let d := dom pg in
    if modalInjected d
    then set_dom (mkDom (containers d) (nextRef d) (gateStyles d) (modalStyles d)
                        (modalInjected d) "hidden" (href d)
                        (scheduled d ++ [ActivateModal])) pg
    else pg).

(** *** Observations *)

Definition calls_of (l : list Invocation) : list (nat * UserValue) :=
  (fun i => (who i, arg i)) <$> l.

(** The errors reported by the fan-out's [catch]. *)
Definition listener_errors (log : list LogEntry) : list Error :=
  omap (fun l => match l with
                 | ConsoleError msg (Some e) =>
                     if decide (msg = "Error in auth state listener:") then Some e else None
                 | _ => None
                 end) log.

(** How many times the function is in the listener array. *)
Definition registrations (callback : Callback) (pg : Page) : nat :=
  length (filter (fun x => cb_ref x = cb_ref callback) (authStateListeners pg)).

Definition handleAuthStateChange_all (users : list UserValue) (pg : Page) : Page :=
  foldl (fun pg u => (handleAuthStateChange u pg).1) pg users.

(** *** Sample states *)

Definition blank_dom : Dom := mkDom ∅ 0 false false false "" "" [].

Definition fresh_page : Page :=
  initial blank_dom (mkStorage ∅ false) "2026-01-01T00:00:00.000Z".

Definition quiet : Callback := mkCallback 100 (fun _ d => (d, None)).

Definition faulty : Callback :=
  mkCallback 101 (fun _ d => (d, Some (UserError "listener failed"))).

Definition alice : FirebaseUser :=
  mkFirebaseUser "u1" (Some "alice@example.com") (Some "Alice") None true ["google.com"].

Definition bob : FirebaseUser :=
  mkFirebaseUser "u2" (Some "bob@example.com") None None false [].

(** The same page once the storage quota is used up. *)
Definition out_of_quota (pg : Page) : Page :=
  set_localStorage (mkStorage (items (localStorage pg)) true) pg.

End Auth.

(** ** js/auth.js: the fan-out over the live listener array *)

(** [Auth.notify] walks the listeners that are registered when the
    fan-out starts.  That is what [forEach] does as long as no listener
    changes the array while it runs.  Here a listener may also call
    unsubscribe functions that onAuthStateChanged returned, its own or
    those of other callbacks, and [forEach] reads the array as it is
    when it reaches each index. *)
Module Live.
Import Auth.

Local Open Scope js_scope.

(** For the function object with identity [ref]: the callbacks whose
    unsubscribe function a call of it gets to call before it returns or
    throws, in the order of the calls. *)
Definition Handles : Type := nat -> UserValue -> Dom -> list Callback.

Fixpoint unsubscribe_each (callbacks : list Callback) : M unit :=
  match callbacks with
  | [] => ret tt
  | callback :: rest => unsubscribe callback ;; unsubscribe_each rest
  end.

(** [listener(user)].  The unsubscribe functions touch the array only
    and the rest of the listener touches the document only, so where in
    the body they are called makes no difference. *)
Definition call (handles : Handles) (listener : Callback) (user : UserValue) : M unit :=
  fun pg =>
    (unsubscribe_each (handles (cb_ref listener) user (dom pg)) ;;
     Auth.call listener user) pg.

(** [Array.prototype.forEach]: the length is read once, before the first
    call; index [k] is read when the loop reaches it, from the array as
    it is then, and an index the array no longer has is skipped.  [n]
    counts the indices that are left. *)
Fixpoint forEach_from (f : Callback -> M unit) (k n : nat) : M unit :=
  match n with
  | O => ret tt
  | S n' =>
      (fun pg =>
         match authStateListeners pg !! k with
         | Some listener => f listener pg
         | None => ret tt pg
         end) ;;
      forEach_from f (S k) n'
  end.

Definition forEach (f : Callback -> M unit) : M unit :=
  fun pg => forEach_from f 0 (length (authStateListeners pg)) pg.

(** [authStateListeners.forEach(listener => { try {...} catch {...} })] *)
Definition notify (handles : Handles) (user : UserValue) : M unit :=
  forEach (fun listener =>
    try_catch (call handles listener user)
              (fun e => console_error "Error in auth state listener:" (Some e))).

Definition handleAuthStateChange (handles : Handles) (user : UserValue) : M unit :=
  modify (set_currentUser user) ;;
  match user with
  | User u =>
      console_log "User signed in:" ;;
      storeUserSession u ;;
      fun pg => if dbLoaded pg then modify (add_dbChain (uid u)) pg else ret tt pg
  | _ =>
      console_log "User signed out" ;;
      clearUserSession
  end ;;
  notify handles user.

Definition handleAuthStateChange_all (handles : Handles) (users : list UserValue)
    (pg : Page) : Page :=
  foldl (fun pg u => (handleAuthStateChange handles u pg).1) pg users.

(** *** Observations *)

(** No call of the listener calls an unsubscribe function. *)
Definition keeps_array (handles : Handles) (listener : Callback) : Prop :=
  forall user d, handles (cb_ref listener) user d = [].

(** The listeners run one after the other, each on the document the one
    before left behind, whether or not that one threw: the document at
    the end and the record of every call. *)
Fixpoint run_listeners (user : UserValue) (listeners : list Callback) (d : Dom)
    : Dom * list Invocation :=
  match listeners with
  | [] => (d, [])
  | listener :: rest =>
      let r := cb_run listener user d in
      let r' := run_listeners user rest r.1 in
      (r'.1, mkInvocation (cb_ref listener) user r.2 :: r'.2)
  end.

(** The same for one value after the other. *)
Fixpoint deliver (users : list UserValue) (listeners : list Callback) (d : Dom)
    : Dom * list Invocation :=
  match users with
  | [] => (d, [])
  | user :: rest =>
      let r := run_listeners user listeners d in
      let r' := deliver rest listeners r.1 in
      (r'.1, (r.2 ++ r'.2)%list)
  end.

(** *** Sample states *)

Definition note (msg : string) (d : Dom) : Dom :=
  mkDom (containers d) (nextRef d) (gateStyles d) (modalStyles d) (modalInjected d)
        (bodyOverflow d) (href d) (scheduled d ++ [ShowGateMessage msg]).

(** [let off; off = onAuthStateChanged(user => { if (user) { off();
    throw new Error('listener failed') } })]: at the first sign-in it
    takes itself out of the array and throws. *)
Definition one_shot : Callback :=
  mkCallback 102 (fun user d =>
    (d, if is_user user then Some (UserError "listener failed") else None)).

Definition second : Callback :=
  mkCallback 103 (fun user d => (if is_user user then note "second ran" d else d, None)).

Definition third : Callback :=
  mkCallback 104 (fun user d => (if is_user user then note "third ran" d else d, None)).

Definition one_shot_handles : Handles :=
  fun ref user _ =>
    if decide (ref = 102%nat) then (if is_user user then [one_shot] else []) else [].

Definition no_handles : Handles := fun _ _ _ => [].

(** [one_shot], [second] and [third] registered, in this order, on a
    freshly loaded page. *)
Definition three_listeners : Page :=
  (onAuthStateChanged (Some third)
     (onAuthStateChanged (Some second)
        (onAuthStateChanged (Some one_shot) fresh_page).1).1).1.

End Live.

(** ** js/auth-ui.js *)

Module AuthUI.

Local Open Scope js_scope.

(** [window.MLInterviewAuth?.getCurrentUser?.()] *)
Definition currentUser_opt (pg : Page) : UserValue :=
  if authLoaded pg then Auth.getCurrentUser pg else Undefined.

(** *** Login modal wrapper *)

Definition showLoginModal : M unit :=
  fun pg =>
    if authLoaded pg then Auth.showLoginModal pg
    else console_error
           "Auth module not loaded. Make sure auth.js is included before auth-ui.js"
           None pg.

(** *** requireAuth *)

(** The [options] argument; [None] is a property left out. *)
Record RequireAuthOptions := mkOptions {
  showModal : option bool;
  redirectTo : option string;
  message : option string
}.

Definition set_href (url : string) : M unit :=
  modify (fun pg =>
    let d := dom pg in
    set_dom (mkDom (containers d) (nextRef d) (gateStyles d) (modalStyles d)
                   (modalInjected d) (bodyOverflow d) url (scheduled d)) pg).

Definition setTimeout (t : Task) : M unit :=
  modify (fun pg =>
    let d := dom pg in
    set_dom (mkDom (containers d) (nextRef d) (gateStyles d) (modalStyles d)
                   (modalInjected d) (bodyOverflow d) (href d) (scheduled d ++ [t])) pg).

Definition requireAuth (options : RequireAuthOptions) : M bool :=
  fun pg =>
    let user := currentUser_opt pg in
    if is_user user then ret true pg
    else
      (match truthy (redirectTo options) with
       | Some url => set_href url
       | None =>
           if default true (showModal options) then
             showLoginModal ;;
             fun pg' =>
               match truthy (message options) with
               | Some msg =>
                   if authLoaded pg' then setTimeout (ShowGateMessage msg) pg'
                   else ret tt pg'
               | None => ret tt pg'
               end
           else ret tt
       end ;;
       ret false) pg.

(** *** Content gate *)











(** *** Sample state *)

(** A visitor's page with one region (element 7, two children) and
    one listener registered. *)
Definition article : Container := mkContainer "" [Element 1; Element 2] None.

Definition visitor_page : Page :=
  set_dom (mkDom {[ 7 := article ]} 10 false false false "" "" [])
          (set_listeners [Auth.quiet] Auth.fresh_page).

End AuthUI.

(** ** js/database.js: profile, statistics and runs of calls *)

Module DatabaseOps.

Import Database.
Local Open Scope Z_scope.

(** *** createOrUpdateUserProfile *)

(** [userRef.set(d)] *)
Definition user_set (uid : string) (mk : Z -> UserDoc) (fs : Firestore) : Firestore :=
  mkFirestore (<[uid := mk (serverClock fs)]> (userDocs fs)) (progressDocs fs)
              (serverClock fs + 1).

(** The update of a returning user: [lastLoginAt: now] and
    [totalLogins: increment(1)]. *)
Definition login_again (now : Z) (u : UserDoc) : UserDoc :=
  mkUser (createdAt u) now (totalLogins u + 1) (stats u).

(** The document of a new user. *)
Definition new_profile (now : Z) : UserDoc :=
  mkUser now now 1 (mkStats 0 0 0 now).

(** [user] is [None] for [null].  The result is the profile read back,
    [None] for [null]. *)
Definition createOrUpdateUserProfile (user : option FirebaseUser) (w : World)
    : option UserDoc * World :=
  match db w, user with
  | Some fs, Some u =>
      match userDocs fs !! Page.uid u with
      | Some _ =>
          match user_update (Page.uid u) login_again fs with
          | Normal fs' => (userDocs fs' !! Page.uid u, with_db fs' w)
          | Throw _ => (None, w)
          end
      | None =>
          let fs' := user_set (Page.uid u) new_profile fs in
          (userDocs fs' !! Page.uid u, with_db fs' w)
      end
  | _, _ => (None, w)
  end.

(** *** getUserProfile *)

Definition getUserProfile (userId : option string) (w : World) : option UserDoc :=
  match db w, truthy userId with
  | Some fs, Some uid => userDocs fs !! uid
  | _, _ => None
  end.

(** *** getUserStats *)

Record CategoryStats := mkCategoryStats {
  cs_accessed : Z;
  cs_solved : Z;
  cs_working : Z;
  cs_needHelp : Z;
  cs_timeSpent : Z
}.

Record StatsReport := mkReport {
  r_createdAt : Z;
  r_lastLoginAt : Z;
  r_totalLogins : Z;
  overall_problemsAccessed : Z;
  overall_problemsSolved : Z;
  overall_totalTimeSpent : Z;
  overall_lastActivityAt : Z;
  byCategory : gmap string CategoryStats
}.

(** The three accumulators of [progressSnapshot.forEach]:
    [categoryStats], [totalSolved] and [totalAccessed]. *)
Record Tally := mkTally {
  categoryStats : gmap string CategoryStats;
  totalSolved : Z;
  totalAccessed : Z
}.

(** The body of the [forEach] for one document.  Categories are map
    keys; no category is the name of a member of [Object.prototype]. *)
Definition count_doc (acc : Tally) (data : ProgressDoc) : Tally :=
  let cat := if decide (category data = "") then "Unknown" else category data in
  let cs := default (mkCategoryStats 0 0 0 0 0) (categoryStats acc !! cat) in
  let cs1 := mkCategoryStats (cs_accessed cs + 1) (cs_solved cs) (cs_working cs)
                             (cs_needHelp cs) (cs_timeSpent cs + timeSpent data) in
  let cs2 :=
    if decide (status data = "solved")
    then mkCategoryStats (cs_accessed cs1) (cs_solved cs1 + 1) (cs_working cs1)
                         (cs_needHelp cs1) (cs_timeSpent cs1)
    else if decide (status data = "working")
    then mkCategoryStats (cs_accessed cs1) (cs_solved cs1) (cs_working cs1 + 1)
                         (cs_needHelp cs1) (cs_timeSpent cs1)
    else if decide (status data = "help")
    then mkCategoryStats (cs_accessed cs1) (cs_solved cs1) (cs_working cs1)
                         (cs_needHelp cs1 + 1) (cs_timeSpent cs1)
    else cs1 in
  mkTally (<[cat := cs2]> (categoryStats acc))
          (if decide (status data = "solved") then totalSolved acc + 1 else totalSolved acc)
          (totalAccessed acc + 1).

Definition count_docs (docs : list (string * ProgressDoc)) : Tally :=
  foldl (fun acc it => count_doc acc it.2) (mkTally ∅ 0 0) docs.

(** [None] is [null]. *)
Definition getUserStats (userId : option string) (w : World) : option StatsReport :=
  match db w, truthy userId with
  | Some fs, Some uid =>
      match userDocs fs !! uid with
      | Some userData =>
          let t := count_docs (progress_of uid fs) in
          Some (mkReport (createdAt userData) (lastLoginAt userData) (totalLogins userData)
                         (totalAccessed t) (totalSolved t)
                         (totalTimeSpent (stats userData))
                         (lastActivityAt (stats userData))
                         (categoryStats t))
      | None => None
      end
  | _, _ => None
  end.

(** *** Runs of calls *)

Inductive Op :=
| Login (user : option FirebaseUser)
| Progress (userId problemId : option string) (st : string)
| View (userId problemId : option string)
| Time (userId problemId : option string) (seconds : Z)
| Push (userId : option string)
| Pull (userId : option string).

Definition run_op (w : World) (o : Op) : World :=
  match o with
  | Login user => (createOrUpdateUserProfile user w).2
  | Progress userId problemId st => (updateProblemProgress userId problemId st w).2
  | View userId problemId => (recordProblemView userId problemId w).2
  | Time userId problemId seconds => (updateTimeSpent userId problemId seconds w).2
  | Push userId => (syncLocalStorageToFirestore userId w).2
  | Pull userId => (syncFirestoreToLocalStorage userId w).2
  end.

Definition run_ops (ops : list Op) (w : World) : World := foldl run_op w ops.

(** *** Observations *)

(** The documents of a user in a map of progress documents:
    [progress_of uid fs] is [docs_of uid (progressDocs fs)]. *)
Definition docs_of (uid : string) (m : gmap (string * string) ProgressDoc)
    : list (string * ProgressDoc) :=
  omap (fun kv : string * string * ProgressDoc =>
          if decide (kv.1.1 = uid) then Some (kv.1.2, kv.2) else None)
       (map_to_list m).

(** The sum of [f] over the progress documents of a user. *)
Definition sum_docs (f : ProgressDoc -> Z) (docs : list (string * ProgressDoc)) : Z :=
  foldr (fun it acc => f it.2 + acc) 0 docs.

Definition tally (f : ProgressDoc -> Z) (uid : string) (w : World) : Z :=
  match db w with
  | Some fs => sum_docs f (progress_of uid fs)
  | None => 0
  end.

Definition recordCount (uid : string) (w : World) : Z := tally (fun _ => 1) uid w.

Definition timeSum (uid : string) (w : World) : Z := tally timeSpent uid w.

Definition solvedRecords (uid : string) (w : World) : Z :=
  tally (fun d => if decide (status d = "solved") then 1 else 0) uid w.

(** The progress document at [(uid, pid)] in a store. *)
Definition doc_at (uid pid : string) (fs : Firestore) : option ProgressDoc :=
  progressDocs fs !! (uid, pid).

Definition userStats (uid : string) (w : World) : option UserStats :=
  fs ← db w; stats <$> userDocs fs !! uid.

(** The three counters of a user's document: solved, accessed, time. *)
Definition userCounters (uid : string) (w : World) : option (Z * Z * Z) :=
  (fun s => (problemsSolved s, problemsAccessed s, totalTimeSpent s)) <$> userStats uid w.

Definition bump (d : StatsDelta) (c : Z * Z * Z) : Z * Z * Z :=
  (c.1.1 + d_problemsSolved d, c.1.2 + d_problemsAccessed d, c.2 + d_totalTimeSpent d).

Definition solved_flag (d : ProgressDoc) : Z :=
  if decide (status d = "solved") then 1 else 0.

(** What one call does to the store: it writes at most one progress
    document, [new] at [(uid, pid)], and adds [delta] to the counters
    of [uid]. *)
Definition doc_effect (uid pid : string) (new : option ProgressDoc) (delta : StatsDelta)
    (w w' : World) : Prop :=
  exists fs fs',
    db w = Some fs /\ db w' = Some fs' /\
    localStorage w' = localStorage w /\
    progressDocs fs' = match new with
                       | Some d' => <[(uid, pid) := d']> (progressDocs fs)
                       | None => progressDocs fs
                       end /\
    forall u0, userCounters u0 w' =
               if decide (u0 = uid) then bump delta <$> userCounters u0 w
               else userCounters u0 w.

(** The deltas and the document updateProblemProgress writes over
    [previous] at commit time [t]. *)
Definition progress_delta (previous : option ProgressDoc) (st : string) : StatsDelta :=
  mkDelta (if enters_solved (status <$> previous) st then 1 else 0)
          (if previous is Some _ then 0 else 1) 0.

Definition progress_doc (previous : option ProgressDoc) (pid st : string) (t : Z)
    : ProgressDoc :=
  match previous with
  | Some old => set_status st (enters_solved (Some (status old)) st) t old
  | None => new_progress pid st t
  end.

(** The document recordProblemView writes over [previous]. *)
Definition view_doc (previous : option ProgressDoc) (pid : string) (t : Z) : ProgressDoc :=
  match previous with
  | Some old => viewed t old
  | None => mkProgress pid (categoryName pid) "notstarted" t t (Some t) None 0 1
  end.

(** The counters of the user's document match the progress documents:
    as many accessed as there are records, the total time their sum, and
    at least as many solved as there are solved records. *)
Definition stats_consistent (uid : string) (w : World) : Prop :=
  exists s, userStats uid w = Some s /\
            problemsAccessed s = recordCount uid w /\
            totalTimeSpent s = timeSum uid w /\
            solvedRecords uid w <= problemsSolved s.

(** What one call can do to the record of a problem: [previous] is the
    record before, [d'] the record after. *)
Definition doc_step (pid : string) (previous : option ProgressDoc) (d' : ProgressDoc) : Prop :=
  (exists st t, d' = progress_doc previous pid st t) \/
  (exists t, d' = view_doc previous pid t) \/
  (exists old seconds t, previous = Some old /\ 0 < seconds /\ d' = add_time seconds t old).

(** The property names every object inherits from [Object.prototype].
    For such a prefix [PROBLEM_CATEGORIES[prefix]] is an inherited
    function, which is truthy, so [|| 'Unknown'] does not apply and the
    category is not the string that [categoryName] gives. *)
Definition inherited_names : list string :=
  ["constructor"; "hasOwnProperty"; "isPrototypeOf"; "propertyIsEnumerable";
   "toLocaleString"; "toString"; "valueOf"; "__proto__"; "__defineGetter__";
   "__defineSetter__"; "__lookupGetter__"; "__lookupSetter__"].

(** The id's prefix, [problemId.split('_')[0]], is one of them. *)
Definition inherited_prefix (pid : string) : bool :=
  bool_decide (split_first "_" pid ∈ inherited_names).

(** The fields a record has from its creation on: it carries its own
    id, it has been viewed at least once, a solved record has its
    [solvedAt], and, unless the id's prefix is an inherited name, it
    carries the category of that id. *)
Definition record_ok (pid : string) (d : ProgressDoc) : Prop :=
  problemId d = pid /\
  (inherited_prefix pid = false -> category d = categoryName pid) /\
  1 <= viewCount d /\
  (status d = "solved" -> is_Some (solvedAt d)).

Definition records_ok (w : World) : Prop :=
  forall uid pid d, remote uid pid w = Some d -> record_ok pid d.

(** A later version of a record: the fields fixed at creation are the
    same, the counters have not gone down, and [solvedAt] has not been
    cleared. *)
Definition later_version (d d' : ProgressDoc) : Prop :=
  problemId d' = problemId d /\
  category d' = category d /\
  firstAccessedAt d' = firstAccessedAt d /\
  viewCount d <= viewCount d' /\
  timeSpent d <= timeSpent d' /\
  (is_Some (solvedAt d) -> is_Some (solvedAt d')).

(** The sign-in fields of a user's document. *)
Definition profile (uid : string) (w : World) : option (Z * Z * Z) :=
  fs ← db w; (fun u => (createdAt u, lastLoginAt u, totalLogins u)) <$> userDocs fs !! uid.

(** [totalLogins] of the user's document, [0] while there is none. *)
Definition totalLoginsOf (uid : string) (w : World) : Z :=
  from_option (fun c => c.2) 0 (profile uid w).

(** The calls of createOrUpdateUserProfile for [uid] in a run. *)
Definition logins (uid : string) (ops : list Op) : Z :=
  foldr (fun o n => match o with
                    | Login (Some u) => if decide (Page.uid u = uid) then n + 1 else n
                    | _ => n
                    end) 0 ops.

(** The test of the push loop on a key: [status && problemId]. *)
Definition usable (st : Storage) (key : string) : bool :=
  match truthy (getItem key st), truthy (Some (replace "progress_" "" key)) with
  | Some _, Some _ => true
  | _, _ => false
  end.

(** A local entry that is sent to Firestore: a key progress_<id> with a
    non-empty id and a non-empty value. *)
Definition migrates (st : Storage) (key : string) : bool :=
  startsWith "progress_" key && negb (bool_decide (key = "progress_"))
  && from_option (fun s => negb (bool_decide (s = ""))) false (getItem key st).

(** A device and a store that each hold a record the other lacks:
    lc_2 is solved remotely, lc_1 is in progress on the device. *)
Definition split_ledgers : World :=
  mkWorld
    (Some (mkFirestore
             {[ "u1" := mkUser 0 0 1 (mkStats 1 1 0 2) ]}
             {[ ("u1", "lc_2") :=
                  mkProgress "lc_2" "LeetCode" "solved" 1 2 None (Some 2) 0 1 ]}
             10))
    (mkStorage {[ "progress_lc_1" := "working" ]} false).

(** The counters are exactly what the records say. *)
Definition stats_exact (uid : string) (w : World) : Prop :=
  userCounters uid w = Some (solvedRecords uid w, recordCount uid w, timeSum uid w).

(** The part of handleAuthStateChange's promise chain that touches the
    user's document, the progress records or localStorage:
    createOrUpdateUserProfile, syncLocalStorageToFirestore and
    syncFirestoreToLocalStorage (recordLogin and trackPageView add
    documents to the [logins] and [events] collections only). *)
Definition signInChain (user : FirebaseUser) (w : World) : World :=
  run_ops [Login (Some user); Push (Some (Page.uid user)); Pull (Some (Page.uid user))] w.

(** The local entries with the value 'solved' among those that are
    sent. *)
Definition migrates_solved (st : Storage) (key : string) : bool :=
  migrates st key && bool_decide (getItem key st = Some "solved").

(** The sum of a counter over the categories of a report. *)
Definition sum_categories (f : CategoryStats -> Z) (m : gmap string CategoryStats) : Z :=
  map_fold (fun _ cs acc => f cs + acc) 0 m.

(** An entry of [byCategory]: it stands for at least one record, and
    its three status counters are parts of [accessed]. *)
Definition category_ok (cs : CategoryStats) : Prop :=
  1 <= cs_accessed cs /\
  0 <= cs_solved cs /\ 0 <= cs_working cs /\ 0 <= cs_needHelp cs /\
  cs_solved cs + cs_working cs + cs_needHelp cs <= cs_accessed cs.

End DatabaseOps.

(** ** js/database.js: the time tracker *)

Module Tracking.

Local Open Scope Z_scope.

(** A call [updateTimeSpent(userId, problemId, seconds)] made by the
    tracker, or the payload of a [sendBeacon]. *)
Record Call := mkCall {
  c_userId : string;
  c_problemId : string;
  c_seconds : Z
}.

(** The module variables [activeTimeTracker], [currentProblemId] and
    [sessionStartTime] ([None] is [null]), with what the page holds for
    the tracker.  The interval is kept with the [userId] and [problemId]
    its callback closes over. *)
Record Tracker := mkTracker {
  activeTimeTracker : option (string * string);
  currentProblemId : option string;
  sessionStartTime : option Z;
  awaiting : nat;              (* interval callbacks suspended at [await updateTimeSpent] *)
  visibilityListener : bool;   (* handleVisibilityChange is registered *)
  unloadListener : bool;       (* saveTimeBeforeUnload is registered *)
  calls : list Call;           (* the calls of updateTimeSpent, oldest first *)
  beacons : list Call          (* the payloads given to sendBeacon *)
}.

Definition initial : Tracker := mkTracker None None None 0 false false [] [].

(** [if (sessionStartTime)]: a number is truthy unless it is [0]. *)
Definition truthy_time (t : option Z) : option Z :=
  match t with
  | Some n => if decide (n = 0) then None else Some n
  | None => None
  end.

(** [Math.floor((Date.now() - sessionStartTime) / 1000)]; [null]
    counts as [0] in the subtraction. *)
Definition elapsed (now : Z) (start : option Z) : Z := (now - default 0 start) / 1000.

Definition add_call (c : Call) (tr : Tracker) : Tracker :=
  mkTracker (activeTimeTracker tr) (currentProblemId tr) (sessionStartTime tr) (awaiting tr)
            (visibilityListener tr) (unloadListener tr) (calls tr ++ [c]) (beacons tr).

Definition set_start (t : option Z) (tr : Tracker) : Tracker :=
  mkTracker (activeTimeTracker tr) (currentProblemId tr) t (awaiting tr)
            (visibilityListener tr) (unloadListener tr) (calls tr) (beacons tr).

(** The test shared by the three savers:
    [sessionStartTime && currentProblemId], [elapsed > 0] and a signed-in
    user ([user] is [getCurrentUser()?.uid]).  It gives the call to
    make. *)
Definition remaining (user : option string) (now : Z) (tr : Tracker) : option Call :=
  match truthy_time (sessionStartTime tr), truthy (currentProblemId tr) with
  | Some start, Some pid =>
      if decide (0 < elapsed now (Some start))
      then match truthy user with
           | Some uid => Some (mkCall uid pid (elapsed now (Some start)))
           | None => None
           end
      else None
  | _, _ => None
  end.

(** [stopTimeTracking()] *)
Definition stopTimeTracking (user : option string) (now : Z) (tr : Tracker) : Tracker :=
  let tr1 := match remaining user now tr with
             | Some c => add_call c tr
             | None => tr
             end in
  mkTracker None None None (awaiting tr1) false false (calls tr1) (beacons tr1).

(** [startTimeTracking(userId, problemId)]; [now] is the clock reading
    of the stop, [now'] the one stored in [sessionStartTime]. *)
Definition startTimeTracking (userId problemId : option string) (user : option string)
    (now now' : Z) (tr : Tracker) : Tracker :=
  let tr1 := stopTimeTracking user now tr in
  match truthy userId, truthy problemId with
  | Some uid, Some pid =>
      mkTracker (Some (uid, pid)) (Some pid) (Some now') (awaiting tr1) true true
                (calls tr1) (beacons tr1)
  | _, _ => tr1
  end.

(** The interval callback up to its [await]. *)
Definition tick_begin (now : Z) (tr : Tracker) : Tracker :=
  match activeTimeTracker tr with
  | Some (uid, pid) =>
      if decide (0 < elapsed now (sessionStartTime tr))
      then let tr1 := add_call (mkCall uid pid (elapsed now (sessionStartTime tr))) tr in
           mkTracker (activeTimeTracker tr1) (currentProblemId tr1) (sessionStartTime tr1)
                     (S (awaiting tr1)) (visibilityListener tr1) (unloadListener tr1)
                     (calls tr1) (beacons tr1)
      else tr
  | None => tr
  end.

(** The rest of the interval callback: [sessionStartTime = Date.now()]. *)
Definition tick_resume (now : Z) (tr : Tracker) : Tracker :=
  match awaiting tr with
  | S n =>
      mkTracker (activeTimeTracker tr) (currentProblemId tr) (Some now) n
                (visibilityListener tr) (unloadListener tr) (calls tr) (beacons tr)
  | O => tr
  end.

(** [handleVisibilityChange()], run when the listener is registered. *)
Definition handleVisibilityChange (hidden : bool) (user : option string) (now now' : Z)
    (tr : Tracker) : Tracker :=
  if visibilityListener tr && hidden
  then match remaining user now tr with
       | Some c => set_start (Some now') (add_call c tr)
       | None => tr
       end
  else tr.

(** [saveTimeBeforeUnload()]; [canBeacon] tells whether
    [navigator.sendBeacon] exists. *)
Definition saveTimeBeforeUnload (user : option string) (now : Z) (canBeacon : bool)
    (tr : Tracker) : Tracker :=
  if unloadListener tr && canBeacon
  then match remaining user now tr with
       | Some c =>
           mkTracker (activeTimeTracker tr) (currentProblemId tr) (sessionStartTime tr)
                     (awaiting tr) (visibilityListener tr) (unloadListener tr)
                     (calls tr) (beacons tr ++ [c])
       | None => tr
       end
  else tr.

(** What happens on the page, each with the readings of [Date.now()]
    it makes. *)
Inductive Event :=
| Start (userId problemId user : option string) (now now' : Z)
| Stop (user : option string) (now : Z)
| TickBegin (now : Z)
| TickResume (now : Z)
| Visibility (hidden : bool) (user : option string) (now now' : Z)
| Unload (user : option string) (now : Z) (canBeacon : bool).

Definition step (tr : Tracker) (e : Event) : Tracker :=
  match e with
  | Start userId problemId user now now' => startTimeTracking userId problemId user now now' tr
  | Stop user now => stopTimeTracking user now tr
  | TickBegin now => tick_begin now tr
  | TickResume now => tick_resume now tr
  | Visibility hidden user now now' => handleVisibilityChange hidden user now now' tr
  | Unload user now canBeacon => saveTimeBeforeUnload user now canBeacon tr
  end.

Definition run (evs : list Event) (tr : Tracker) : Tracker := foldl step tr evs.

Definition readings (e : Event) : list Z :=
  match e with
  | Start _ _ _ now now' => [now; now']
  | Stop _ now => [now]
  | TickBegin now => [now]
  | TickResume now => [now]
  | Visibility _ _ now now' => [now; now']
  | Unload _ now _ => [now]
  end.

(** The clock does not run backwards from [t] on. *)
Fixpoint clock_from (t : Z) (ts : list Z) : Prop :=
  match ts with
  | [] => True
  | t' :: rest => t <= t' /\ clock_from t' rest
  end.

(** Every interval callback runs to its end before the next handler:
    nothing comes between a [TickBegin] and its [TickResume]. *)
Fixpoint whole_ticks (evs : list Event) : Prop :=
  match evs with
  | [] => True
  | TickBegin _ :: rest =>
      match rest with
      | TickResume _ :: rest' => whole_ticks rest'
      | _ => False
      end
  | TickResume _ :: _ => False
  | _ :: rest => whole_ticks rest
  end.

Definition total_seconds (cs : list Call) : Z := foldr (fun c n => c_seconds c + n) 0 cs.

(** The state between two handlers, with [t0] the first clock reading
    and [latest] the last one: no interval callback is suspended, a
    running interval has its [sessionStartTime], and the seconds saved so
    far fit in the time up to [sessionStartTime] (up to [latest] when
    nothing is tracked). *)
Definition accounted (t0 latest : Z) (tr : Tracker) : Prop :=
  awaiting tr = 0%nat /\
  (is_Some (activeTimeTracker tr) -> is_Some (sessionStartTime tr)) /\
  match sessionStartTime tr with
  | Some start => start <= latest /\ 1000 * total_seconds (calls tr) <= start - t0
  | None => 1000 * total_seconds (calls tr) <= latest - t0
  end.

(** The ids a call of updateTimeSpent needs, and a positive time. *)
Definition accepted (c : Call) : Prop :=
  c_userId c <> "" /\ c_problemId c <> "" /\ 0 < c_seconds c.

Definition sound (tr : Tracker) : Prop :=
  Forall accepted (calls tr) /\
  forall uid pid, activeTimeTracker tr = Some (uid, pid) -> uid <> "" /\ pid <> "".

End Tracking.

(** ** The text JSON.stringify gives for an object *)

Module JsonText.

(** The members of an object as [stringify] writes them. *)
Fixpoint members (l : list (string * json)) : string :=
  match l with
  | [] => ""
  | (k, v) :: rest =>
      quote k ++ ":" ++ stringify v ++
      match rest with [] => "" | _ => "," ++ members rest end
  end.

(** A value that is not an object. *)
Definition flat (j : json) : bool :=
  match j with JObj _ => false | _ => true end.

End JsonText.

(** ** js/auth-ui.js: protectContent *)

Module Protect.
Import AuthUI.
Local Open Scope js_scope.

(** A click handler: a handler the page had (known by its identity),
    or the function protectContent installs, which closes over
    [options] and the handler it replaced ([None] is [null]). *)
#[warnings="-register-all"]
Inductive Handler :=
| PageHandler (ref : nat)
| ProtectedHandler (options : RequireAuthOptions) (originalOnClick : option Handler).

(** An element protectContent can be given: its [onclick] property and
    its [data-protected] attribute. *)
Record ElementState := mkElement {
  onclick : option Handler;
  data_protected : bool
}.

Inductive Returned :=
| ReturnsFalse
| ReturnsUndefined
| ReturnsOf (ref : nat).      (* whatever that handler of the page returns *)

(** What a click did: the handlers of the page that ran, the flags of
    the event, and the value [onclick] returned. *)
Record Click := mkClick {
  ran : list nat;
  defaultPrevented : bool;
  propagationStopped : bool;
  returned : Returned
}.

Fixpoint run_handler (h : Handler) : M Click :=
  match h with
  | PageHandler r => ret (mkClick [r] false false (ReturnsOf r))
  | ProtectedHandler options originalOnClick =>
      fun pg =>
        match requireAuth options pg with
        | (pg', Normal true) =>
            match originalOnClick with
            | Some original => run_handler original pg'
            | None => ret (mkClick [] false false ReturnsUndefined) pg'
            end
        | (pg', Normal false) => ret (mkClick [] true true ReturnsFalse) pg'
        | (pg', Throw e) => (pg', Throw e)
        end
  end.

(** A click on element [e]. *)
Definition click (e : nat) (els : gmap nat ElementState) : M Click :=
  match els !! e ≫= onclick with
  | Some h => run_handler h
  | None => ret (mkClick [] false false ReturnsUndefined)
  end.

(** The body of the first [elements.forEach]; the elements are nodes of
    the document. *)
Definition protect_element (options : RequireAuthOptions) (els : gmap nat ElementState) (e : nat)
    : gmap nat ElementState :=
  match els !! e with
  | Some el => <[e := mkElement (Some (ProtectedHandler options (onclick el))) true]> els
  | None => els
  end.

Definition protectContent (elements : list nat) (options : RequireAuthOptions)
    (els : gmap nat ElementState) : gmap nat ElementState :=
  foldl (protect_element options) els elements.

(** The function protectContent returns. *)
Definition unprotect (elements : list nat) (els : gmap nat ElementState) : gmap nat ElementState :=
  foldl (fun els e =>
           match els !! e with
           | Some el => <[e := mkElement (onclick el) false]> els
           | None => els
           end) els elements.

(** Two buttons of a page: one with a handler, one without. *)
Definition buttons : gmap nat ElementState :=
  {[ 3%nat := mkElement (Some (PageHandler 30)) false; 4%nat := mkElement None false ]}.

End Protect.

(** ** LeetCodeRenderer: saving progress *)

Module Renderer.
Import Database.

(** [classMap] of updateProgress; [None] is [undefined]. *)
Definition classMap (status : string) : option string :=
  if decide (status = "not-started") then Some "progress-not-started"
  else if decide (status = "working") then Some "progress-working"
  else if decide (status = "need-help") then Some "progress-need-help"
  else if decide (status = "solved") then Some "progress-solved"
  else None.

(** The four classes updateProgress takes off the dropdown. *)
Definition progress_classes : gset string :=
  {[ "progress-not-started"; "progress-working"; "progress-need-help"; "progress-solved" ]}.

(** The page as the renderer sees it: localStorage, the [classList] of
    the dropdown of each problem, and the calls of the
    [syncProgressToFirebase] hook. *)
Record View := mkView {
  storage : Storage;
  dropdowns : gmap string (gset string);
  hookCalls : list (string * string)
}.

(** [key] is [`progress_lc_${problemId}`]. *)
Definition progress_key (problemId : string) : string := "progress_lc_" ++ problemId.

(** [updateProgress(problemId, status)]; [hasHook] tells whether
    [syncProgressToFirebase] is a function.  A [setItem] that throws
    ends the call. *)
Definition updateProgress (hasHook : bool) (problemId status : string) (v : View)
    : Completion View :=
  match setItem (progress_key problemId) status (storage v) with
  | Throw e => Throw e
  | Normal st =>
      let dropdowns' :=
        match dropdowns v !! problemId with
        | Some classList =>
            <[problemId :=
                (classList ∖ progress_classes)
                ∪ {[ "progress-" ++ replace "-" "-" status ]}
                ∪ {[ default "progress-not-started" (classMap status) ]}]> (dropdowns v)
        | None => dropdowns v
        end in
      Normal (mkView st dropdowns'
                (if hasHook then hookCalls v ++ [(problemId, status)] else hookCalls v))
  end.

(** Saving on the page and then signing in: the push of
    handleAuthStateChange's chain on the storage the renderer wrote. *)
Definition save_then_push (problemId status : string) (userId : option string) (w : World)
    : World :=
  match setItem (progress_key problemId) status (localStorage w) with
  | Normal st => (syncLocalStorageToFirestore userId (with_storage st w)).2
  | Throw _ => w
  end.

(** The list page with the dropdown of problem 1 showing a status
    pulled from Firestore. *)
Definition problem_list : View :=
  mkView (mkStorage ∅ false)
         {[ "1" := {[ "progress-dropdown"; "progress-working" ]} ]} [].

End Renderer.

(** ** Facts about the string helpers *)

Module JsFacts.

Lemma truthy_Some x s : truthy x = Some s -> x = Some s /\ s <> "".
Proof.
  destruct x as [s'|]; simpl; [|done].
  destruct (decide (s' = "")); [done|]. intros [= ->]. done.
Qed.

Lemma truthy_of_Some s : s <> "" -> truthy (Some s) = Some s.
Proof. intros H. simpl. destruct (decide (s = "")); done. Qed.

Lemma substring_all s : String.substring 0 (String.length s) s = s.
Proof. induction s as [|c s IH]; simpl; [done|]. by rewrite IH. Qed.

Lemma replace_unfold p r s :
  replace p r s =
  if String.prefix p s
  then r ++ String.substring (String.length p) (String.length s - String.length p) s
  else match s with
       | EmptyString => EmptyString
       | String c s' => String c (replace p r s')
       end.
Proof. destruct s; reflexivity. Qed.

Lemma prefix_app p x : String.prefix p (p ++ x) = true.
Proof.
  induction p as [|c p IH]; simpl; [by destruct x|].
  destruct (ascii_dec c c); [done|congruence].
Qed.

Lemma substring_app p x :
  String.substring (String.length p) (String.length (p ++ x) - String.length p) (p ++ x) = x.
Proof.
  induction p as [|c p IH]; simpl.
  - rewrite Nat.sub_0_r. apply substring_all.
  - exact IH.
Qed.

(** Stripping a prefix that was just put in front gives the rest back. *)
Lemma replace_app p x : replace p "" (p ++ x) = x.
Proof. rewrite replace_unfold, prefix_app. simpl. apply substring_app. Qed.

Lemma prefix_split p s :
  String.prefix p s = true -> exists x, s = p ++ x.
Proof.
  revert s. induction p as [|c p IH]; intros s H.
  - by exists s.
  - destruct s as [|c' s]; simpl in H; [done|].
    destruct (ascii_dec c c') as [->|]; [|done].
    destruct (IH _ H) as [x ->]. by exists x.
Qed.

(** A key that starts with the prefix is the prefix followed by what
    [replace] leaves. *)
Lemma replace_prefix p s :
  startsWith p s = true -> p ++ replace p "" s = s.
Proof.
  intros H. destruct (prefix_split _ _ H) as [x ->]. by rewrite replace_app.
Qed.

Lemma replace_prefix_inj p s1 s2 :
  startsWith p s1 = true -> startsWith p s2 = true ->
  replace p "" s1 = replace p "" s2 -> s1 = s2.
Proof.
  intros H1 H2 Heq. rewrite <- (replace_prefix p s1 H1), <- (replace_prefix p s2 H2).
  by rewrite Heq.
Qed.

End JsFacts.

(** ** Facts about js/database.js *)

Module DatabaseFacts.
Import Database JsFacts.
Local Open Scope Z_scope.

(** updateUserStats touches the user document only. *)
Lemma updateUserStats_frame userId d w fs :
  db w = Some fs ->
  exists fs', db (updateUserStats userId d w).2 = Some fs' /\
              progressDocs fs' = progressDocs fs /\
              serverClock fs <= serverClock fs' /\
              localStorage (updateUserStats userId d w).2 = localStorage w.
Proof.
  intros Hdb. unfold updateUserStats. rewrite Hdb.
  destruct (truthy userId) as [uid|]; simpl; [|exists fs; split_and!; auto; lia].
  unfold user_update. destruct (userDocs fs !! uid); simpl.
  - eexists; split_and!; [reflexivity|done|simpl; lia|done].
  - exists fs; split_and!; auto; lia.
Qed.

Lemma updateUserStats_solved uid d w n :
  uid <> "" ->
  solvedCount uid w = Some n ->
  solvedCount uid (updateUserStats (Some uid) d w).2 = Some (n + d_problemsSolved d).
Proof.
  intros Hu Hn. unfold solvedCount in *. unfold updateUserStats.
  destruct (db w) as [fs|] eqn:Hdb; [|done]. simpl in Hn.
  rewrite (truthy_of_Some _ Hu). unfold user_update.
  destruct (userDocs fs !! uid) as [u|] eqn:Hud; [|done].
  simpl in *. rewrite lookup_insert_eq. simpl. injection Hn as <-.
  destruct (decide (d_problemsSolved d = 0)) as [->|]; f_equal; lia.
Qed.

(** What a call of updateProblemProgress with usable arguments does to
    the store. *)
Lemma updateProblemProgress_spec uid pid st w fs :
  db w = Some fs -> uid <> "" -> pid <> "" ->
  exists fs' d',
    db (updateProblemProgress (Some uid) (Some pid) st w).2 = Some fs' /\
    localStorage (updateProblemProgress (Some uid) (Some pid) st w).2 = localStorage w /\
    progressDocs fs' = <[(uid, pid) := d']> (progressDocs fs) /\
    status d' = st /\
    problemId d' = match progressDocs fs !! (uid, pid) with
                   | Some d => problemId d
                   | None => pid
                   end /\
    (forall d, progressDocs fs !! (uid, pid) = Some d -> status d = st ->
               userDocs fs' = userDocs fs /\ erase_lastUpdated d' = erase_lastUpdated d).
Proof.
  intros Hdb Hu Hp. unfold updateProblemProgress.
  rewrite Hdb, (truthy_of_Some _ Hu), (truthy_of_Some _ Hp).
  unfold progress_get.
  destruct (progressDocs fs !! (uid, pid)) as [data|] eqn:Hd.
  - destruct (bool_decide (st = "solved") && negb (bool_decide (status data = "solved")))
      eqn:Hnew.
    + destruct (updateUserStats_frame (Some uid) (mkDelta 1 0 0) w fs Hdb)
        as (fs1 & Hdb1 & Hpr1 & _ & Hls1).
      rewrite Hdb1. simpl. unfold progress_update. rewrite Hpr1, Hd. simpl.
      eexists _, _. split_and!; [reflexivity|done|done|done|done|].
      intros d [= <-] Hst. exfalso. rewrite Hst in Hnew.
      destruct (bool_decide (st = "solved")); simpl in Hnew; done.
    + rewrite Hdb. simpl. unfold progress_update. rewrite Hd. simpl.
      eexists _, _. split_and!; [reflexivity|done|done|done|done|].
      intros d [= <-] Hst. split; [done|]. subst st. by destruct data.
  - match goal with |- context [updateUserStats ?a ?b ?c] =>
      destruct (updateUserStats_frame a b c _ eq_refl) as (fs1 & Hdb1 & Hpr1 & _ & Hls1) end.
    simpl. eexists _, _. split_and!; [exact Hdb1|exact Hls1|exact Hpr1|done|done|done].
Qed.

Lemma updateProblemProgress_local userId problemId st w :
  localStorage (updateProblemProgress userId problemId st w).2 = localStorage w.
Proof.
  unfold updateProblemProgress.
  destruct (db w) as [fs|] eqn:Hdb; [|done].
  destruct (truthy userId) as [uid|] eqn:Hu; [|done].
  destruct (truthy problemId) as [pid|] eqn:Hp; [|done].
  apply truthy_Some in Hu as [-> Hu]. apply truthy_Some in Hp as [-> Hp].
  destruct (updateProblemProgress_spec uid pid st w fs Hdb Hu Hp) as (? & ? & _ & H & _).
  unfold updateProblemProgress in H.
  by rewrite Hdb, (truthy_of_Some _ Hu), (truthy_of_Some _ Hp) in H.
Qed.

(** C9: with the user document in place, updateProblemProgress adds one
    to stats.problemsSolved when the record enters 'solved' (it existed
    with another status, or is created as 'solved') and leaves the
    counter alone otherwise; re-solving a solved record adds nothing. *)
Theorem updateProblemProgress_counts_entering_solved userId problemId uid pid st w n :
  truthy userId = Some uid ->
  truthy problemId = Some pid ->
  solvedCount uid w = Some n ->
  solvedCount uid (updateProblemProgress userId problemId st w).2 =
    Some (if enters_solved (remoteStatus uid pid w) st then n + 1 else n).
Proof.
  intros Hu Hp Hn.
  apply truthy_Some in Hu as [-> Hu]. apply truthy_Some in Hp as [-> Hp].
  unfold updateProblemProgress.
  rewrite (truthy_of_Some _ Hu), (truthy_of_Some _ Hp).
  unfold remoteStatus, remote, enters_solved.
  pose proof Hn as Hn0. unfold solvedCount in Hn0.
  destruct (db w) as [fs|] eqn:Hdb; [|done]. simpl in Hn0. simpl.
  unfold progress_get.
  destruct (progressDocs fs !! (uid, pid)) as [data|] eqn:Hd; simpl.
  - assert (bool_decide (Some (status data) = Some "solved")
            = bool_decide (status data = "solved")) as ->.
    { apply bool_decide_ext. split; [by intros [= ->]|by intros ->]. }
    destruct (bool_decide (st = "solved") && negb (bool_decide (status data = "solved"))).
    + pose proof (updateUserStats_solved uid (mkDelta 1 0 0) w n Hu Hn) as Hs.
      destruct (updateUserStats_frame (Some uid) (mkDelta 1 0 0) w fs Hdb)
        as (fs1 & Hdb1 & Hpr1 & _ & _).
      rewrite Hdb1. simpl. unfold progress_update. rewrite Hpr1, Hd. simpl.
      unfold solvedCount in *. rewrite Hdb1 in Hs. simpl in *. exact Hs.
    + rewrite Hdb. simpl. unfold progress_update. rewrite Hd. simpl.
      unfold solvedCount. simpl. exact Hn0.
  - match goal with |- context [updateUserStats ?a ?b ?c] =>
      pose proof (updateUserStats_solved uid b c n Hu) as Hs end.
    rewrite Hs.
    + simpl. rewrite andb_true_r.
      destruct (decide (st = "solved")) as [->|Hne].
      * by rewrite bool_decide_eq_true_2.
      * rewrite bool_decide_eq_false_2; [|done]. f_equal. lia.
    + unfold solvedCount. simpl. exact Hn0.
Qed.

(** *** The pull loop *)

Lemma elem_of_getAllProgress uid w fs pid d :
  db w = Some fs -> uid <> "" ->
  (pid, d) ∈ getAllProgress (Some uid) w <-> remote uid pid w = Some d.
Proof.
  intros Hdb Hu. unfold getAllProgress, remote.
  rewrite Hdb, (truthy_of_Some _ Hu). simpl.
  rewrite merge_sort_Permutation. unfold progress_of.
  rewrite list_elem_of_omap. split.
  - intros ([[u p] d0] & Hin & Hf). simpl in Hf.
    destruct (decide (u = uid)) as [->|]; [|done]. injection Hf as -> ->.
    by apply elem_of_map_to_list in Hin.
  - intros Hl. exists ((uid, pid), d). split; [by apply elem_of_map_to_list|].
    simpl. by destruct (decide (uid = uid)).
Qed.

Lemma pull_items_quota l st n :
  quotaExceeded (pull_items l st n).2 = quotaExceeded st.
Proof.
  revert st n. induction l as [|it l IH]; intros st n; simpl; [done|].
  unfold setItem. destruct (quotaExceeded st) eqn:Hq; simpl; [done|].
  rewrite IH. done.
Qed.

(** Pulling into a store that already holds every item, or that
    refuses writes, changes nothing. *)
Lemma pull_items_noop l st n :
  quotaExceeded st = true \/
  (forall it, it ∈ l -> items st !! key_of it = Some (status it.2)) ->
  (pull_items l st n).2 = st.
Proof.
  revert n. induction l as [|it l IH]; intros n H; simpl; [done|].
  unfold setItem. destruct (quotaExceeded st) eqn:Hq; simpl; [done|].
  destruct H as [H|H]; [done|].
  rewrite insert_id; [|apply H; left].
  assert (mkStorage (items st) false = st) as -> by (destruct st; simpl in *; by subst).
  apply IH. right. intros it' Hin. apply H. by right.
Qed.

(** After the pull a key holds what it held before or the status of
    an item that writes it. *)
Lemma pull_items_lookup l st n k :
  quotaExceeded st = false ->
  items (pull_items l st n).2 !! k = items st !! k \/
  exists it, it ∈ l /\ key_of it = k /\
             items (pull_items l st n).2 !! k = Some (status it.2).
Proof.
  revert st n. induction l as [|it l IH]; intros st n Hq; simpl; [by left|].
  unfold setItem. rewrite Hq.
  set (st' := mkStorage _ _).
  destruct (IH st' (S n) eq_refl) as [Hsame|(it' & Hin & Hk & Hv)].
  - rewrite Hsame. subst st'. simpl.
    destruct (decide (key_of it = k)) as [<-|Hne].
    + right. exists it. split_and!; [left|done|].
      by rewrite lookup_insert_eq.
    + left. by rewrite lookup_insert_ne.
  - right. exists it'. split_and!; [by right|done|done].
Qed.

Lemma pull_items_sets l st n it :
  quotaExceeded st = false -> it ∈ l ->
  exists it', it' ∈ l /\ key_of it' = key_of it /\
              items (pull_items l st n).2 !! key_of it = Some (status it'.2).
Proof.
  revert st n. induction l as [|x l IH]; intros st n Hq Hin; [by inversion Hin|].
  simpl. unfold setItem. rewrite Hq. set (st' := mkStorage _ _).
  apply elem_of_cons in Hin as [->|Hin].
  - destruct (pull_items_lookup l st' (S n) (key_of x) eq_refl) as [Hsame|(it' & Hin' & Hk & Hv)].
    + exists x. split_and!; [left|done|]. rewrite Hsame. apply lookup_insert_eq.
    + exists it'. split_and!; [by right|done|done].
  - destruct (IH st' (S n) eq_refl Hin) as (it' & Hin' & Hk & Hv).
    exists it'. split_and!; [by right|done|done].
Qed.

(** *** The push loop *)

Lemma updateProblemProgress_wf uid userId problemId st w :
  wf_remote uid w -> wf_remote uid (updateProblemProgress userId problemId st w).2.
Proof.
  intros Hwf.
  destruct (db w) as [fs|] eqn:Hdb;
    [|unfold updateProblemProgress; by rewrite Hdb].
  destruct (truthy userId) as [u|] eqn:Hu;
    [|unfold updateProblemProgress; by rewrite Hdb, Hu].
  destruct (truthy problemId) as [p|] eqn:Hp;
    [|unfold updateProblemProgress; by rewrite Hdb, Hu, Hp].
  apply truthy_Some in Hu as [-> Hu]. apply truthy_Some in Hp as [-> Hp].
  destruct (updateProblemProgress_spec u p st w fs Hdb Hu Hp)
    as (fs' & d' & Hdb' & _ & Hpr & _ & Hid & _).
  intros pid d. unfold remote. rewrite Hdb'. simpl. rewrite Hpr.
  destruct (decide ((u, p) = (uid, pid))) as [[= -> ->]|Hne].
  - rewrite lookup_insert_eq. intros [= <-]. rewrite Hid.
    destruct (progressDocs fs !! (uid, pid)) as [d0|] eqn:Hd0; [|done].
    apply Hwf. unfold remote. rewrite Hdb. done.
  - rewrite lookup_insert_ne; [|done]. intros Hl. apply Hwf.
    unfold remote. by rewrite Hdb.
Qed.

Lemma push_keys_local uid ks w n :
  localStorage (push_keys uid ks w n).2 = localStorage w.
Proof.
  revert w n. induction ks as [|key ks IH]; intros w n; simpl; [done|].
  destruct (truthy (getItem key (localStorage w))) as [s|]; [|apply IH].
  destruct (decide (replace "progress_" "" key = "")); [apply IH|].
  rewrite IH. apply updateProblemProgress_local.
Qed.

Lemma push_keys_wf uid uid' ks w n :
  wf_remote uid' w -> wf_remote uid' (push_keys uid ks w n).2.
Proof.
  revert w n. induction ks as [|key ks IH]; intros w n Hwf; simpl; [done|].
  destruct (truthy (getItem key (localStorage w))) as [s|]; [|by apply IH].
  destruct (decide (replace "progress_" "" key = "")); [by apply IH|].
  apply IH. by apply updateProblemProgress_wf.
Qed.

(** After the push a record of the user is what it was, or has the
    status of a local key that names it. *)
Lemma push_keys_effect uid ks w n fs pid :
  uid <> "" -> db w = Some fs ->
  remote uid pid (push_keys uid ks w n).2 = remote uid pid w \/
  exists key s,
    key ∈ ks /\ replace "progress_" "" key = pid /\
    getItem key (localStorage w) = Some s /\ s <> "" /\
    remoteStatus uid pid (push_keys uid ks w n).2 = Some s.
Proof.
  intros Hu. revert w n fs. induction ks as [|key ks IH]; intros w n fs Hdb; simpl; [by left|].
  destruct (truthy (getItem key (localStorage w))) as [s|] eqn:Hs.
  2:{ destruct (IH w n fs Hdb) as [H|(k & s' & Hin & H)]; [by left|].
      right. exists k, s'. split; [by right|done]. }
  destruct (decide (replace "progress_" "" key = "")) as [He|Hne].
  { destruct (IH w n fs Hdb) as [H|(k & s' & Hin & H)]; [by left|].
    right. exists k, s'. split; [by right|done]. }
  apply truthy_Some in Hs as [Hs Hsne].
  destruct (updateProblemProgress_spec uid _ s w fs Hdb Hu Hne)
    as (fs1 & d1 & Hdb1 & Hls1 & Hpr1 & Hst1 & _).
  set (w1 := (updateProblemProgress _ _ s w).2) in *.
  destruct (IH w1 (S n) fs1 Hdb1) as [H|(k & s' & Hin & Hk & Hg & H)].
  - rewrite H. destruct (decide (replace "progress_" "" key = pid)) as [Heq|Hneq].
    + right. exists key, s. split_and!; [left|done|done|done|].
      unfold remoteStatus. rewrite H. unfold remote. rewrite Hdb1. simpl.
      rewrite Hpr1, Heq, lookup_insert_eq. simpl. by rewrite Hst1.
    + left. unfold remote. rewrite Hdb1, Hdb. simpl. rewrite Hpr1.
      rewrite lookup_insert_ne; [done|]. intros [= ?]. done.
  - right. exists k, s'. rewrite Hls1 in Hg. split_and!; [by right|done|done|tauto|tauto].
Qed.

(** A usable local key is pushed: its record ends with the status of
    a key of the same problem id. *)
Lemma push_keys_sets uid ks w n fs key s :
  uid <> "" -> db w = Some fs ->
  key ∈ ks -> getItem key (localStorage w) = Some s -> s <> "" ->
  replace "progress_" "" key <> "" ->
  exists key' s',
    key' ∈ ks /\ replace "progress_" "" key' = replace "progress_" "" key /\
    getItem key' (localStorage w) = Some s' /\ s' <> "" /\
    remoteStatus uid (replace "progress_" "" key) (push_keys uid ks w n).2 = Some s'.
Proof.
  intros Hu. revert w n fs.
  induction ks as [|k ks IH]; intros w n fs Hdb Hin Hg Hs Hp; [by inversion Hin|].
  simpl. apply elem_of_cons in Hin as [->|Hin].
  - rewrite Hg, (truthy_of_Some _ Hs).
    destruct (decide (replace "progress_" "" k = "")); [done|].
    destruct (updateProblemProgress_spec uid _ s w fs Hdb Hu Hp)
      as (fs1 & d1 & Hdb1 & Hls1 & Hpr1 & Hst1 & _).
    set (w1 := (updateProblemProgress _ _ s w).2) in *.
    destruct (push_keys_effect uid ks w1 (S n) fs1 (replace "progress_" "" k) Hu Hdb1)
      as [H|(k' & s' & Hin' & Hk' & Hg' & Hs' & H)].
    + exists k, s. split_and!; [left|done|done|done|].
      unfold remoteStatus. rewrite H. unfold remote. rewrite Hdb1. simpl.
      rewrite Hpr1, lookup_insert_eq. simpl. by rewrite Hst1.
    + exists k', s'. rewrite Hls1 in Hg'. split_and!; [by right|done|done|done|done].
  - destruct (truthy (getItem k (localStorage w))) as [s0|] eqn:Hs0.
    2:{ destruct (IH w n fs Hdb Hin Hg Hs Hp) as (k' & s' & Hin' & H).
        exists k', s'. split; [by right|done]. }
    destruct (decide (replace "progress_" "" k = "")) as [He|Hne].
    { destruct (IH w n fs Hdb Hin Hg Hs Hp) as (k' & s' & Hin' & H).
      exists k', s'. split; [by right|done]. }
    destruct (updateProblemProgress_spec uid _ s0 w fs Hdb Hu Hne)
      as (fs1 & d1 & Hdb1 & Hls1 & _).
    set (w1 := (updateProblemProgress _ _ s0 w).2) in *.
    rewrite <- Hls1 in Hg.
    destruct (IH w1 (S n) fs1 Hdb1 Hin Hg Hs Hp) as (k' & s' & Hin' & Hk' & Hg' & H).
    exists k', s'. rewrite Hls1 in Hg'. split_and!; [by right|done|done|tauto|tauto].
Qed.

Lemma same_ledger_refl fs : same_ledger fs fs.
Proof. by split. Qed.

(** Pushing statuses the remote records already have only refreshes
    lastUpdatedAt. *)
Lemma push_keys_same_ledger uid ks w n fs fs0 :
  uid <> "" -> db w = Some fs -> same_ledger fs0 fs ->
  (forall key s, key ∈ ks -> getItem key (localStorage w) = Some s -> s <> "" ->
                 replace "progress_" "" key <> "" ->
                 exists d0, progressDocs fs0 !! (uid, replace "progress_" "" key) = Some d0 /\
                            status d0 = s) ->
  exists fs', db (push_keys uid ks w n).2 = Some fs' /\ same_ledger fs0 fs'.
Proof.
  intros Hu. revert w n fs.
  induction ks as [|key ks IH]; intros w n fs Hdb Hsame Hks; simpl; [by exists fs|].
  assert (forall k s, k ∈ ks -> getItem k (localStorage w) = Some s -> s <> "" ->
            replace "progress_" "" k <> "" ->
            exists d0, progressDocs fs0 !! (uid, replace "progress_" "" k) = Some d0 /\
                       status d0 = s) as Hks'.
  { intros k s Hin. apply Hks. by right. }
  destruct (truthy (getItem key (localStorage w))) as [s|] eqn:Hs; [|by eapply IH].
  destruct (decide (replace "progress_" "" key = "")) as [He|Hne]; [by eapply IH|].
  apply truthy_Some in Hs as [Hs Hsne].
  destruct (Hks key s) as (d0 & Hd0 & Hst0); [left|done|done|done|].
  destruct Hsame as [Husers Hdocs].
  assert (exists d, progressDocs fs !! (uid, replace "progress_" "" key) = Some d /\
                    erase_lastUpdated d = erase_lastUpdated d0) as (d & Hd & Hed).
  { apply (f_equal (fun m => m !! (uid, replace "progress_" "" key))) in Hdocs.
    rewrite !lookup_fmap, Hd0 in Hdocs. simpl in Hdocs.
    destruct (progressDocs fs !! _) as [d|]; [|done].
    exists d. split; [done|]. by apply (inj Some) in Hdocs. }
  assert (status d = s) as Hst.
  { rewrite <- Hst0. by apply (f_equal status) in Hed. }
  destruct (updateProblemProgress_spec uid _ s w fs Hdb Hu Hne)
    as (fs1 & d1 & Hdb1 & Hls1 & Hpr1 & _ & _ & Hkeep).
  destruct (Hkeep d Hd Hst) as [Husers1 Hed1].
  set (w1 := (updateProblemProgress _ _ s w).2) in *.
  apply (IH w1 (S n) fs1 Hdb1).
  - split; [congruence|]. rewrite Hpr1, fmap_insert, Hed1, <- Hdocs.
    apply insert_id. by rewrite lookup_fmap, Hd.
  - intros k s' Hin. rewrite Hls1. by apply Hks'.
Qed.

(** *** The two steps together *)

Lemma elem_of_keys k st : k ∈ keys st <-> is_Some (getItem k st).
Proof.
  unfold keys, getItem. rewrite list_elem_of_fmap. split.
  - intros ([k' v] & -> & Hin). apply elem_of_map_to_list in Hin. by exists v.
  - intros [v Hv]. exists (k, v). split; [done|]. by apply elem_of_map_to_list.
Qed.

Lemma elem_of_progressKeys k w :
  k ∈ progressKeys w <->
  startsWith "progress_" k = true /\ is_Some (getItem k (localStorage w)).
Proof. unfold progressKeys. rewrite list_elem_of_filter, elem_of_keys. done. Qed.

Lemma syncLocalStorageToFirestore_eq uid w fs :
  db w = Some fs -> uid <> "" ->
  (syncLocalStorageToFirestore (Some uid) w).2 = (push_keys uid (progressKeys w) w 0).2.
Proof.
  intros Hdb Hu. unfold syncLocalStorageToFirestore.
  by rewrite Hdb, (truthy_of_Some _ Hu).
Qed.

Lemma syncFirestoreToLocalStorage_eq uid w fs :
  db w = Some fs -> uid <> "" ->
  (syncFirestoreToLocalStorage (Some uid) w).2 =
  with_storage (pull_items (getAllProgress (Some uid) w) (localStorage w) 0).2 w.
Proof.
  intros Hdb Hu. unfold syncFirestoreToLocalStorage.
  by rewrite Hdb, (truthy_of_Some _ Hu).
Qed.

Lemma updateProblemProgress_db userId problemId st w fs :
  db w = Some fs -> exists fs', db (updateProblemProgress userId problemId st w).2 = Some fs'.
Proof.
  intros Hdb.
  destruct (truthy userId) as [u|] eqn:Hu;
    [|exists fs; unfold updateProblemProgress; by rewrite Hdb, Hu].
  destruct (truthy problemId) as [p|] eqn:Hp;
    [|exists fs; unfold updateProblemProgress; by rewrite Hdb, Hu, Hp].
  apply truthy_Some in Hu as [-> Hu]. apply truthy_Some in Hp as [-> Hp].
  destruct (updateProblemProgress_spec u p st w fs Hdb Hu Hp) as (fs' & _ & H & _).
  by exists fs'.
Qed.

Lemma push_keys_db uid ks w n fs :
  db w = Some fs -> exists fs', db (push_keys uid ks w n).2 = Some fs'.
Proof.
  revert w n fs. induction ks as [|key ks IH]; intros w n fs Hdb; simpl; [by exists fs|].
  destruct (truthy (getItem key (localStorage w))) as [s|]; [|by eapply IH].
  destruct (decide (replace "progress_" "" key = "")); [by eapply IH|].
  destruct (updateProblemProgress_db (Some uid) (Some (replace "progress_" "" key)) s w fs Hdb)
    as [fs1 Hdb1].
  by eapply IH.
Qed.

Lemma reconcile_eq uid w fs :
  db w = Some fs -> uid <> "" ->
  reconcile (Some uid) w =
  with_storage
    (pull_items (getAllProgress (Some uid) (push_keys uid (progressKeys w) w 0).2)
                (localStorage w) 0).2
    (push_keys uid (progressKeys w) w 0).2.
Proof.
  intros Hdb Hu. unfold reconcile.
  rewrite (syncLocalStorageToFirestore_eq uid w fs Hdb Hu).
  destruct (push_keys_db uid (progressKeys w) w 0 fs Hdb) as [fs' Hdb'].
  rewrite (syncFirestoreToLocalStorage_eq uid _ fs' Hdb' Hu).
  by rewrite push_keys_local.
Qed.

(** After the push every usable local entry is the remote status. *)
Lemma push_pushed uid w fs :
  db w = Some fs -> uid <> "" -> pushed uid (push_keys uid (progressKeys w) w 0).2.
Proof.
  intros Hdb Hu key s. rewrite push_keys_local. intros Hg Hpre Hs Hp.
  destruct (push_keys_sets uid (progressKeys w) w 0 fs key s Hu Hdb)
    as (key' & s' & Hin' & Hk' & Hg' & _ & Hr); [|done|done|done|].
  { apply elem_of_progressKeys. split; [done|by exists s]. }
  apply elem_of_progressKeys in Hin' as [Hpre' _].
  apply (replace_prefix_inj _ _ _ Hpre' Hpre) in Hk'. subst key'.
  rewrite Hr. congruence.
Qed.

Lemma key_of_inj p1 d1 p2 d2 :
  problemId d1 = p1 -> problemId d2 = p2 ->
  key_of (p1, d1) = key_of (p2, d2) -> p1 = p2.
Proof. unfold key_of. simpl. intros -> ->. by intros [= ?]. Qed.

(** The hypothesis on the remote documents is kept by reconciliation. *)
Lemma reconcile_wf uid uid' w fs :
  db w = Some fs -> uid <> "" -> wf_remote uid' w -> wf_remote uid' (reconcile (Some uid) w).
Proof.
  intros Hdb Hu Hwf. rewrite (reconcile_eq uid w fs Hdb Hu).
  intros pid d. unfold remote. simpl. apply (push_keys_wf uid uid' _ w 0 Hwf).
Qed.

Lemma reconcile_in_sync uid w fs :
  db w = Some fs -> uid <> "" -> wf_remote uid w ->
  in_sync uid (reconcile (Some uid) w).
Proof.
  intros Hdb Hu Hwf. rewrite (reconcile_eq uid w fs Hdb Hu).
  set (wp := (push_keys uid (progressKeys w) w 0).2).
  pose proof (push_pushed uid w fs Hdb Hu) as Hpushed. fold wp in Hpushed.
  pose proof (push_keys_wf uid uid (progressKeys w) w 0 Hwf) as Hwfp. fold wp in Hwfp.
  destruct (push_keys_db uid (progressKeys w) w 0 fs Hdb) as [fsp Hdbp]. fold wp in Hdbp.
  assert (localStorage wp = localStorage w) as Hlsp by apply push_keys_local.
  destruct (quotaExceeded (localStorage w)) eqn:Hq.
  - rewrite pull_items_noop; [|by left]. split.
    + intros key s. unfold remoteStatus, remote. simpl. rewrite <- Hlsp. apply Hpushed.
    + left. done.
  - split.
    + intros key s. unfold remoteStatus, remote, getItem. simpl. intros Hg Hpre Hs Hp.
      destruct (pull_items_lookup (getAllProgress (Some uid) wp) (localStorage w) 0 key Hq)
        as [Hsame|([p d] & Hin & Hk & Hv)].
      * apply Hpushed; [|done|done|done]. unfold getItem. rewrite Hlsp. congruence.
      * apply (elem_of_getAllProgress uid wp fsp p d Hdbp Hu) in Hin.
        pose proof (Hwfp p d Hin) as Hid. unfold key_of in Hk. simpl in Hk.
        rewrite Hid in Hk. subst key. rewrite replace_app.
        unfold remote in Hin. rewrite Hin. simpl in *. congruence.
    + right. intros pid d. unfold remote. simpl. intros Hr.
      assert ((pid, d) ∈ getAllProgress (Some uid) wp) as Hin
        by by apply (elem_of_getAllProgress uid wp fsp).
      destruct (pull_items_sets _ (localStorage w) 0 _ Hq Hin) as ([p' d'] & Hin' & Hk & Hv).
      apply (elem_of_getAllProgress uid wp fsp p' d' Hdbp Hu) in Hin'.
      assert (p' = pid) as ->.
      { eapply key_of_inj; [by apply Hwfp|by apply Hwfp|done]. }
      rewrite Hv. unfold remote in Hin'. simpl in *. congruence.
Qed.

Lemma reconcile_of_in_sync uid w fs :
  db w = Some fs -> uid <> "" -> in_sync uid w ->
  ledgers_agree w (reconcile (Some uid) w).
Proof.
  intros Hdb Hu [Hpushed Hmirror]. rewrite (reconcile_eq uid w fs Hdb Hu).
  set (wp := (push_keys uid (progressKeys w) w 0).2).
  destruct (push_keys_same_ledger uid (progressKeys w) w 0 fs fs Hu Hdb (same_ledger_refl fs))
    as (fsp & Hdbp & Hsame).
  { intros key s Hin Hg Hs Hp. apply elem_of_progressKeys in Hin as [Hpre _].
    pose proof (Hpushed key s Hg Hpre Hs Hp) as Hr.
    unfold remoteStatus, remote in Hr. rewrite Hdb in Hr. simpl in Hr.
    destruct (progressDocs fs !! _) as [d0|]; [|done]. exists d0. split; [done|].
    by injection Hr. }
  fold wp in Hdbp.
  rewrite pull_items_noop.
  - split; [done|]. simpl. by rewrite Hdb, Hdbp.
  - destruct Hmirror as [Hq|Hm]; [by left|right].
    intros [p d] Hin. apply (elem_of_getAllProgress uid wp fsp p d Hdbp Hu) in Hin.
    unfold remote in Hin. rewrite Hdbp in Hin. simpl in Hin.
    destruct Hsame as [_ Hdocs].
    apply (f_equal (fun m => m !! (uid, p))) in Hdocs.
    rewrite !lookup_fmap, Hin in Hdocs. simpl in Hdocs.
    destruct (progressDocs fs !! (uid, p)) as [d0|] eqn:Hd0; [|done].
    apply (inj Some) in Hdocs.
    specialize (Hm p d0). unfold remote in Hm. rewrite Hdb in Hm. specialize (Hm Hd0).
    unfold key_of in *. simpl in *.
    rewrite (f_equal problemId Hdocs : problemId d = problemId d0).
    rewrite (f_equal status Hdocs : status d = status d0). exact Hm.
Qed.

Lemma ledgers_agree_refl w : ledgers_agree w w.
Proof. split; [done|]. destruct (db w); [apply same_ledger_refl|done]. Qed.

Lemma reconcile_guard userId w :
  db w = None \/ truthy userId = None -> reconcile userId w = w.
Proof.
  intros H. unfold reconcile, syncLocalStorageToFirestore.
  destruct (db w) as [fs|] eqn:Hdb.
  - destruct H as [H|H]; [done|]. rewrite H. unfold syncFirestoreToLocalStorage.
    cbn [snd]. by rewrite Hdb, H.
  - unfold syncFirestoreToLocalStorage. cbn [snd]. by rewrite Hdb.
Qed.

Lemma reconcile_db uid w fs :
  db w = Some fs -> uid <> "" -> exists fs', db (reconcile (Some uid) w) = Some fs'.
Proof.
  intros Hdb Hu. rewrite (reconcile_eq uid w fs Hdb Hu). simpl.
  apply (push_keys_db uid _ w 0 fs Hdb).
Qed.

(** *** What the push stamps *)

(** A call with usable arguments writes one progress document, stamped
    with a commit time of the call. *)
Lemma updateProblemProgress_stamp uid pid st w fs :
  db w = Some fs -> uid <> "" -> pid <> "" ->
  exists fs' d',
    db (updateProblemProgress (Some uid) (Some pid) st w).2 = Some fs' /\
    progressDocs fs' = <[(uid, pid) := d']> (progressDocs fs) /\
    serverClock fs <= lastUpdatedAt d' < serverClock fs'.
Proof.
  intros Hdb Hu Hp. unfold updateProblemProgress.
  rewrite Hdb, (truthy_of_Some _ Hu), (truthy_of_Some _ Hp).
  unfold progress_get.
  destruct (progressDocs fs !! (uid, pid)) as [data|] eqn:Hd.
  - destruct (bool_decide (st = "solved") && negb (bool_decide (status data = "solved"))).
    + destruct (updateUserStats_frame (Some uid) (mkDelta 1 0 0) w fs Hdb)
        as (fs1 & Hdb1 & Hpr1 & Hclock & _).
      rewrite Hdb1. simpl. unfold progress_update. rewrite Hpr1, Hd. simpl.
      eexists _, _. split_and!; [reflexivity|done|simpl; lia|simpl; lia].
    + rewrite Hdb. simpl. unfold progress_update. rewrite Hd. simpl.
      eexists _, _. split_and!; [reflexivity|done|simpl; lia|simpl; lia].
  - match goal with |- context [updateUserStats ?a ?b ?c] =>
      destruct (updateUserStats_frame a b c _ eq_refl) as (fs1 & Hdb1 & Hpr1 & Hclock & _) end.
    simpl in *. eexists _, _.
    split_and!; [exact Hdb1|exact Hpr1|simpl; lia|simpl; lia].
Qed.

(** After the push loop every record is what it was, with no usable key
    naming it, or it is a record of the user that a usable key names and
    it carries a commit time of the loop. *)
Lemma push_keys_stamp uid ks w n fs :
  uid <> "" -> db w = Some fs ->
  exists fs',
    db (push_keys uid ks w n).2 = Some fs' /\
    serverClock fs <= serverClock fs' /\
    forall u p,
      (remote u p (push_keys uid ks w n).2 = remote u p w /\
       (u = uid -> forall key s, key ∈ ks -> getItem key (localStorage w) = Some s ->
                   s <> "" -> replace "progress_" "" key = p -> p = "")) \/
      (u = uid /\ p <> "" /\
       (exists key s, key ∈ ks /\ replace "progress_" "" key = p /\
                      getItem key (localStorage w) = Some s /\ s <> "") /\
       exists d', remote uid p (push_keys uid ks w n).2 = Some d' /\
                  serverClock fs <= lastUpdatedAt d' < serverClock fs').
Proof.
  intros Hu. revert w n fs. induction ks as [|key ks IH]; intros w n fs Hdb; simpl.
  { exists fs. split_and!; [done|lia|]. intros u p. left. split; [done|].
    intros _ key s Hin. by apply elem_of_nil in Hin. }
  destruct (truthy (getItem key (localStorage w))) as [s|] eqn:Hs.
  2:{ destruct (IH w n fs Hdb) as (fs' & Hdb' & Hclock & Hall).
      exists fs'. split_and!; [done|done|]. intros u p.
      destruct (Hall u p) as [[Hsame Hno]|(-> & Hp & (k & s' & Hin & Hk) & Hd)].
      - left. split; [done|]. intros -> k s' Hin Hg Hs' Hk.
        apply elem_of_cons in Hin as [->|Hin]; [|by eapply Hno].
        rewrite Hg in Hs. simpl in Hs. by destruct (decide (s' = "")).
      - right. split_and!; [done|done|exists k, s'; split; [by right|done]|done]. }
  destruct (decide (replace "progress_" "" key = "")) as [He|Hne].
  { destruct (IH w n fs Hdb) as (fs' & Hdb' & Hclock & Hall).
    exists fs'. split_and!; [done|done|]. intros u p.
    destruct (Hall u p) as [[Hsame Hno]|(-> & Hp & (k & s' & Hin & Hk) & Hd)].
    - left. split; [done|]. intros -> k s' Hin Hg Hs' Hk.
      apply elem_of_cons in Hin as [->|Hin]; [congruence|by eapply Hno].
    - right. split_and!; [done|done|exists k, s'; split; [by right|done]|done]. }
  apply truthy_Some in Hs as [Hs Hsne].
  destruct (updateProblemProgress_stamp uid _ s w fs Hdb Hu Hne)
    as (fs1 & d1 & Hdb1 & Hpr1 & Hstamp).
  pose proof (updateProblemProgress_local (Some uid) (Some (replace "progress_" "" key)) s w)
    as Hls1.
  set (w1 := (updateProblemProgress _ _ s w).2) in *.
  destruct (IH w1 (S n) fs1 Hdb1) as (fs' & Hdb' & Hclock & Hall).
  exists fs'. split_and!; [done|lia|]. intros u p.
  destruct (Hall u p) as [[Hsame Hno]|(-> & Hp & (k & s' & Hin & Hk & Hg & Hs') & d' & Hd & Ht)].
  - destruct (decide ((uid, replace "progress_" "" key) = (u, p))) as [[= <- <-]|Hneq].
    + right. split_and!; [done|done|exists key, s; split_and!; [left|done|done|done]|].
      exists d1. split; [|lia]. rewrite Hsame. unfold remote. rewrite Hdb1. simpl.
      by rewrite Hpr1, lookup_insert_eq.
    + left. split.
      * rewrite Hsame. unfold remote. rewrite Hdb1, Hdb. simpl.
        by rewrite Hpr1, lookup_insert_ne.
      * intros -> k s' Hin Hg Hs' Hk.
        apply elem_of_cons in Hin as [->|Hin]; [congruence|].
        eapply Hno; [done|done| |done|done]. by rewrite Hls1.
  - right. rewrite Hls1 in Hg.
    split_and!; [done|done|exists k, s'; split_and!; [by right|done|done|done]|].
    exists d'. split; [done|lia].
Qed.

(** C4, as the code has it: a second reconciliation right after the
    first leaves localStorage as it is, and leaves every user document
    and every progress document of the store as it is except for
    lastUpdatedAt; a record of the user whose id has a non-empty local
    status carries a commit time of the second push as its
    lastUpdatedAt, and a record the second run changed is such a
    record. *)
Theorem reconcile_twice_agrees userId w :
  (forall uid, truthy userId = Some uid -> wf_remote uid w) ->
  let w1 := reconcile userId w in
  let w2 := reconcile userId w1 in
  ledgers_agree w1 w2 /\
  (forall uid pid s fs1,
     truthy userId = Some uid -> db w1 = Some fs1 ->
     localStatus pid w1 = Some s -> s <> "" -> pid <> "" ->
     exists fs2 d2,
       db w2 = Some fs2 /\ remote uid pid w2 = Some d2 /\
       serverClock fs1 <= lastUpdatedAt d2 < serverClock fs2) /\
  (forall uid pid,
     remote uid pid w2 <> remote uid pid w1 ->
     truthy userId = Some uid /\
     exists s, localStatus pid w1 = Some s /\ s <> "" /\ pid <> "").
Proof.
  intros Hwf w1 w2.
  destruct (db w) as [fs|] eqn:Hdb.
  2:{ subst w2 w1. rewrite !(reconcile_guard userId w); [|by left..].
      split_and!; [apply ledgers_agree_refl| |done].
      intros uid pid s fs1 _ Hdb1. congruence. }
  destruct (truthy userId) as [uid|] eqn:Hu.
  2:{ subst w2 w1. rewrite !(reconcile_guard userId w); [|by right..].
      split_and!; [apply ledgers_agree_refl|done|done]. }
  specialize (Hwf uid eq_refl). apply truthy_Some in Hu as [-> Hu].
  destruct (reconcile_db uid w fs Hdb Hu) as [fs1 Hdb1]. fold w1 in Hdb1.
  split.
  { apply (reconcile_of_in_sync uid _ fs1 Hdb1 Hu).
    by apply (reconcile_in_sync uid w fs). }
  destruct (push_keys_stamp uid (progressKeys w1) w1 0 fs1 Hu Hdb1)
    as (fs2 & Hdb2 & Hclock & Hall).
  assert (forall u p, remote u p w2 = remote u p (push_keys uid (progressKeys w1) w1 0).2)
    as Hremote.
  { intros u p. subst w2. by rewrite (reconcile_eq uid w1 fs1 Hdb1 Hu). }
  assert (db w2 = Some fs2) as Hdb2'.
  { subst w2. by rewrite (reconcile_eq uid w1 fs1 Hdb1 Hu). }
  split.
  - intros uid' pid s fs1' Huid Hdb1' Hl Hs Hp.
    injection Huid as <-. rewrite Hdb1 in Hdb1'. injection Hdb1' as <-.
    exists fs2. rewrite Hremote.
    destruct (Hall uid pid) as [[_ Hno]|(_ & _ & _ & d' & Hd & Ht)].
    + exfalso. apply Hp. apply (Hno eq_refl ("progress_" ++ pid) s); [|done|done|].
      * apply elem_of_progressKeys. split; [apply prefix_app|by exists s].
      * apply replace_app.
    + exists d'. done.
  - intros u p Hchanged. rewrite Hremote in Hchanged.
    destruct (Hall u p) as [[Hsame _]|(-> & Hp & (k & s & Hin & Hk & Hg & Hs) & _)]; [done|].
    split; [done|].
    exists s. split_and!; [|done|done].
    apply elem_of_progressKeys in Hin as [Hpre _].
    unfold localStatus. rewrite <- Hk, (replace_prefix _ _ Hpre). done.
Qed.

(** The second run does change the remote ledger: the record written
    at time 10 by the first run carries time 12 after the second. *)
Lemma reconcile_twice_bumps_lastUpdatedAt :
  let w1 := reconcile (Some "u1") first_login in
  let w2 := reconcile (Some "u1") w1 in
  lastUpdatedAt <$> remote "u1" "lc_1" w1 = Some 10 /\
  lastUpdatedAt <$> remote "u1" "lc_1" w2 = Some 12 /\
  remote "u1" "lc_1" w2 <> remote "u1" "lc_1" w1.
Proof. vm_compute. split_and!; [done|done|]. intros [=]. Qed.

(** C1, as the code has it: the push writes the local status over the
    remote one whatever the remote status was, and the pull then copies
    it back, so both sides end with the local status. *)
Theorem reconcile_local_status_overwrites userId uid pid s r w :
  truthy userId = Some uid ->
  wf_remote uid w ->
  pid <> "" -> s <> "" ->
  localStatus pid w = Some s ->
  remoteStatus uid pid w = Some r ->
  remoteStatus uid pid (syncLocalStorageToFirestore userId w).2 = Some s /\
  remoteStatus uid pid (reconcile userId w) = Some s /\
  localStatus pid (reconcile userId w) = Some s.
Proof.
  intros Hu Hwf Hp Hs Hl Hr. apply truthy_Some in Hu as [-> Hu].
  destruct (db w) as [fs|] eqn:Hdb; [|by unfold remoteStatus, remote in Hr; rewrite Hdb in Hr].
  pose proof (push_pushed uid w fs Hdb Hu) as Hpushed.
  set (wp := (push_keys uid (progressKeys w) w 0).2) in *.
  assert (remoteStatus uid pid wp = Some s) as Hrp.
  { specialize (Hpushed ("progress_" ++ pid) s). rewrite replace_app in Hpushed.
    apply Hpushed; [|apply prefix_app|done|done].
    subst wp. by rewrite push_keys_local. }
  rewrite (syncLocalStorageToFirestore_eq uid w fs Hdb Hu). fold wp.
  split; [done|].
  pose proof (reconcile_in_sync uid w fs Hdb Hu Hwf) as [_ Hmirror].
  pose proof (push_keys_wf uid uid (progressKeys w) w 0 Hwf) as Hwfp. fold wp in Hwfp.
  rewrite (reconcile_eq uid w fs Hdb Hu) in *. fold wp in Hmirror |- *.
  split; [exact Hrp|].
  unfold localStatus, getItem. simpl.
  destruct (quotaExceeded (localStorage w)) eqn:Hq.
  - rewrite pull_items_noop; [|by left]. exact Hl.
  - destruct Hmirror as [Hq'|Hm].
    { simpl in Hq'. rewrite pull_items_quota in Hq'. congruence. }
    unfold remoteStatus in Hrp.
    destruct (remote uid pid wp) as [d|] eqn:Hd; [|done].
    specialize (Hm pid d). unfold remote in Hm. simpl in Hm.
    unfold remote in Hd. specialize (Hm Hd).
    unfold key_of in Hm. simpl in Hm.
    rewrite (Hwfp pid d) in Hm; [|done]. rewrite Hm. exact Hrp.
Qed.

(** A remote 'solved' is downgraded: the ranking asks for 'solved',
    the code leaves 'working' on both sides. *)
Lemma reconcile_downgrades_solved :
  localStatus "lc_1" stale_device = Some "working" /\
  remoteStatus "u1" "lc_1" stale_device = Some "solved" /\
  spec_merge "working" "solved" = "solved" /\
  remoteStatus "u1" "lc_1" (reconcile (Some "u1") stale_device) = Some "working" /\
  localStatus "lc_1" (reconcile (Some "u1") stale_device) = Some "working".
Proof. vm_compute. done. Qed.

(** One call never lowers any record's timeSpent. *)
Lemma updateTimeSpent_mono userId problemId seconds w uid pid t :
  timeSpentOf uid pid w = Some t ->
  exists t',
    timeSpentOf uid pid (updateTimeSpent userId problemId seconds w).2 = Some t' /\ t <= t'.
Proof.
  intros Ht. unfold updateTimeSpent.
  destruct (db w) as [fs|] eqn:Hdb; [|exists t; split; [done|lia]].
  destruct (truthy userId) as [u|]; [|exists t; split; [done|lia]].
  destruct (truthy problemId) as [p|]; [|exists t; split; [done|lia]].
  destruct (decide (seconds <= 0)); [exists t; split; [done|lia]|].
  unfold progress_update.
  destruct (progressDocs fs !! (u, p)) as [d|] eqn:Hd; [|exists t; split; [done|lia]].
  simpl.
  match goal with |- context [updateUserStats ?a ?b ?c] =>
    destruct (updateUserStats_frame a b c _ eq_refl) as (fs' & Hdb' & Hp & _ & _) end.
  unfold timeSpentOf, remote in *. rewrite Hdb'. rewrite Hdb in Ht. simpl in *.
  rewrite Hp. simpl.
  destruct (decide ((u, p) = (uid, pid))) as [[= -> ->]|Hne].
  - rewrite lookup_insert_eq. simpl. rewrite Hd in Ht. simpl in Ht.
    injection Ht as <-. eexists; split; [reflexivity|lia].
  - rewrite lookup_insert_ne; [|done]. exists t; split; [done|lia].
Qed.

(** C10: updateTimeSpent writes nothing and returns false when an
    argument is missing or seconds <= 0; a call that changes the state
    adds [seconds > 0] to the record's timeSpent; over any sequence of
    calls no record's timeSpent decreases. *)
Theorem updateTimeSpent_guard_and_monotone :
  (forall userId problemId seconds w,
      seconds <= 0 \/ db w = None \/ truthy userId = None \/ truthy problemId = None ->
      updateTimeSpent userId problemId seconds w = (false, w)) /\
  (forall userId problemId seconds w,
      (updateTimeSpent userId problemId seconds w).2 <> w ->
      exists uid pid t,
        userId = Some uid /\ problemId = Some pid /\
        timeSpentOf uid pid w = Some t /\
        timeSpentOf uid pid (updateTimeSpent userId problemId seconds w).2 = Some (t + seconds) /\
        t < t + seconds) /\
  (forall calls w uid pid t,
      timeSpentOf uid pid w = Some t ->
      exists t', timeSpentOf uid pid (updateTimeSpent_all calls w) = Some t' /\ t <= t').
Proof.
  split_and!.
  - intros userId problemId seconds w H. unfold updateTimeSpent.
    destruct (db w) as [fs|]; [|done].
    destruct (truthy userId) as [u|]; [|done].
    destruct (truthy problemId) as [p|]; [|done].
    destruct (decide (seconds <= 0)); [done|].
    destruct H as [H|[H|[H|H]]]; done.
  - intros userId problemId seconds w. unfold updateTimeSpent.
    destruct (db w) as [fs|] eqn:Hdb; [|done].
    destruct (truthy userId) as [u|] eqn:Hu; [|done].
    destruct (truthy problemId) as [p|] eqn:Hp; [|done].
    destruct (decide (seconds <= 0)); [done|].
    unfold progress_update.
    destruct (progressDocs fs !! (u, p)) as [d|] eqn:Hd; [|done].
    intros _. simpl.
    apply truthy_Some in Hu as [-> _]. apply truthy_Some in Hp as [-> _].
    exists u, p, (timeSpent d). split_and!; [done|done| | |lia].
    + unfold timeSpentOf, remote. rewrite Hdb. simpl. by rewrite Hd.
    + match goal with |- context [updateUserStats ?a ?b ?c] =>
        destruct (updateUserStats_frame a b c _ eq_refl) as (fs' & Hdb' & Hpr & _ & _) end.
      unfold timeSpentOf, remote. rewrite Hdb'. simpl. rewrite Hpr. simpl.
      by rewrite lookup_insert_eq.
  - intros calls. induction calls as [|c calls IH]; intros w uid pid t Ht.
    + exists t. split; [done|lia].
    + simpl. destruct (updateTimeSpent_mono c.1.1 c.1.2 c.2 w uid pid t Ht) as (t1 & Ht1 & Hle).
      destruct (IH _ uid pid t1 Ht1) as (t2 & Ht2 & Hle2).
      exists t2. split; [done|lia].
Qed.

(** *** The theorems at sample states *)

(** First sign-in with lc_1 solved locally and an empty remote ledger:
    the record is created as 'solved', counted once, and the local
    entry stays. *)
Example first_login_reconciled :
  remoteStatus "u1" "lc_1" (reconcile (Some "u1") first_login) = Some "solved" /\
  localStatus "lc_1" (reconcile (Some "u1") first_login) = Some "solved" /\
  solvedCount "u1" (reconcile (Some "u1") first_login) = Some 1 /\
  solvedCount "u1" (reconcile (Some "u1") (reconcile (Some "u1") first_login)) = Some 1.
Proof. vm_compute. done. Qed.

Lemma reconcile_local_status_overwrites_witness :
  remoteStatus "u1" "lc_1" (reconcile (Some "u1") stale_device) = Some "working" /\
  localStatus "lc_1" (reconcile (Some "u1") stale_device) = Some "working".
Proof.
  destruct (reconcile_local_status_overwrites
              (Some "u1") "u1" "lc_1" "working" "solved" stale_device)
    as (_ & H1 & H2); [reflexivity| |done|done|reflexivity|reflexivity|by split].
  intros pid d H. unfold remote in H. simpl in H.
  apply lookup_singleton_Some in H as [[= <-] <-]. reflexivity.
Defined.

Lemma reconcile_twice_agrees_witness :
  ledgers_agree (reconcile (Some "u1") first_login)
                (reconcile (Some "u1") (reconcile (Some "u1") first_login)) /\
  exists fs2 d2,
    db (reconcile (Some "u1") (reconcile (Some "u1") first_login)) = Some fs2 /\
    remote "u1" "lc_1" (reconcile (Some "u1") (reconcile (Some "u1") first_login)) = Some d2 /\
    12 <= lastUpdatedAt d2 < serverClock fs2.
Proof.
  destruct (reconcile_twice_agrees (Some "u1") first_login) as (Hagree & Hstamp & _).
  { intros uid _ pid d H. unfold remote in H. simpl in H.
    rewrite lookup_empty in H. discriminate. }
  split; [exact Hagree|].
  assert (exists fs1, db (reconcile (Some "u1") first_login) = Some fs1 /\
                      serverClock fs1 = 12) as (fs1 & Hdb1 & Hclock).
  { vm_compute. eexists. split; reflexivity. }
  rewrite <- Hclock.
  apply (Hstamp "u1" "lc_1" "solved" fs1); [reflexivity|exact Hdb1|reflexivity|done|done].
Defined.

Lemma updateProblemProgress_counts_entering_solved_witness :
  solvedCount "u1" (updateProblemProgress (Some "u1") (Some "lc_1") "solved" first_login).2
  = Some 1.
Proof.
  apply (updateProblemProgress_counts_entering_solved
           (Some "u1") (Some "lc_1") "u1" "lc_1" "solved" first_login 0);
    reflexivity.
Defined.

Lemma updateTimeSpent_guard_and_monotone_witness :
  updateTimeSpent (Some "u1") (Some "lc_1") 0 stale_device = (false, stale_device) /\
  timeSpentOf "u1" "lc_1" (updateTimeSpent (Some "u1") (Some "lc_1") 30 stale_device).2
    = Some 30 /\
  exists t, timeSpentOf "u1" "lc_1"
              (updateTimeSpent_all [(Some "u1", Some "lc_1", 30); (Some "u1", None, 5);
                                    (Some "u1", Some "lc_1", -4)] stale_device) = Some t /\
            0 <= t.
Proof.
  destruct updateTimeSpent_guard_and_monotone as (Hguard & Hwrite & Hmono).
  split_and!.
  - apply Hguard. left. lia.
  - destruct (Hwrite (Some "u1") (Some "lc_1") 30 stale_device)
      as (uid & pid & t & [= <-] & [= <-] & Ht & Ht' & _).
    + intros H. apply (f_equal (timeSpentOf "u1" "lc_1")) in H. vm_compute in H. discriminate.
    + vm_compute in Ht. injection Ht as <-. exact Ht'.
  - apply Hmono. reflexivity.
Defined.

End DatabaseFacts.


(** ** Facts about js/auth.js *)

Module AuthFacts.
Import Auth.
Local Open Scope js_scope.
Local Open Scope list_scope.

(** *** The listener array *)

Lemma indexOf_None callback l :
  indexOf callback l = None <-> filter (fun x => cb_ref x = cb_ref callback) l = [].
Proof.
  induction l as [|x l IH]; simpl; [done|].
  rewrite filter_cons. destruct (decide (cb_ref x = cb_ref callback)); [done|].
  rewrite <- IH. destruct (indexOf callback l); simpl; split; done.
Qed.



(** *** Fan-out *)

Lemma listener_errors_app l1 l2 :
  listener_errors (l1 ++ l2) = listener_errors l1 ++ listener_errors l2.
Proof. unfold listener_errors. apply omap_app. Qed.

Lemma notify_spec user ls pg :
  exists pg' new,
    notify user ls pg = (pg', Normal tt) /\
    invocations pg' = invocations pg ++ new /\
    calls_of new = (fun l => (cb_ref l, user)) <$> ls /\
    listener_errors (console pg') = listener_errors (console pg) ++ omap threw new /\
    authStateListeners pg' = authStateListeners pg /\
    currentUser pg' = currentUser pg /\
    localStorage pg' = localStorage pg.
Proof.
  revert pg. induction ls as [|l ls IH]; intros pg.
  - exists pg, []. simpl. rewrite !app_nil_r. done.
  - simpl. unfold seq, try_catch, call.
    destruct (cb_run l user (dom pg)) as [d' [e|]] eqn:Hrun; simpl.
    + destruct (IH (add_log (ConsoleError "Error in auth state listener:" (Some e))
                     (add_invocation (mkInvocation (cb_ref l) user (Some e)) (set_dom d' pg))))
        as (pg' & new & Hn & Hinv & Hcalls & Herr & Hls & Hcu & Hst).
      exists pg', (mkInvocation (cb_ref l) user (Some e) :: new).
      rewrite Hn. split_and!; [done| | | |done|done|done].
      * rewrite Hinv. simpl. by rewrite <- app_assoc.
      * simpl. by rewrite Hcalls.
      * rewrite Herr. simpl. rewrite listener_errors_app. simpl. by rewrite <- app_assoc.
    + destruct (IH (add_invocation (mkInvocation (cb_ref l) user None) (set_dom d' pg)))
        as (pg' & new & Hn & Hinv & Hcalls & Herr & Hls & Hcu & Hst).
      exists pg', (mkInvocation (cb_ref l) user None :: new).
      rewrite Hn. split_and!; [done| | | |done|done|done].
      * rewrite Hinv. simpl. by rewrite <- app_assoc.
      * simpl. by rewrite Hcalls.
      * rewrite Herr. done.
Qed.

(** What handleAuthStateChange does before it notifies the listeners. *)
Lemma handleAuthStateChange_prelude user pg :
  exists pg0,
    handleAuthStateChange user pg = notify user (authStateListeners pg0) pg0 /\
    currentUser pg0 = user /\
    authStateListeners pg0 = authStateListeners pg /\
    invocations pg0 = invocations pg /\
    dom pg0 = dom pg /\
    authLoaded pg0 = authLoaded pg /\
    listener_errors (console pg0) = listener_errors (console pg).
Proof.
  unfold handleAuthStateChange, seq, modify, console_log, storeUserSession,
    clearUserSession, try_catch, storage_setItem, storage_removeItem, setItem,
    console_error, modify, ret.
  destruct user as [| |u]; simpl;
    [| |destruct (quotaExceeded (localStorage pg)); simpl; destruct (dbLoaded pg); simpl];
    (match goal with |- exists _, notify _ _ ?p = _ /\ _ => exists p end;
     split; [reflexivity|]; simpl;
     rewrite ?listener_errors_app, ?app_nil_r; done).
Qed.

Lemma handleAuthStateChange_spec user pg :
  exists pg' new,
    handleAuthStateChange user pg = (pg', Normal tt) /\
    invocations pg' = invocations pg ++ new /\
    calls_of new = (fun l => (cb_ref l, user)) <$> authStateListeners pg /\
    listener_errors (console pg') = listener_errors (console pg) ++ omap threw new /\
    authStateListeners pg' = authStateListeners pg /\
    currentUser pg' = user.
Proof.
  destruct (handleAuthStateChange_prelude user pg)
    as (pg0 & -> & Hcu & Hls & Hinv & _ & _ & Herr).
  destruct (notify_spec user (authStateListeners pg0) pg0)
    as (pg' & new & Hn & Hinv' & Hcalls & Herr' & Hls' & Hcu' & _).
  exists pg', new. split_and!; congruence.
Qed.

(** *** The fan-out over the live array *)

(** The fan-out of [Auth] runs every listener, each on the document the
    one before left behind, and logs what they throw. *)
Lemma notify_runs user ls pg :
  exists pg',
    notify user ls pg = (pg', Normal tt) /\
    dom pg' = (Live.run_listeners user ls (dom pg)).1 /\
    invocations pg' = invocations pg ++ (Live.run_listeners user ls (dom pg)).2 /\
    listener_errors (console pg') =
      listener_errors (console pg) ++ omap threw (Live.run_listeners user ls (dom pg)).2 /\
    authStateListeners pg' = authStateListeners pg /\
    currentUser pg' = currentUser pg.
Proof.
  revert pg. induction ls as [|l ls IH]; intros pg.
  - exists pg. simpl. rewrite !app_nil_r. done.
  - simpl. unfold seq, try_catch, call.
    destruct (cb_run l user (dom pg)) as [d' [e|]] eqn:Hrun; simpl.
    + destruct (IH (add_log (ConsoleError "Error in auth state listener:" (Some e))
                     (add_invocation (mkInvocation (cb_ref l) user (Some e)) (set_dom d' pg))))
        as (pg' & Hn & Hdom & Hinv & Herr & Hls & Hcu).
      exists pg'. rewrite Hn. simpl in *. split_and!; [done|done| | |done|done].
      * rewrite Hinv. by rewrite <- app_assoc.
      * rewrite Herr, listener_errors_app. simpl. by rewrite <- app_assoc.
    + destruct (IH (add_invocation (mkInvocation (cb_ref l) user None) (set_dom d' pg)))
        as (pg' & Hn & Hdom & Hinv & Herr & Hls & Hcu).
      exists pg'. rewrite Hn. simpl in *. split_and!; [done|done| |done|done|done].
      rewrite Hinv. by rewrite <- app_assoc.
Qed.

Lemma handleAuthStateChange_runs user pg :
  exists pg',
    handleAuthStateChange user pg = (pg', Normal tt) /\
    dom pg' = (Live.run_listeners user (authStateListeners pg) (dom pg)).1 /\
    invocations pg' =
      invocations pg ++ (Live.run_listeners user (authStateListeners pg) (dom pg)).2 /\
    listener_errors (console pg') =
      listener_errors (console pg) ++
      omap threw (Live.run_listeners user (authStateListeners pg) (dom pg)).2 /\
    authStateListeners pg' = authStateListeners pg /\
    currentUser pg' = user.
Proof.
  destruct (handleAuthStateChange_prelude user pg)
    as (pg0 & -> & Hcu & Hls & Hinv & Hdom & _ & Herr).
  destruct (notify_runs user (authStateListeners pg0) pg0)
    as (pg' & Hn & Hdom' & Hinv' & Herr' & Hls' & Hcu').
  exists pg'. rewrite Hls, Hdom in *. split_and!; congruence.
Qed.

(** While the listeners call no unsubscribe function, walking the live
    array from index [k] is the fan-out of [Auth] over the listeners
    from [k] on. *)
Lemma forEach_from_keeps handles user n k pg :
  (forall l, l ∈ authStateListeners pg -> Live.keeps_array handles l) ->
  k + n = length (authStateListeners pg) ->
  Live.forEach_from
    (fun listener =>
       try_catch (Live.call handles listener user)
                 (fun e => console_error "Error in auth state listener:" (Some e))) k n pg
  = notify user (drop k (authStateListeners pg)) pg.
Proof.
  revert k pg. induction n as [|n IH]; intros k pg Hkeep Hlen.
  - rewrite drop_ge by lia. done.
  - destruct (lookup_lt_is_Some_2 (authStateListeners pg) k) as [l Hl]; [lia|].
    rewrite (drop_S _ _ _ Hl). cbn [Live.forEach_from notify]. unfold seq. rewrite Hl.
    assert (Live.call handles l user pg = call l user pg) as Hcall.
    { unfold Live.call. rewrite (Hkeep l); [done|]. by eapply list_elem_of_lookup_2. }
    unfold try_catch. rewrite Hcall. unfold call.
    destruct (cb_run l user (dom pg)) as [d' [e|]]; simpl;
      (rewrite IH; [done|done|simpl; lia]).
Qed.

Lemma live_notify_keeps handles user pg :
  (forall l, l ∈ authStateListeners pg -> Live.keeps_array handles l) ->
  Live.notify handles user pg = notify user (authStateListeners pg) pg.
Proof.
  intros Hkeep. unfold Live.notify, Live.forEach.
  by rewrite (forEach_from_keeps handles user _ 0 pg Hkeep).
Qed.

(** Both versions of handleAuthStateChange do the same before the
    fan-out. *)
Lemma live_handleAuthStateChange_prelude handles user pg :
  exists pg0,
    Live.handleAuthStateChange handles user pg = Live.notify handles user pg0 /\
    handleAuthStateChange user pg = notify user (authStateListeners pg0) pg0 /\
    authStateListeners pg0 = authStateListeners pg.
Proof.
  unfold Live.handleAuthStateChange, handleAuthStateChange, seq, modify, console_log,
    storeUserSession, clearUserSession, try_catch, storage_setItem, storage_removeItem,
    setItem, console_error, modify, ret.
  destruct user as [| |u]; simpl;
    [| |destruct (quotaExceeded (localStorage pg)); simpl; destruct (dbLoaded pg); simpl];
    (match goal with |- exists _, Live.notify _ _ ?p = _ /\ _ => exists p end; done).
Qed.

(** For listeners that call no unsubscribe function the fan-out of
    [Auth] is the fan-out over the live array. *)
Lemma live_handleAuthStateChange_keeps handles user pg :
  (forall l, l ∈ authStateListeners pg -> Live.keeps_array handles l) ->
  Live.handleAuthStateChange handles user pg = handleAuthStateChange user pg.
Proof.
  intros Hkeep.
  destruct (live_handleAuthStateChange_prelude handles user pg) as (pg0 & -> & -> & Hls).
  apply live_notify_keeps. by rewrite Hls.
Qed.

(** Whatever the listeners do, no exception leaves the fan-out. *)
Lemma live_forEach_from_returns handles user n k pg :
  (Live.forEach_from
     (fun listener =>
        try_catch (Live.call handles listener user)
                  (fun e => console_error "Error in auth state listener:" (Some e))) k n pg).2
  = Normal tt.
Proof.
  revert k pg. induction n as [|n IH]; intros k pg; [done|].
  cbn [Live.forEach_from]. unfold seq.
  destruct (authStateListeners pg !! k) as [l|]; [|apply IH].
  unfold try_catch.
  destruct (Live.call handles l user pg) as [pg1 [[]|e]]; simpl; apply IH.
Qed.

Lemma live_handleAuthStateChange_returns handles user pg :
  (Live.handleAuthStateChange handles user pg).2 = Normal tt.
Proof.
  destruct (live_handleAuthStateChange_prelude handles user pg) as (pg0 & -> & _).
  apply live_forEach_from_returns.
Qed.

(** C3 at three listeners registered on a fresh page, of which the
    first takes itself out of the array and throws when a user signs
    in.  The exception is caught and logged and the call returns, but
    [forEach] goes on at index 1 of the array as it is now, which holds
    the third listener: the second listener, registered after the one
    that threw and still registered at the end, is not called with the
    user and the document has no trace of it. *)
Theorem handleAuthStateChange_skips_listener_after_unsubscribe :
  let r := Live.handleAuthStateChange Live.one_shot_handles (User alice)
                                      Live.three_listeners in
  cb_ref <$> authStateListeners Live.three_listeners = [102; 103; 104] /\
  calls_of (invocations Live.three_listeners) = [(102, Null); (103, Null); (104, Null)] /\
  r.2 = Normal tt /\
  listener_errors (console r.1) = [UserError "listener failed"] /\
  drop 3 (invocations r.1) =
    [mkInvocation 102 (User alice) (Some (UserError "listener failed"));
     mkInvocation 104 (User alice) None] /\
  scheduled (dom r.1) = [ShowGateMessage "third ran"] /\
  cb_ref <$> authStateListeners r.1 = [103; 104].
Proof. vm_compute. done. Qed.

(** The same listeners when the first one throws without unsubscribing:
    all three are called with the user. *)
Example fanout_without_unsubscribe :
  let r := Live.handleAuthStateChange Live.no_handles (User alice) Live.three_listeners in
  r.2 = Normal tt /\
  calls_of (drop 3 (invocations r.1)) =
    [(102, User alice); (103, User alice); (104, User alice)] /\
  listener_errors (console r.1) = [UserError "listener failed"] /\
  scheduled (dom r.1) = [ShowGateMessage "second ran"; ShowGateMessage "third ran"].
Proof. vm_compute. done. Qed.

(** *** Registration *)

(** Registration calls the callback at once with [currentUser]
    whenever that is not [undefined]. *)
Lemma onAuthStateChanged_replay callback pg :
  currentUser pg <> Undefined ->
  invocations (onAuthStateChanged (Some callback) pg).1 =
    invocations pg ++
    [mkInvocation (cb_ref callback) (currentUser pg)
                  (cb_run callback (currentUser pg) (dom pg)).2] /\
  authStateListeners (onAuthStateChanged (Some callback) pg).1 =
    authStateListeners pg ++ [callback].
Proof.
  intros Hne. unfold onAuthStateChanged, seq, modify, call, ret. simpl.
  destruct (currentUser pg) as [| |u] eqn:Hcu; [done| |];
    destruct (cb_run callback _ (dom pg)) as [d' [e|]]; simpl; done.
Qed.

Lemma handleAuthStateChange_currentUser user pg :
  currentUser (handleAuthStateChange user pg).1 = user.
Proof.
  destruct (handleAuthStateChange_spec user pg) as (pg' & new & -> & H).
  simpl. tauto.
Qed.

(** C2 at the state of a freshly loaded page, before any call of
    handleAuthStateChange: [currentUser] is [null], which is not
    [undefined], so the callback is called at once with [null]. *)
Theorem onAuthStateChanged_calls_back_before_confirmation callback d st now :
  invocations (onAuthStateChanged (Some callback) (initial d st now)).1 =
    [mkInvocation (cb_ref callback) Null (cb_run callback Null d).2] /\
  authStateListeners (onAuthStateChanged (Some callback) (initial d st now)).1 = [callback].
Proof.
  destruct (onAuthStateChanged_replay callback (initial d st now)) as [H1 H2]; [done|].
  rewrite H1, H2. done.
Qed.

(** *** Session cache *)

Lemma storeUserSession_returns user pg : (storeUserSession user pg).2 = Normal tt.
Proof.
  unfold storeUserSession, try_catch, storage_setItem, setItem, console_error, modify.
  destruct (quotaExceeded (localStorage pg)); done.
Qed.

Lemma getStoredUserSession_returns pg : exists v, (getStoredUserSession pg).2 = Normal v.
Proof.
  unfold getStoredUserSession, try_catch, console_error, seq, modify, ret.
  destruct (truthy (getItem SESSION_KEY (localStorage pg))) as [text|]; [|by exists JNull].
  destruct (parse text) as [v|e]; simpl; [by exists v|by exists JNull].
Qed.

(** The value read depends on the stored items only. *)
Lemma getStoredUserSession_items pg1 pg2 :
  items (localStorage pg1) = items (localStorage pg2) ->
  (getStoredUserSession pg1).2 = (getStoredUserSession pg2).2.
Proof.
  intros H. unfold getStoredUserSession, try_catch, console_error, seq, modify, ret, getItem.
  rewrite H. destruct (truthy (items (localStorage pg2) !! SESSION_KEY)) as [text|]; [|done].
  by destruct (parse text).
Qed.

(** C6, as the code has it: a setItem that fails is caught inside
    storeUserSession, localStorage keeps what it held, and a read
    returns what it returned before the write: null only when no entry
    was stored (or the stored one does not parse). *)
Theorem storeUserSession_failed_write_keeps_entry user pg :
  quotaExceeded (localStorage pg) = true ->
  (storeUserSession user pg).2 = Normal tt /\
  localStorage (storeUserSession user pg).1 = localStorage pg /\
  (getStoredUserSession (storeUserSession user pg).1).2 = (getStoredUserSession pg).2 /\
  (getItem SESSION_KEY (localStorage pg) = None ->
   (getStoredUserSession (storeUserSession user pg).1).2 = Normal JNull).
Proof.
  intros Hq.
  assert (localStorage (storeUserSession user pg).1 = localStorage pg) as Hls.
  { unfold storeUserSession, try_catch, storage_setItem, setItem, console_error, modify.
    by rewrite Hq. }
  split_and!; [apply storeUserSession_returns|done| |].
  - apply getStoredUserSession_items. by rewrite Hls.
  - intros Hnone. rewrite (getStoredUserSession_items _ pg); [|by rewrite Hls].
    unfold getStoredUserSession, try_catch. by rewrite Hnone.
Qed.

(** After a failed write the read returns the session stored earlier,
    not null. *)
Lemma failed_write_then_read_returns_old_session :
  let pg := out_of_quota (storeUserSession alice fresh_page).1 in
  (storeUserSession bob pg).2 = Normal tt /\
  (getStoredUserSession (storeUserSession bob pg).1).2 =
    Normal (sessionData alice "2026-01-01T00:00:00.000Z") /\
  (getStoredUserSession (storeUserSession bob pg).1).2 <> Normal JNull.
Proof. vm_compute. split_and!; [done|done|]. intros [=]. Qed.


(** *** The theorems at sample states *)

(** A listener that throws, registered before one that does not: both
    are called with the new user and the exception is on the console. *)
Example fanout_past_faulty_listener :
  let pg := set_listeners [faulty; quiet] fresh_page in
  let r := handleAuthStateChange (User alice) pg in
  r.2 = Normal tt /\
  calls_of (invocations r.1) = [(101, User alice); (100, User alice)] /\
  listener_errors (console r.1) = [UserError "listener failed"].
Proof. vm_compute. done. Qed.


Lemma storeUserSession_failed_write_keeps_entry_witness :
  let pg := out_of_quota (storeUserSession alice fresh_page).1 in
  (storeUserSession bob pg).2 = Normal tt /\
  (getStoredUserSession (storeUserSession bob pg).1).2 = (getStoredUserSession pg).2.
Proof.
  simpl.
  destruct (storeUserSession_failed_write_keeps_entry
              bob (out_of_quota (storeUserSession alice fresh_page).1))
    as (H1 & _ & H2 & _); [reflexivity|by split].
Defined.

End AuthFacts.

(** ** Facts about js/auth-ui.js *)

Module AuthUIFacts.
Import Auth AuthUI AuthFacts.
Local Open Scope js_scope.
Local Open Scope list_scope.

Lemma showLoginModal_returns pg :
  exists pg', showLoginModal pg = (pg', Normal tt).
Proof.
  unfold showLoginModal, Auth.showLoginModal, injectLoginModal, console_error, seq, modify.
  destruct (authLoaded pg); eexists; reflexivity.
Qed.

(** What requireAuth does for a visitor who is not signed in. *)
Lemma requireAuth_prompt_returns options pg :
  exists pg',
    (match truthy (redirectTo options) with
     | Some url => set_href url
     | None =>
         if default true (showModal options) then
           showLoginModal ;;
           fun pg' =>
             match truthy (message options) with
             | Some msg =>
                 if authLoaded pg' then setTimeout (ShowGateMessage msg) pg'
                 else ret tt pg'
             | None => ret tt pg'
             end
         else ret tt
     end) pg = (pg', Normal tt).
Proof.
  destruct (truthy (redirectTo options)) as [url|]; [eexists; reflexivity|].
  destruct (default true (showModal options)); [|eexists; reflexivity].
  unfold seq. destruct (showLoginModal_returns pg) as [pg1 ->].
  destruct (truthy (message options)) as [msg|]; [|eexists; reflexivity].
  destruct (authLoaded pg1); eexists; reflexivity.
Qed.

(** C5: requireAuth never throws, and it returns true exactly when the
    auth module is loaded and holds a signed-in user. *)
Theorem requireAuth_true_iff_signed_in options pg :
  exists b,
    (requireAuth options pg).2 = Normal b /\
    (b = true <-> authLoaded pg = true /\ exists u, currentUser pg = User u).
Proof.
  unfold requireAuth.
  destruct (is_user (currentUser_opt pg)) eqn:Huser.
  - exists true. split; [done|]. split; [intros _|done].
    unfold currentUser_opt, getCurrentUser in Huser.
    destruct (authLoaded pg); [|done]. split; [done|].
    destruct (currentUser pg) as [| |u]; [done|done|by exists u].
  - exists false. split.
    + unfold seq at 1. destruct (requireAuth_prompt_returns options pg) as [pg' ->]. done.
    + split; [done|]. intros [Hload [u Hu]].
      unfold currentUser_opt, getCurrentUser in Huser. by rewrite Hload, Hu in Huser.
Qed.

(** *** Content gate *)












(** *** The theorem at a sample state *)


End AuthUIFacts.

(** ** Facts about the progress documents and the statistics *)

Module DatabaseOpsFacts.
Import Database JsFacts DatabaseFacts DatabaseOps.
Local Open Scope Z_scope.
Local Open Scope list_scope.

(** *** Sums over the documents of a user *)

Lemma sum_docs_perm f l1 l2 : l1 ≡ₚ l2 -> sum_docs f l1 = sum_docs f l2.
Proof.
  induction 1 as [|x l1 l2 _ IH|x y l|l1 l2 l3 _ IH1 _ IH2]; simpl; [done|by rewrite IH|lia|].
  by rewrite IH1.
Qed.

Lemma sum_docs_app f l1 l2 : sum_docs f (l1 ++ l2) = sum_docs f l1 + sum_docs f l2.
Proof. induction l1 as [|x l1 IH]; simpl; [done|]. rewrite IH. lia. Qed.

Lemma docs_of_insert_fresh uid u p d m :
  m !! (u, p) = None ->
  docs_of uid (<[(u, p) := d]> m) ≡ₚ
    (if decide (u = uid) then [(p, d)] else []) ++ docs_of uid m.
Proof.
  intros Hnone. unfold docs_of. rewrite (map_to_list_insert m (u, p) d Hnone). simpl.
  by destruct (decide (u = uid)).
Qed.

Lemma sum_docs_insert f uid u p d m :
  sum_docs f (docs_of uid (<[(u, p) := d]> m)) =
  sum_docs f (docs_of uid m) +
  (if decide (u = uid)
   then f d - match m !! (u, p) with Some old => f old | None => 0 end
   else 0).
Proof.
  destruct (m !! (u, p)) as [old|] eqn:Hold.
  - rewrite <- (insert_delete_eq m (u, p) d).
    rewrite <- (insert_delete_id m (u, p) old Hold) at 2.
    rewrite !(sum_docs_perm f _ _ (docs_of_insert_fresh uid u p _ _ (lookup_delete_eq m (u, p)))).
    rewrite !sum_docs_app. destruct (decide (u = uid)); simpl; lia.
  - rewrite (sum_docs_perm f _ _ (docs_of_insert_fresh uid u p d m Hold)).
    rewrite sum_docs_app. destruct (decide (u = uid)); simpl; lia.
Qed.

Lemma tally_same f uid w w' fs fs' :
  db w = Some fs -> db w' = Some fs' -> progressDocs fs' = progressDocs fs ->
  tally f uid w' = tally f uid w.
Proof. intros H1 H2 H3. unfold tally, progress_of. by rewrite H1, H2, H3. Qed.

Lemma tally_insert f uid u p d w w' fs fs' :
  db w = Some fs -> db w' = Some fs' ->
  progressDocs fs' = <[(u, p) := d]> (progressDocs fs) ->
  tally f uid w' =
  tally f uid w +
  (if decide (u = uid)
   then f d - match progressDocs fs !! (u, p) with Some old => f old | None => 0 end
   else 0).
Proof.
  intros H1 H2 H3. unfold tally. rewrite H1, H2.
  change (progress_of uid fs') with (docs_of uid (progressDocs fs')).
  change (progress_of uid fs) with (docs_of uid (progressDocs fs)).
  rewrite H3. apply sum_docs_insert.
Qed.

(** *** What each call does to the store *)

Lemma userCounters_insert u0 uid d t u fs w :
  db w = Some fs -> userDocs fs !! uid = Some u ->
  userCounters u0 (with_db (mkFirestore (<[uid := apply_stats d t u]> (userDocs fs))
                                        (progressDocs fs) (serverClock fs + 1)) w) =
  if decide (u0 = uid) then bump d <$> userCounters u0 w else userCounters u0 w.
Proof.
  intros Hdb Hu. unfold userCounters, userStats. rewrite Hdb. simpl.
  destruct (decide (u0 = uid)) as [->|Hne].
  - rewrite lookup_insert_eq, Hu. simpl. unfold bump, apply_stats. simpl.
    destruct (decide (d_problemsSolved d = 0)) as [->|];
      destruct (decide (d_problemsAccessed d = 0)) as [->|];
      destruct (decide (d_totalTimeSpent d = 0)) as [->|];
      rewrite ?Z.add_0_r; reflexivity.
  - by rewrite lookup_insert_ne.
Qed.

(** updateUserStats adds the delta to the counters of an existing user
    document and does nothing else. *)
Lemma updateUserStats_effect uid d w fs :
  db w = Some fs -> uid <> "" ->
  doc_effect uid "" None d w (updateUserStats (Some uid) d w).2.
Proof.
  intros Hdb Hu. unfold updateUserStats. rewrite Hdb, (truthy_of_Some _ Hu).
  unfold user_update. destruct (userDocs fs !! uid) as [u|] eqn:Hud; simpl.
  - eexists fs, _. split_and!; [done|reflexivity|done|done|].
    intros u0. by apply userCounters_insert.
  - exists fs, fs. split_and!; [done|done|done|done|].
    intros u0. destruct (decide (u0 = uid)) as [->|]; [|done].
    unfold userCounters, userStats. rewrite Hdb. simpl. by rewrite Hud.
Qed.

Lemma bump_zero c : bump (mkDelta 0 0 0) c = c.
Proof. destruct c as [[a b] c]. unfold bump. simpl. by rewrite !Z.add_0_r. Qed.

Lemma userCounters_same u0 w w' fs fs' :
  db w = Some fs -> db w' = Some fs' -> userDocs fs' = userDocs fs ->
  userCounters u0 w' = userCounters u0 w.
Proof. intros H1 H2 H3. unfold userCounters, userStats. rewrite H1, H2. simpl. by rewrite H3. Qed.

Lemma enters_solved_Some old st :
  enters_solved (Some old) st =
  bool_decide (st = "solved") && negb (bool_decide (old = "solved")).
Proof.
  unfold enters_solved. f_equal. f_equal. apply bool_decide_ext.
  split; [by intros [= ->]|by intros ->].
Qed.

(** updateProblemProgress writes one progress document and adds the
    deltas of the transition to the user's counters. *)
Lemma updateProblemProgress_effect uid pid st w fs :
  db w = Some fs -> uid <> "" -> pid <> "" ->
  exists t,
    serverClock fs <= t /\
    doc_effect uid pid (Some (progress_doc (doc_at uid pid fs) pid st t))
               (progress_delta (doc_at uid pid fs) st)
               w (updateProblemProgress (Some uid) (Some pid) st w).2.
Proof.
  intros Hdb Hu Hp. unfold updateProblemProgress.
  rewrite Hdb, (truthy_of_Some _ Hu), (truthy_of_Some _ Hp).
  unfold progress_get, doc_at, progress_delta, progress_doc.
  destruct (progressDocs fs !! (uid, pid)) as [data|] eqn:Hd; simpl.
  - rewrite enters_solved_Some.
    destruct (bool_decide (st = "solved") && negb (bool_decide (status data = "solved"))).
    + unfold updateUserStats. rewrite Hdb, (truthy_of_Some _ Hu). unfold user_update.
      destruct (userDocs fs !! uid) as [u|] eqn:Hud; simpl.
      * unfold progress_update. simpl. rewrite Hd. simpl.
        exists (serverClock fs + 1). split; [lia|].
        eexists fs, _. split_and!; [done|reflexivity|done|done|].
        intros u0.
        rewrite <- (userCounters_insert u0 uid (mkDelta 1 0 0) (serverClock fs) u fs w Hdb Hud).
        by eapply userCounters_same.
      * rewrite Hdb. simpl. unfold progress_update. rewrite Hd. simpl.
        exists (serverClock fs). split; [lia|].
        eexists fs, _. split_and!; [done|reflexivity|done|done|].
        intros u0. erewrite (userCounters_same u0 w _ fs); [|exact Hdb|reflexivity|reflexivity].
        destruct (decide (u0 = uid)) as [->|]; [|done].
        unfold userCounters, userStats. rewrite Hdb. simpl. by rewrite Hud.
    + rewrite Hdb. simpl. unfold progress_update. rewrite Hd. simpl.
      exists (serverClock fs). split; [lia|].
      eexists fs, _. split_and!; [done|reflexivity|done|done|].
      intros u0. erewrite (userCounters_same u0 w _ fs); [|exact Hdb|reflexivity|reflexivity].
      destruct (decide (u0 = uid)); [|done].
      destruct (userCounters u0 w) as [c|]; simpl; [|done]. by rewrite bump_zero.
  - exists (serverClock fs). split; [lia|].
    unfold updateUserStats. rewrite (truthy_of_Some _ Hu). simpl. unfold user_update. simpl.
    assert (enters_solved None st = bool_decide (st = "solved")) as ->.
    { unfold enters_solved. simpl. apply andb_true_r. }
    destruct (userDocs fs !! uid) as [u|] eqn:Hud; simpl.
    + eexists fs, _. split_and!; [done|reflexivity|done|done|].
      intros u0.
      assert (mkDelta (if decide (st = "solved") then 1 else 0) 1 0 =
              mkDelta (if bool_decide (st = "solved") then 1 else 0) 1 0) as Hdelta.
      { by destruct (decide (st = "solved"));
          [rewrite bool_decide_eq_true_2|rewrite bool_decide_eq_false_2]. }
      rewrite <- Hdelta.
      rewrite <- (userCounters_insert u0 uid _ (serverClock fs + 1) u fs w Hdb Hud).
      unfold userCounters, userStats. simpl. done.
    + eexists fs, _. split_and!; [done|reflexivity|done|done|].
      intros u0. erewrite (userCounters_same u0 w _ fs); [|exact Hdb|reflexivity|reflexivity].
      destruct (decide (u0 = uid)) as [->|]; [|done].
      unfold userCounters, userStats. rewrite Hdb. simpl. by rewrite Hud.
Qed.

Lemma recordProblemView_effect uid pid w fs :
  db w = Some fs -> uid <> "" -> pid <> "" ->
  exists t,
    serverClock fs <= t /\
    doc_effect uid pid (Some (view_doc (doc_at uid pid fs) pid t))
               (mkDelta 0 (if doc_at uid pid fs is Some _ then 0 else 1) 0)
               w (recordProblemView (Some uid) (Some pid) w).2.
Proof.
  intros Hdb Hu Hp. unfold recordProblemView.
  rewrite Hdb, (truthy_of_Some _ Hu), (truthy_of_Some _ Hp).
  unfold progress_get, doc_at, view_doc, progress_update.
  destruct (progressDocs fs !! (uid, pid)) as [data|] eqn:Hd; simpl.
  - exists (serverClock fs). split; [lia|].
    eexists fs, _. split_and!; [done|reflexivity|done|done|].
    intros u0. erewrite (userCounters_same u0 w _ fs); [|exact Hdb|reflexivity|reflexivity].
    destruct (decide (u0 = uid)); [|done].
    destruct (userCounters u0 w) as [c|]; simpl; [|done]. by rewrite bump_zero.
  - exists (serverClock fs). split; [lia|].
    unfold updateUserStats. rewrite (truthy_of_Some _ Hu). simpl. unfold user_update. simpl.
    destruct (userDocs fs !! uid) as [u|] eqn:Hud; simpl.
    + eexists fs, _. split_and!; [done|reflexivity|done|done|].
      intros u0.
      rewrite <- (userCounters_insert u0 uid _ (serverClock fs + 1) u fs w Hdb Hud).
      unfold userCounters, userStats. simpl. done.
    + eexists fs, _. split_and!; [done|reflexivity|done|done|].
      intros u0. erewrite (userCounters_same u0 w _ fs); [|exact Hdb|reflexivity|reflexivity].
      destruct (decide (u0 = uid)) as [->|]; [|done].
      unfold userCounters, userStats. rewrite Hdb. simpl. by rewrite Hud.
Qed.

Lemma updateTimeSpent_effect uid pid seconds old w fs :
  db w = Some fs -> uid <> "" -> pid <> "" -> 0 < seconds ->
  doc_at uid pid fs = Some old ->
  doc_effect uid pid (Some (add_time seconds (serverClock fs) old)) (mkDelta 0 0 seconds)
             w (updateTimeSpent (Some uid) (Some pid) seconds w).2.
Proof.
  intros Hdb Hu Hp Hs Hold. unfold updateTimeSpent.
  rewrite Hdb, (truthy_of_Some _ Hu), (truthy_of_Some _ Hp).
  destruct (decide (seconds <= 0)); [lia|].
  unfold doc_at in Hold. unfold progress_update. rewrite Hold.
  unfold updateUserStats. rewrite (truthy_of_Some _ Hu). simpl. unfold user_update. simpl.
  destruct (userDocs fs !! uid) as [u|] eqn:Hud; simpl.
  - eexists fs, _. split_and!; [done|reflexivity|done|done|].
    intros u0.
    rewrite <- (userCounters_insert u0 uid _ (serverClock fs + 1) u fs w Hdb Hud).
    unfold userCounters, userStats. simpl. done.
  - eexists fs, _. split_and!; [done|reflexivity|done|done|].
    intros u0. erewrite (userCounters_same u0 w _ fs); [|exact Hdb|reflexivity|reflexivity].
    destruct (decide (u0 = uid)) as [->|]; [|done].
    unfold userCounters, userStats. rewrite Hdb. simpl. by rewrite Hud.
Qed.

(** Without a usable handle, ids, a positive number of seconds and an
    existing record, updateTimeSpent changes nothing. *)
Lemma updateTimeSpent_idle userId problemId seconds w :
  (forall fs uid pid, db w = Some fs -> truthy userId = Some uid ->
                      truthy problemId = Some pid -> 0 < seconds ->
                      doc_at uid pid fs = None) ->
  (updateTimeSpent userId problemId seconds w).2 = w.
Proof.
  intros H. unfold updateTimeSpent.
  destruct (db w) as [fs|] eqn:Hdb; [|done].
  destruct (truthy userId) as [uid|] eqn:Hu; [|done].
  destruct (truthy problemId) as [pid|] eqn:Hp; [|done].
  destruct (decide (seconds <= 0)); [done|].
  specialize (H fs uid pid eq_refl eq_refl eq_refl ltac:(lia)).
  unfold doc_at in H. unfold progress_update. by rewrite H.
Qed.

(** *** Properties kept by every call *)

(** A property of the state that the four writers keep and that does
    not look at localStorage is kept by the two sync functions. *)
Lemma push_keys_keeps (P : World -> Prop) uid ks w n :
  (forall p s w0, P w0 -> P (updateProblemProgress (Some uid) (Some p) s w0).2) ->
  P w -> P (push_keys uid ks w n).2.
Proof.
  intros Hstep. revert w n. induction ks as [|key rest IH]; intros w n HP; simpl; [done|].
  destruct (getItem key (localStorage w)) as [s|]; simpl; [|by apply IH].
  destruct (decide (s = "")); [by apply IH|].
  destruct (decide (replace "progress_" "" key = "")); [by apply IH|].
  by apply IH, Hstep.
Qed.

Lemma syncFirestoreToLocalStorage_storage userId w :
  exists st, (syncFirestoreToLocalStorage userId w).2 = with_storage st w.
Proof.
  unfold syncFirestoreToLocalStorage.
  destruct (db w), (truthy userId); simpl; eauto; exists (localStorage w); by destruct w.
Qed.

Lemma run_ops_keeps (P : World -> Prop) :
  (forall user w, P w -> P (createOrUpdateUserProfile user w).2) ->
  (forall userId problemId st w, P w -> P (updateProblemProgress userId problemId st w).2) ->
  (forall userId problemId w, P w -> P (recordProblemView userId problemId w).2) ->
  (forall userId problemId seconds w, P w -> P (updateTimeSpent userId problemId seconds w).2) ->
  (forall st w, P w -> P (with_storage st w)) ->
  forall ops w, P w -> P (run_ops ops w).
Proof.
  intros Hlogin Hprogress Hview Htime Hstorage ops.
  induction ops as [|o ops IH]; intros w HP; [done|].
  apply IH. destruct o as [user|u p st|u p|u p n|u|u]; simpl; auto.
  - unfold syncLocalStorageToFirestore.
    destruct (db w), (truthy u); simpl; auto. apply push_keys_keeps; auto.
  - destruct (syncFirestoreToLocalStorage_storage u w) as [st ->]. auto.
Qed.

Lemma stats_consistent_counters uid w :
  stats_consistent uid w <->
  exists c, userCounters uid w = Some c /\
            c.1.2 = recordCount uid w /\ c.2 = timeSum uid w /\
            solvedRecords uid w <= c.1.1.
Proof.
  unfold stats_consistent, userCounters. split.
  - intros (s & -> & ? & ? & ?). simpl. eauto 10.
  - intros (c & Hc & ? & ? & ?). destruct (userStats uid w) as [s|]; [|done].
    injection Hc as <-. eauto 10.
Qed.

(** One write of a progress document keeps the counters in step when
    its deltas are those of the document it replaces. *)
Lemma doc_effect_consistent uid0 uid pid d' delta w w' :
  doc_effect uid pid (Some d') delta w w' ->
  (forall fs, db w = Some fs ->
     d_problemsAccessed delta = (if doc_at uid pid fs is Some _ then 0 else 1) /\
     d_totalTimeSpent delta = timeSpent d' - from_option timeSpent 0 (doc_at uid pid fs) /\
     solved_flag d' - from_option solved_flag 0 (doc_at uid pid fs) <= d_problemsSolved delta) ->
  stats_consistent uid0 w -> stats_consistent uid0 w'.
Proof.
  intros (fs & fs' & Hdb & Hdb' & _ & Hdocs & Hc) Hdelta.
  destruct (Hdelta fs Hdb) as (Ha & Ht & Hs). clear Hdelta.
  rewrite !stats_consistent_counters. intros (c & Hc0 & Hacc & Htime & Hsolved).
  unfold recordCount, timeSum, solvedRecords in *.
  rewrite !(tally_insert _ uid0 uid pid d' w w' fs fs' Hdb Hdb' Hdocs).
  rewrite (Hc uid0), Hc0. unfold doc_at in *.
  destruct (decide (uid = uid0)) as [Heq|Hne].
  - subst uid0. rewrite decide_True by done. exists (bump delta c). simpl.
    unfold solved_flag in Hs.
    destruct (progressDocs fs !! (uid, pid)) as [old|]; simpl in *; split_and!; try done; lia.
  - rewrite decide_False by done. exists c. rewrite !Z.add_0_r. done.
Qed.

Lemma updateProblemProgress_consistent uid0 userId problemId st w :
  stats_consistent uid0 w ->
  stats_consistent uid0 (updateProblemProgress userId problemId st w).2.
Proof.
  intros HP.
  destruct (db w) as [fs|] eqn:Hdb; [|by unfold updateProblemProgress; rewrite Hdb].
  destruct (truthy userId) as [uid|] eqn:Hu;
    [|by unfold updateProblemProgress; rewrite Hdb, Hu].
  destruct (truthy problemId) as [pid|] eqn:Hp;
    [|by unfold updateProblemProgress; rewrite Hdb, Hu, Hp].
  apply truthy_Some in Hu as [-> Hu]. apply truthy_Some in Hp as [-> Hp].
  destruct (updateProblemProgress_effect uid pid st w fs Hdb Hu Hp) as (t & _ & Heff).
  eapply doc_effect_consistent; [exact Heff| |exact HP].
  intros fs0 Hdb0. rewrite Hdb in Hdb0. injection Hdb0 as <-.
  unfold progress_delta, progress_doc, solved_flag.
  destruct (doc_at uid pid fs) as [old|]; simpl.
  - split_and!; [done|lia|]. rewrite enters_solved_Some.
    destruct (decide (st = "solved")), (decide (status old = "solved"));
      rewrite ?bool_decide_eq_true_2, ?bool_decide_eq_false_2 by done; simpl; lia.
  - split_and!; [done|unfold new_progress; simpl; lia|].
    unfold enters_solved. simpl. unfold new_progress. simpl.
    destruct (decide (st = "solved"));
      rewrite ?bool_decide_eq_true_2, ?bool_decide_eq_false_2 by done; simpl; lia.
Qed.

Lemma recordProblemView_consistent uid0 userId problemId w :
  stats_consistent uid0 w ->
  stats_consistent uid0 (recordProblemView userId problemId w).2.
Proof.
  intros HP.
  destruct (db w) as [fs|] eqn:Hdb; [|by unfold recordProblemView; rewrite Hdb].
  destruct (truthy userId) as [uid|] eqn:Hu;
    [|by unfold recordProblemView; rewrite Hdb, Hu].
  destruct (truthy problemId) as [pid|] eqn:Hp;
    [|by unfold recordProblemView; rewrite Hdb, Hu, Hp].
  apply truthy_Some in Hu as [-> Hu]. apply truthy_Some in Hp as [-> Hp].
  destruct (recordProblemView_effect uid pid w fs Hdb Hu Hp) as (t & _ & Heff).
  eapply doc_effect_consistent; [exact Heff| |exact HP].
  intros fs0 Hdb0. rewrite Hdb in Hdb0. injection Hdb0 as <-.
  unfold view_doc, solved_flag.
  destruct (doc_at uid pid fs) as [old|]; simpl; split_and!; try done; try lia.
Qed.

Lemma updateTimeSpent_consistent uid0 userId problemId seconds w :
  stats_consistent uid0 w ->
  stats_consistent uid0 (updateTimeSpent userId problemId seconds w).2.
Proof.
  intros HP.
  destruct (db w) as [fs|] eqn:Hdb; [|by unfold updateTimeSpent; rewrite Hdb].
  destruct (truthy userId) as [uid|] eqn:Hu;
    [|by unfold updateTimeSpent; rewrite Hdb, Hu].
  destruct (truthy problemId) as [pid|] eqn:Hp;
    [|by unfold updateTimeSpent; rewrite Hdb, Hu, Hp].
  destruct (decide (0 < seconds)) as [Hs|Hs];
    [|rewrite updateTimeSpent_idle; [done|intros; lia]].
  destruct (doc_at uid pid fs) as [old|] eqn:Hold.
  - apply truthy_Some in Hu as [-> Hu]. apply truthy_Some in Hp as [-> Hp].
    pose proof (updateTimeSpent_effect uid pid seconds old w fs Hdb Hu Hp Hs Hold) as Heff.
    eapply doc_effect_consistent; [exact Heff| |exact HP].
    intros fs0 Hdb0. rewrite Hdb in Hdb0. injection Hdb0 as <-.
    rewrite Hold. unfold solved_flag. simpl. split_and!; [done|lia|lia].
  - rewrite updateTimeSpent_idle; [done|].
    intros fs0 uid1 pid1 Hdb0 Hu1 Hp1 _. congruence.
Qed.

(** createOrUpdateUserProfile writes the user's document only: the
    document of a new user, or the old one with the login counted. *)
Lemma createOrUpdateUserProfile_effect u w fs :
  db w = Some fs ->
  let d := match userDocs fs !! Page.uid u with
           | Some old => login_again (serverClock fs) old
           | None => new_profile (serverClock fs)
           end in
  createOrUpdateUserProfile (Some u) w =
    (Some d, with_db (mkFirestore (<[Page.uid u := d]> (userDocs fs)) (progressDocs fs)
                                  (serverClock fs + 1)) w).
Proof.
  intros Hdb. unfold createOrUpdateUserProfile, user_update, user_set. rewrite Hdb.
  destruct (userDocs fs !! Page.uid u) as [old|] eqn:Hold; simpl; by rewrite lookup_insert_eq.
Qed.

Lemma createOrUpdateUserProfile_consistent uid0 user w :
  stats_consistent uid0 w ->
  stats_consistent uid0 (createOrUpdateUserProfile user w).2.
Proof.
  intros HP.
  destruct (db w) as [fs|] eqn:Hdb; [|by unfold createOrUpdateUserProfile; rewrite Hdb].
  destruct user as [u|]; [|by unfold createOrUpdateUserProfile; rewrite Hdb].
  rewrite (createOrUpdateUserProfile_effect u w fs Hdb). simpl.
  destruct HP as (s & Hs & Ha & Ht & Hsol). exists s.
  unfold recordCount, timeSum, solvedRecords in *.
  match goal with |- context [tally _ uid0 ?w'] =>
    assert (forall f, tally f uid0 w' = tally f uid0 w) as Htally
      by (intros; eapply tally_same; [exact Hdb|reflexivity|reflexivity])
  end.
  rewrite !Htally. split_and!; try done.
  unfold userStats in *. rewrite Hdb in Hs. simpl in *.
  destruct (decide (uid0 = Page.uid u)) as [->|Hne].
  - rewrite lookup_insert_eq. destruct (userDocs fs !! Page.uid u); [done|done].
  - by rewrite lookup_insert_ne.
Qed.

Lemma with_storage_consistent uid0 st w :
  stats_consistent uid0 w -> stats_consistent uid0 (with_storage st w).
Proof. by destruct w. Qed.

Lemma run_ops_consistent uid ops w :
  stats_consistent uid w -> stats_consistent uid (run_ops ops w).
Proof.
  apply (run_ops_keeps (stats_consistent uid)).
  - intros. by apply createOrUpdateUserProfile_consistent.
  - intros. by apply updateProblemProgress_consistent.
  - intros. by apply recordProblemView_consistent.
  - intros. by apply updateTimeSpent_consistent.
  - intros. by apply with_storage_consistent.
Qed.

(** X1.  The counters of the user's document stay in step with the
    progress records over any run of calls of the module: once
    [stats.problemsAccessed] is the number of the user's records,
    [stats.totalTimeSpent] the sum of their [timeSpent], and
    [stats.problemsSolved] at least the number of solved records, the
    same holds after any sequence of createOrUpdateUserProfile,
    updateProblemProgress, recordProblemView, updateTimeSpent and the
    two sync functions, for any users and problems. *)
Theorem stats_stay_consistent uid ops w :
  stats_consistent uid w -> stats_consistent uid (run_ops ops w).
Proof.
  intros H. induction ops as [|o ops IH] using rev_ind; [done|].
  unfold run_ops. rewrite foldl_app. simpl.
  apply (run_ops_consistent uid [o]), IH.
Qed.

Lemma stats_stay_consistent_witness :
  stats_consistent "u1"
    (run_ops [Push (Some "u1"); View (Some "u1") (Some "mlsd_2");
              Time (Some "u1") (Some "lc_1") 40;
              Progress (Some "u1") (Some "lc_1") "working"] first_login).
Proof.
  apply stats_stay_consistent. exists (mkStats 0 0 0 0).
  split_and!; [reflexivity..|by vm_compute].
Defined.

(** *** The history of a record *)

Lemma doc_effect_remote uid pid d' delta w w' :
  doc_effect uid pid (Some d') delta w w' ->
  forall u p, remote u p w' =
              if decide ((u, p) = (uid, pid)) then Some d' else remote u p w.
Proof.
  intros (fs & fs' & Hdb & Hdb' & _ & Hdocs & _) u p. unfold remote.
  rewrite Hdb, Hdb'. simpl. rewrite Hdocs.
  destruct (decide ((u, p) = (uid, pid))) as [->|Hne];
    [by rewrite lookup_insert_eq|by rewrite lookup_insert_ne].
Qed.

Lemma doc_effect_step uid pid d' delta w w' :
  doc_effect uid pid (Some d') delta w w' ->
  doc_step pid (remote uid pid w) d' ->
  forall u p, remote u p w' = remote u p w \/
              exists d, remote u p w' = Some d /\ doc_step p (remote u p w) d.
Proof.
  intros Heff Hstep u p. rewrite (doc_effect_remote _ _ _ _ _ _ Heff).
  destruct (decide ((u, p) = (uid, pid))) as [[= -> ->]|]; [right; eauto|by left].
Qed.

(** Every call of a writer leaves each record alone or takes one
    [doc_step] on it. *)
Lemma updateProblemProgress_step userId problemId st w u p :
  let w' := (updateProblemProgress userId problemId st w).2 in
  remote u p w' = remote u p w \/
  exists d, remote u p w' = Some d /\ doc_step p (remote u p w) d.
Proof.
  simpl.
  destruct (db w) as [fs|] eqn:Hdb; [|left; by unfold updateProblemProgress; rewrite Hdb].
  destruct (truthy userId) as [uid|] eqn:Hu;
    [|left; by unfold updateProblemProgress; rewrite Hdb, Hu].
  destruct (truthy problemId) as [pid|] eqn:Hp;
    [|left; by unfold updateProblemProgress; rewrite Hdb, Hu, Hp].
  apply truthy_Some in Hu as [-> Hu]. apply truthy_Some in Hp as [-> Hp].
  destruct (updateProblemProgress_effect uid pid st w fs Hdb Hu Hp) as (t & _ & Heff).
  eapply doc_effect_step; [exact Heff|].
  left. exists st, t. unfold remote, doc_at. by rewrite Hdb.
Qed.

Lemma recordProblemView_step userId problemId w u p :
  let w' := (recordProblemView userId problemId w).2 in
  remote u p w' = remote u p w \/
  exists d, remote u p w' = Some d /\ doc_step p (remote u p w) d.
Proof.
  simpl.
  destruct (db w) as [fs|] eqn:Hdb; [|left; by unfold recordProblemView; rewrite Hdb].
  destruct (truthy userId) as [uid|] eqn:Hu;
    [|left; by unfold recordProblemView; rewrite Hdb, Hu].
  destruct (truthy problemId) as [pid|] eqn:Hp;
    [|left; by unfold recordProblemView; rewrite Hdb, Hu, Hp].
  apply truthy_Some in Hu as [-> Hu]. apply truthy_Some in Hp as [-> Hp].
  destruct (recordProblemView_effect uid pid w fs Hdb Hu Hp) as (t & _ & Heff).
  eapply doc_effect_step; [exact Heff|].
  right. left. exists t. unfold remote, doc_at. by rewrite Hdb.
Qed.

Lemma updateTimeSpent_step userId problemId seconds w u p :
  let w' := (updateTimeSpent userId problemId seconds w).2 in
  remote u p w' = remote u p w \/
  exists d, remote u p w' = Some d /\ doc_step p (remote u p w) d.
Proof.
  simpl.
  destruct (db w) as [fs|] eqn:Hdb; [|left; by unfold updateTimeSpent; rewrite Hdb].
  destruct (truthy userId) as [uid|] eqn:Hu;
    [|left; by unfold updateTimeSpent; rewrite Hdb, Hu].
  destruct (truthy problemId) as [pid|] eqn:Hp;
    [|left; by unfold updateTimeSpent; rewrite Hdb, Hu, Hp].
  destruct (decide (0 < seconds)) as [Hs|Hs];
    [|left; rewrite updateTimeSpent_idle; [done|intros; lia]].
  destruct (doc_at uid pid fs) as [old|] eqn:Hold.
  - apply truthy_Some in Hu as [-> Hu]. apply truthy_Some in Hp as [-> Hp].
    pose proof (updateTimeSpent_effect uid pid seconds old w fs Hdb Hu Hp Hs Hold) as Heff.
    eapply doc_effect_step; [exact Heff|].
    right. right. exists old, seconds, (serverClock fs). unfold remote. rewrite Hdb. done.
  - left. rewrite updateTimeSpent_idle; [done|].
    intros fs0 uid1 pid1 Hdb0 Hu1 Hp1 _. congruence.
Qed.

Lemma createOrUpdateUserProfile_remote user w u p :
  remote u p (createOrUpdateUserProfile user w).2 = remote u p w.
Proof.
  destruct (db w) as [fs|] eqn:Hdb; [|by unfold createOrUpdateUserProfile; rewrite Hdb].
  destruct user as [usr|]; [|by unfold createOrUpdateUserProfile; rewrite Hdb].
  rewrite (createOrUpdateUserProfile_effect usr w fs Hdb). unfold remote. by rewrite Hdb.
Qed.

(** A relation between the versions of a record that is reflexive,
    transitive and holds across one [doc_step] holds across any run. *)
Lemma run_ops_history (R : string -> option ProgressDoc -> option ProgressDoc -> Prop) :
  (forall p o, R p o o) ->
  (forall p o1 o2 o3, R p o1 o2 -> R p o2 o3 -> R p o1 o3) ->
  (forall p o d, doc_step p o d -> R p o (Some d)) ->
  forall ops w u p, R p (remote u p w) (remote u p (run_ops ops w)).
Proof.
  intros Hrefl Htrans Hstep ops w.
  apply (run_ops_keeps (fun w' => forall u p, R p (remote u p w) (remote u p w'))); [..|done].
  - intros user w' H u p. by rewrite createOrUpdateUserProfile_remote.
  - intros userId problemId st w' H u p.
    destruct (updateProblemProgress_step userId problemId st w' u p) as [->|(d & -> & Hd)];
      [done|]. eapply Htrans; [apply H|by apply Hstep].
  - intros userId problemId w' H u p.
    destruct (recordProblemView_step userId problemId w' u p) as [->|(d & -> & Hd)];
      [done|]. eapply Htrans; [apply H|by apply Hstep].
  - intros userId problemId seconds w' H u p.
    destruct (updateTimeSpent_step userId problemId seconds w' u p) as [->|(d & -> & Hd)];
      [done|]. eapply Htrans; [apply H|by apply Hstep].
  - intros st w' H u p. apply H.
Qed.

Lemma doc_step_ok p o d :
  doc_step p o d -> (forall old, o = Some old -> record_ok p old) -> record_ok p d.
Proof.
  intros [(st & t & ->)|[(t & ->)|(old & seconds & t & -> & _ & ->)]] Hok.
  - destruct o as [old|]; simpl.
    + destruct (Hok old eq_refl) as (Hid & Hcat & Hview & Hsolved).
      split_and!; try done. simpl. intros ->. rewrite enters_solved_Some.
      rewrite bool_decide_eq_true_2 by done. simpl.
      destruct (decide (status old = "solved")) as [Hs|Hs];
        [rewrite bool_decide_eq_true_2 by done; auto
        |rewrite bool_decide_eq_false_2 by done; by eexists].
    + unfold new_progress. split_and!; simpl; try done.
      intros ->. rewrite decide_True by done. by eexists.
  - destruct o as [old|]; simpl.
    + destruct (Hok old eq_refl) as (Hid & Hcat & Hview & Hsolved).
      split_and!; simpl; try done. lia.
    + split_and!; simpl; try done.
  - destruct (Hok old eq_refl) as (Hid & Hcat & Hview & Hsolved). by split_and!.
Qed.

Lemma doc_step_later p old d : doc_step p (Some old) d -> later_version old d.
Proof.
  intros [(st & t & ->)|[(t & ->)|(old' & seconds & t & [= <-] & Hs & ->)]];
    unfold later_version; simpl; split_and!; try done; try lia.
  destruct (enters_solved (Some (status old)) st); [by eexists|done].
Qed.

Lemma later_version_trans d1 d2 d3 :
  later_version d1 d2 -> later_version d2 d3 -> later_version d1 d3.
Proof.
  intros (? & ? & ? & ? & ? & ?) (? & ? & ? & ? & ? & ?).
  unfold later_version. split_and!; try congruence; try lia; auto.
Qed.

Lemma run_ops_records_ok ops w : records_ok w -> records_ok (run_ops ops w).
Proof.
  intros Hok uid pid d Hd.
  pose proof (run_ops_history
    (fun p o o' => (forall old, o = Some old -> record_ok p old) ->
                   forall d', o' = Some d' -> record_ok p d')) as Hrun.
  simpl in Hrun. apply (Hrun) with (ops := ops) (w := w) (u := uid) (p := pid).
  - auto.
  - auto.
  - intros p o d0 Hstep Ho d' [= <-]. by eapply doc_step_ok.
  - intros old Hold. eapply Hok, Hold.
  - exact Hd.
Qed.

(** X2.  Over any run of calls every progress record keeps the shape
    it is created with: its [problemId] field is its document id, its
    [viewCount] is at least 1, a record whose status is 'solved' has
    [solvedAt] set, and its category is the one PROBLEM_CATEGORIES holds
    for the id's prefix, 'Unknown' when the prefix is no property of
    that object.  No category is claimed for an id whose prefix names a
    member of Object.prototype (constructor, toString, ...): the lookup
    finds the inherited function there. *)
Theorem records_stay_ok ops w : records_ok w -> records_ok (run_ops ops w).
Proof.
  intros Hok uid pid d Hd. by apply (run_ops_records_ok ops w Hok uid pid d).
Qed.

Lemma records_stay_ok_witness :
  records_ok
    (run_ops [Push (Some "u1"); View (Some "u1") (Some "mlsd_2");
              Time (Some "u1") (Some "lc_1") 40;
              Progress (Some "u2") (Some "lc_1") "solved"] first_login).
Proof.
  apply records_stay_ok. intros uid pid d H. unfold remote in H. simpl in H.
  rewrite lookup_empty in H. discriminate.
Defined.

(** X3.  No call of the module deletes a progress record or rewrites
    what was fixed at its creation: a record that exists still exists
    after any run of calls, with the same [problemId], [category] and
    [firstAccessedAt], a [viewCount] and a [timeSpent] that are not
    smaller, and a [solvedAt] that is still set if it was (a solved
    record set back to another status keeps its [solvedAt]). *)
Theorem records_persist ops w uid pid d :
  remote uid pid w = Some d ->
  exists d', remote uid pid (run_ops ops w) = Some d' /\ later_version d d'.
Proof.
  pose proof (run_ops_history
    (fun p o o' => forall old, o = Some old ->
                   exists d', o' = Some d' /\ later_version old d')) as Hrun.
  apply Hrun.
  - intros p o old ->. exists old. split; [done|]. unfold later_version. by split_and!.
  - intros p o1 o2 o3 H12 H23 old Hold.
    destruct (H12 old Hold) as (d2 & Hd2 & Hl12).
    destruct (H23 d2 Hd2) as (d3 & Hd3 & Hl23).
    exists d3. split; [done|]. by eapply later_version_trans.
  - intros p o d0 Hstep old ->. exists d0. split; [done|]. by eapply doc_step_later.
Qed.

Lemma records_persist_witness :
  exists d', remote "u1" "lc_1"
               (run_ops [Push (Some "u1"); Time (Some "u1") (Some "lc_1") 40;
                         View (Some "u1") (Some "lc_1")] stale_device) = Some d' /\
             later_version (mkProgress "lc_1" "LeetCode" "solved" 1 2 None (Some 2) 0 1) d'.
Proof. apply records_persist. reflexivity. Defined.

(** *** Sign-ins *)

Lemma updateUserStats_profile u0 userId d w :
  profile u0 (updateUserStats userId d w).2 = profile u0 w.
Proof.
  unfold updateUserStats.
  destruct (db w) as [fs|] eqn:Hdb; [|done].
  destruct (truthy userId) as [uid|]; [|done].
  unfold user_update. destruct (userDocs fs !! uid) as [u|] eqn:Hu; [|done].
  unfold profile. simpl. rewrite Hdb. simpl.
  destruct (decide (u0 = uid)) as [->|Hne];
    [by rewrite lookup_insert_eq, Hu|by rewrite lookup_insert_ne].
Qed.

Lemma profile_same u0 w w' fs fs' :
  db w = Some fs -> db w' = Some fs' -> userDocs fs' = userDocs fs ->
  profile u0 w' = profile u0 w.
Proof. intros H1 H2 H3. unfold profile. rewrite H1, H2. simpl. by rewrite H3. Qed.

Lemma updateUserStats_db userId d w fs :
  db w = Some fs -> exists fs', db (updateUserStats userId d w).2 = Some fs'.
Proof.
  intros Hdb. unfold updateUserStats. rewrite Hdb.
  destruct (truthy userId) as [uid|]; [|eauto].
  destruct (user_update uid (apply_stats d) fs); simpl; eauto.
Qed.

Lemma updateProblemProgress_profile u0 userId problemId st w :
  profile u0 (updateProblemProgress userId problemId st w).2 = profile u0 w.
Proof.
  unfold updateProblemProgress.
  destruct (db w) as [fs|] eqn:Hdb; [|done].
  destruct (truthy userId) as [uid|]; [|done].
  destruct (truthy problemId) as [pid|]; [|done].
  destruct (progress_get uid pid fs) as [data|] eqn:Hget.
  - cbv zeta.
    set (w1 := if bool_decide (st = "solved") && negb (bool_decide (status data = "solved"))
               then (updateUserStats (Some uid) (mkDelta 1 0 0) w).2 else w).
    assert (profile u0 w1 = profile u0 w) as H1.
    { unfold w1. destruct (_ && _); [apply updateUserStats_profile|done]. }
    assert (exists fs1, db w1 = Some fs1) as [fs1 Hdb1].
    { unfold w1. destruct (_ && _); [by eapply updateUserStats_db|eauto]. }
    rewrite Hdb1. simpl. unfold progress_update.
    destruct (progressDocs fs1 !! (uid, pid)); simpl; [|done].
    rewrite <- H1. by eapply profile_same.
  - simpl. rewrite updateUserStats_profile. by eapply profile_same.
Qed.

Lemma recordProblemView_profile u0 userId problemId w :
  profile u0 (recordProblemView userId problemId w).2 = profile u0 w.
Proof.
  unfold recordProblemView.
  destruct (db w) as [fs|] eqn:Hdb; [|done].
  destruct (truthy userId) as [uid|]; [|done].
  destruct (truthy problemId) as [pid|]; [|done].
  destruct (progress_get uid pid fs) as [data|] eqn:Hget.
  - unfold progress_update. unfold progress_get in Hget. rewrite Hget. simpl.
    by eapply profile_same.
  - simpl. rewrite updateUserStats_profile. by eapply profile_same.
Qed.

Lemma updateTimeSpent_profile u0 userId problemId seconds w :
  profile u0 (updateTimeSpent userId problemId seconds w).2 = profile u0 w.
Proof.
  unfold updateTimeSpent.
  destruct (db w) as [fs|] eqn:Hdb; [|done].
  destruct (truthy userId) as [uid|]; [|done].
  destruct (truthy problemId) as [pid|]; [|done].
  destruct (decide (seconds <= 0)); [done|].
  unfold progress_update. destruct (progressDocs fs !! (uid, pid)); simpl; [|done].
  rewrite updateUserStats_profile. by eapply profile_same.
Qed.

Lemma run_ops_db ops w fs : db w = Some fs -> is_Some (db (run_ops ops w)).
Proof.
  intros Hdb.
  apply (run_ops_keeps (fun w' => is_Some (db w'))); [..|by rewrite Hdb].
  - intros user w' [fs' H]. destruct user as [u|].
    + by rewrite (createOrUpdateUserProfile_effect u w' fs' H).
    + unfold createOrUpdateUserProfile. by rewrite H.
  - intros userId problemId st w' [fs' H].
    destruct (updateProblemProgress_db userId problemId st w' fs' H) as [fs2 ->]. done.
  - intros userId problemId w' [fs' H]. unfold recordProblemView. rewrite H.
    destruct (truthy userId) as [uid|]; [|by simpl; rewrite H].
    destruct (truthy problemId) as [pid|]; [|by simpl; rewrite H].
    destruct (progress_get uid pid fs').
    + destruct (progress_update uid pid viewed fs'); simpl; [done|by rewrite H].
    + simpl. by edestruct updateUserStats_db as [? ->].
  - intros userId problemId seconds w' [fs' H]. unfold updateTimeSpent. rewrite H.
    destruct (truthy userId) as [uid|]; [|by simpl; rewrite H].
    destruct (truthy problemId) as [pid|]; [|by simpl; rewrite H].
    destruct (decide (seconds <= 0)); [by simpl; rewrite H|].
    destruct (progress_update uid pid (add_time seconds) fs'); simpl; [|by rewrite H].
    by edestruct updateUserStats_db as [? ->].
  - intros st w' H. done.
Qed.

Lemma run_op_profile u0 o w :
  (forall user, o <> Login user) -> profile u0 (run_op w o) = profile u0 w.
Proof.
  intros Hnot. destruct o as [user|u p st|u p|u p n|u|u]; simpl.
  - by destruct (Hnot user).
  - apply updateProblemProgress_profile.
  - apply recordProblemView_profile.
  - apply updateTimeSpent_profile.
  - unfold syncLocalStorageToFirestore.
    destruct (db w), (truthy u); simpl; try done.
    apply (push_keys_keeps (fun w' => profile u0 w' = profile u0 w)); [|done].
    intros p0 s0 w0 H. by rewrite updateProblemProgress_profile.
  - destruct (syncFirestoreToLocalStorage_storage u w) as [st ->]. done.
Qed.

Lemma createOrUpdateUserProfile_profile u0 u w fs :
  db w = Some fs ->
  profile u0 (createOrUpdateUserProfile (Some u) w).2 =
  if decide (Page.uid u = u0)
  then Some (match profile u0 w with
             | Some c => (c.1.1, serverClock fs, c.2 + 1)
             | None => (serverClock fs, serverClock fs, 1)
             end)
  else profile u0 w.
Proof.
  intros Hdb. rewrite (createOrUpdateUserProfile_effect u w fs Hdb).
  unfold profile. rewrite Hdb. simpl.
  destruct (decide (Page.uid u = u0)) as [<-|Hne].
  - rewrite lookup_insert_eq. by destruct (userDocs fs !! Page.uid u).
  - by rewrite lookup_insert_ne.
Qed.

Lemma run_op_logins uid o w fs :
  db w = Some fs ->
  totalLoginsOf uid (run_op w o) = totalLoginsOf uid w + logins uid [o] /\
  forall c, profile uid w = Some c ->
            exists c', profile uid (run_op w o) = Some c' /\ c'.1.1 = c.1.1.
Proof.
  intros Hdb. unfold totalLoginsOf.
  destruct o as [[u|]|u p st|u p|u p n|u|u];
    try (rewrite run_op_profile by done; simpl; split; [lia|eauto]).
  - simpl. rewrite (createOrUpdateUserProfile_profile uid u w fs Hdb).
    destruct (decide (Page.uid u = uid)); [|split; [lia|eauto]].
    destruct (profile uid w) as [c|]; simpl; split; try done.
    intros c0 [= <-]. eauto.
  - simpl. unfold createOrUpdateUserProfile. rewrite Hdb. simpl. split; [lia|eauto].
Qed.

(** X4.  With Firestore initialised, [totalLogins] of a user's document
    counts the calls of createOrUpdateUserProfile for that user: after
    any run of calls it has grown by the number of those calls (from 0
    when there was no document), whatever progress and sync calls are in
    between; and the document's [createdAt] is the one of the first
    sign-in. *)
Theorem totalLogins_counts_sign_ins uid ops w fs :
  db w = Some fs ->
  totalLoginsOf uid (run_ops ops w) = totalLoginsOf uid w + logins uid ops /\
  forall c, profile uid w = Some c ->
            exists c', profile uid (run_ops ops w) = Some c' /\ c'.1.1 = c.1.1.
Proof.
  revert w fs. induction ops as [|o ops IH]; intros w fs Hdb.
  - simpl. split; [lia|eauto].
  - destruct (run_op_logins uid o w fs Hdb) as [Hn Hc].
    destruct (run_ops_db [o] w fs Hdb) as [fs1 Hdb1].
    change (db (run_op w o) = Some fs1) in Hdb1.
    destruct (IH (run_op w o) fs1 Hdb1) as [IHn IHc].
    change (run_ops (o :: ops) w) with (run_ops ops (run_op w o)).
    split.
    + rewrite IHn, Hn. simpl.
      destruct o as [[u|]| | | | |]; try lia. destruct (decide (Page.uid u = uid)); lia.
    + intros c H. destruct (Hc c H) as (c1 & H1 & <-). by apply IHc.
Qed.

Lemma totalLogins_counts_sign_ins_witness :
  totalLoginsOf "u2"
    (run_ops [Login (Some Auth.bob); Progress (Some "u2") (Some "lc_7") "working";
              Login (Some Auth.alice); Login (Some Auth.bob)] first_login) = 2.
Proof.
  destruct (totalLogins_counts_sign_ins "u2"
              [Login (Some Auth.bob); Progress (Some "u2") (Some "lc_7") "working";
               Login (Some Auth.alice); Login (Some Auth.bob)] first_login _ eq_refl)
    as [H _].
  rewrite H. reflexivity.
Defined.

(** *** getAllProgress *)

#[local] Instance newer_first_trans : Transitive newer_first.
Proof. intros a b c. unfold newer_first. lia. Qed.

#[local] Instance newer_first_total : Total newer_first.
Proof. intros a b. unfold newer_first. lia. Qed.

Lemma docs_of_spec uid m :
  NoDup (docs_of uid m).*1 /\
  forall pid d, (pid, d) ∈ docs_of uid m <-> m !! (uid, pid) = Some d.
Proof.
  induction m as [|[u p] x m Hnone _ [IHnd IHin]] using map_first_key_ind.
  - split; [constructor|]. intros pid d. unfold docs_of. rewrite map_to_list_empty. simpl.
    rewrite lookup_empty. split; [by intros ?%elem_of_nil|done].
  - pose proof (docs_of_insert_fresh uid u p x m Hnone) as Hperm. split.
    + rewrite Hperm. destruct (decide (u = uid)) as [->|]; simpl; [|done].
      constructor; [|done]. intros ((p' & d') & Heq & Hin)%list_elem_of_fmap. simpl in Heq.
      subst p'. apply IHin in Hin. congruence.
    + intros pid d. rewrite Hperm, elem_of_app, IHin.
      destruct (decide (u = uid)) as [->|Hne].
      * rewrite list_elem_of_singleton.
        destruct (decide (p = pid)) as [->|Hp].
        -- rewrite lookup_insert_eq. split; [intros [[= ->]|H]; congruence|intros [= ->]; auto].
        -- rewrite lookup_insert_ne by congruence. split; [intros [[= ? ?]|H]; done|auto].
      * rewrite lookup_insert_ne by congruence. split; [intros [?%elem_of_nil|H]; done|auto].
Qed.

(** X5.  getAllProgress returns the progress records of the user, each
    one once, newest [lastUpdatedAt] first; it returns no record when
    Firestore is not initialised or the user id is missing or empty. *)
Theorem getAllProgress_newest_first userId w :
  StronglySorted newer_first (getAllProgress userId w) /\
  NoDup (getAllProgress userId w).*1 /\
  forall pid d, (pid, d) ∈ getAllProgress userId w <->
                exists uid, truthy userId = Some uid /\ remote uid pid w = Some d.
Proof.
  unfold getAllProgress, remote.
  destruct (db w) as [fs|]; simpl.
  - destruct (truthy userId) as [uid|].
    + split_and!.
      * apply (StronglySorted_merge_sort _).
      * rewrite merge_sort_Permutation. apply (docs_of_spec uid (progressDocs fs)).
      * intros pid d. rewrite merge_sort_Permutation.
        change (progress_of uid fs) with (docs_of uid (progressDocs fs)).
        rewrite (proj2 (docs_of_spec uid (progressDocs fs))).
        split; [eauto|by intros (? & [= <-] & ?)].
    + split_and!; [constructor|constructor|].
      intros pid d. split; [by intros ?%elem_of_nil|by intros (? & ? & ?)].
  - destruct (truthy userId); (split_and!; [constructor|constructor|]);
      intros pid d; (split; [by intros ?%elem_of_nil|by intros (? & ? & ?)]).
Qed.

(** *** syncLocalStorageToFirestore *)

Lemma push_keys_count uid ks w n :
  (push_keys uid ks w n).1 =
  (n + length (filter (fun k => usable (localStorage w) k = true) ks))%nat.
Proof.
  revert w n. induction ks as [|key ks IH]; intros w n; simpl; [lia|].
  destruct (usable (localStorage w) key) eqn:Hus.
  - rewrite filter_cons_True by done. unfold usable in Hus. simpl in Hus.
    destruct (truthy (getItem key (localStorage w))) as [s|]; [|done].
    destruct (decide (replace "progress_" "" key = "")); [done|].
    rewrite IH, updateProblemProgress_local. simpl. lia.
  - rewrite filter_cons_False by congruence. unfold usable in Hus. simpl in Hus.
    destruct (truthy (getItem key (localStorage w))) as [s|]; [|apply IH].
    destruct (decide (replace "progress_" "" key = "")); [apply IH|done].
Qed.

Lemma usable_migrates st key :
  usable st key = true /\ startsWith "progress_" key = true <-> migrates st key = true.
Proof.
  unfold usable, migrates.
  destruct (startsWith "progress_" key) eqn:Hpre; simpl; [|split; [by intros [_ ?]|done]].
  assert (replace "progress_" "" key = "" <-> key = "progress_") as Hkey.
  { split.
    - intros H. rewrite <- (replace_prefix _ _ Hpre), H. done.
    - intros ->. reflexivity. }
  destruct (getItem key st) as [s|]; simpl; [|split; [by intros [? _]|by rewrite andb_false_r]].
  destruct (decide (s = "")) as [->|Hs]; simpl.
  - rewrite andb_false_r. split; [by intros [? _]|done].
  - rewrite (bool_decide_eq_false_2 (s = "")) by done. simpl. rewrite andb_true_r.
    destruct (decide (replace "progress_" "" key = "")) as [He|He].
    + rewrite bool_decide_eq_true_2 by by apply Hkey. split; [by intros [? _]|done].
    + rewrite bool_decide_eq_false_2 by (by rewrite <- Hkey). done.
Qed.

(** X6.  With Firestore initialised and a user id,
    syncLocalStorageToFirestore returns the number of localStorage
    entries whose key is progress_<id> with a non-empty id and a
    non-empty value; it leaves localStorage as it is; afterwards the
    remote record of every such id exists and has the local value as its
    status; and the remote record of an id with no local entry is the
    one from before. *)
Theorem syncLocalStorageToFirestore_migrates uid w fs :
  db w = Some fs -> uid <> "" ->
  let r := syncLocalStorageToFirestore (Some uid) w in
  r.1 = length (filter (fun k => migrates (localStorage w) k = true) (keys (localStorage w))) /\
  localStorage r.2 = localStorage w /\
  (forall pid s, pid <> "" -> s <> "" -> localStatus pid w = Some s ->
                 remoteStatus uid pid r.2 = Some s) /\
  (forall pid, localStatus pid w = None -> remote uid pid r.2 = remote uid pid w).
Proof.
  intros Hdb Hu. simpl. unfold syncLocalStorageToFirestore.
  rewrite Hdb, (truthy_of_Some _ Hu). split_and!.
  - rewrite push_keys_count. simpl. unfold progressKeys. rewrite list_filter_filter.
    f_equal. apply list_filter_iff. intros k. apply usable_migrates.
  - apply push_keys_local.
  - intros pid s Hp Hs Hloc.
    rewrite <- (replace_app "progress_" pid) at 1.
    apply (push_pushed uid w fs Hdb Hu ("progress_" ++ pid)%string s).
    + by rewrite push_keys_local.
    + apply prefix_app.
    + done.
    + by rewrite replace_app.
  - intros pid Hnone.
    destruct (push_keys_effect uid (progressKeys w) w 0 fs pid Hu Hdb)
      as [H|(key & s & Hin & Hrep & Hget & _)]; [done|].
    apply elem_of_progressKeys in Hin as [Hpre _].
    apply replace_prefix in Hpre. rewrite Hrep in Hpre. subst key.
    unfold localStatus in Hnone. congruence.
Qed.

Lemma syncLocalStorageToFirestore_migrates_witness :
  (syncLocalStorageToFirestore (Some "u1") first_login).1 = 1%nat /\
  remoteStatus "u1" "lc_1" (syncLocalStorageToFirestore (Some "u1") first_login).2
    = Some "solved".
Proof.
  destruct (syncLocalStorageToFirestore_migrates "u1" first_login _ eq_refl)
    as (Hcount & _ & Hpush & _); [done|].
  split; [rewrite Hcount; reflexivity|by apply Hpush].
Defined.

(** *** syncFirestoreToLocalStorage *)

Lemma pull_items_count l st n :
  pull_items l st n =
  if quotaExceeded st then (n, st)
  else ((n + length l)%nat, (pull_items l st n).2).
Proof.
  revert st n. induction l as [|it l IH]; intros st n; simpl.
  - rewrite Nat.add_0_r. by destruct (quotaExceeded st).
  - unfold setItem. destruct (quotaExceeded st) eqn:Hq; [done|].
    rewrite IH at 1. simpl. f_equal. lia.
Qed.

(** X7.  With Firestore initialised and a user id,
    syncFirestoreToLocalStorage never writes to Firestore.  When
    localStorage accepts writes it returns the number of the user's
    records, stores the status of every record under progress_<id>,
    and leaves every other key as it was; when localStorage refuses
    writes it returns 0 and changes nothing.  (The records carry their id
    in [problemId], as every write of the module makes them.) *)
Theorem syncFirestoreToLocalStorage_mirrors uid w fs :
  db w = Some fs -> uid <> "" -> wf_remote uid w ->
  let r := syncFirestoreToLocalStorage (Some uid) w in
  db r.2 = db w /\
  (quotaExceeded (localStorage w) = true -> r = (0%nat, w)) /\
  (quotaExceeded (localStorage w) = false ->
     r.1 = length (progress_of uid fs) /\
     (forall pid d, remote uid pid w = Some d -> localStatus pid r.2 = Some (status d)) /\
     (forall k, (forall pid, is_Some (remote uid pid w) -> k <> ("progress_" ++ pid)%string) ->
                getItem k (localStorage r.2) = getItem k (localStorage w))).
Proof.
  intros Hdb Hu Hwf. simpl. unfold syncFirestoreToLocalStorage.
  rewrite Hdb, (truthy_of_Some _ Hu). simpl. split_and!; [done|..].
  - intros Hq. rewrite pull_items_count, Hq. simpl. by destruct w.
  - intros Hq. split_and!.
    + rewrite pull_items_count, Hq. simpl. unfold getAllProgress.
      rewrite Hdb, (truthy_of_Some _ Hu). by rewrite merge_sort_Permutation.
    + intros pid d Hd. unfold localStatus, getItem. simpl.
      pose proof Hd as Hin.
      apply (elem_of_getAllProgress uid w fs pid d Hdb Hu) in Hin.
      destruct (pull_items_sets _ (localStorage w) 0 (pid, d) Hq Hin)
        as ([p' d'] & Hin' & Hkey & Hv).
      apply (elem_of_getAllProgress uid w fs p' d' Hdb Hu) in Hin'.
      pose proof (key_of_inj p' d' pid d (Hwf _ _ Hin') (Hwf _ _ Hd) Hkey) as ->.
      assert (d' = d) as -> by congruence.
      unfold key_of in Hv. simpl in Hv. by rewrite (Hwf _ _ Hd) in Hv.
    + intros k Hk. unfold getItem. simpl.
      destruct (pull_items_lookup (getAllProgress (Some uid) w) (localStorage w) 0 k Hq)
        as [Hsame|([p d] & Hin & Hkey & _)]; [done|].
      apply (elem_of_getAllProgress uid w fs p d Hdb Hu) in Hin.
      destruct (Hk p); [by eexists|].
      rewrite <- Hkey. unfold key_of. simpl. by rewrite (Hwf _ _ Hin).
Qed.

Lemma syncFirestoreToLocalStorage_mirrors_witness :
  (syncFirestoreToLocalStorage (Some "u1") stale_device).1 = 1%nat /\
  localStatus "lc_1" (syncFirestoreToLocalStorage (Some "u1") stale_device).2
    = Some "solved".
Proof.
  destruct (syncFirestoreToLocalStorage_mirrors "u1" stale_device _ eq_refl)
    as (_ & _ & Hpull); [done| |].
  - intros pid d H. unfold remote in H. simpl in H.
    apply lookup_singleton_Some in H as [[= <-] <-]. reflexivity.
  - destruct (Hpull eq_refl) as (Hcount & Hmirror & _).
    split; [rewrite Hcount; reflexivity|]. by rewrite (Hmirror "lc_1" _ eq_refl).
Defined.

(** *** Reconciliation of records that exist on one side only *)

Lemma reconcile_mirrored uid w fs :
  db w = Some fs -> uid <> "" -> wf_remote uid w ->
  quotaExceeded (localStorage w) = false ->
  forall pid d, remote uid pid (reconcile (Some uid) w) = Some d ->
                localStatus pid (reconcile (Some uid) w) = Some (status d).
Proof.
  intros Hdb Hu Hwf Hq pid d Hd.
  destruct (reconcile_in_sync uid w fs Hdb Hu Hwf) as [_ [Hquota|Hmirror]].
  - rewrite (reconcile_eq uid w fs Hdb Hu) in Hquota. simpl in Hquota.
    rewrite pull_items_quota in Hquota. congruence.
  - pose proof (Hmirror pid d Hd) as H. unfold key_of in H. simpl in H.
    by rewrite (reconcile_wf uid uid w fs Hdb Hu Hwf pid d Hd) in H.
Qed.

Lemma reconcile_remote uid w fs u p :
  db w = Some fs -> uid <> "" ->
  remote u p (reconcile (Some uid) w) = remote u p (push_keys uid (progressKeys w) w 0).2.
Proof. intros Hdb Hu. by rewrite (reconcile_eq uid w fs Hdb Hu). Qed.

(** X8.  Reconciliation carries over what exists on one side only
    (localStorage accepting writes, the records carrying their id): a
    remote record with no local entry is left as it is and its status is
    written to localStorage under progress_<id>; a local entry
    progress_<id> with a non-empty id and value ends with a remote record
    of that status, also when there was none before, and keeps its
    value. *)
Theorem reconcile_unions_ledgers uid w fs :
  db w = Some fs -> uid <> "" -> wf_remote uid w ->
  quotaExceeded (localStorage w) = false ->
  let w' := reconcile (Some uid) w in
  (forall pid d, remote uid pid w = Some d -> localStatus pid w = None ->
                 remote uid pid w' = Some d /\ localStatus pid w' = Some (status d)) /\
  (forall pid s, localStatus pid w = Some s -> s <> "" -> pid <> "" ->
                 exists d, remote uid pid w' = Some d /\ status d = s /\
                           localStatus pid w' = Some s).
Proof.
  intros Hdb Hu Hwf Hq. simpl. split.
  - intros pid d Hd Hnone.
    assert (remote uid pid (reconcile (Some uid) w) = Some d) as Hd'.
    { rewrite (reconcile_remote uid w fs uid pid Hdb Hu).
      destruct (push_keys_effect uid (progressKeys w) w 0 fs pid Hu Hdb)
        as [->|(key & s & Hin & Hrep & Hget & _)]; [done|].
      apply elem_of_progressKeys in Hin as [Hpre _].
      apply replace_prefix in Hpre. rewrite Hrep in Hpre. subst key.
      unfold localStatus in Hnone. congruence. }
    split; [done|]. by apply (reconcile_mirrored uid w fs).
  - intros pid s Hloc Hs Hp.
    pose proof (push_pushed uid w fs Hdb Hu ("progress_" ++ pid)%string s) as Hpush.
    rewrite replace_app, push_keys_local in Hpush.
    specialize (Hpush Hloc (prefix_app _ _) Hs Hp).
    unfold remoteStatus in Hpush. rewrite <- (reconcile_remote uid w fs uid pid Hdb Hu) in Hpush.
    destruct (remote uid pid (reconcile (Some uid) w)) as [d|] eqn:Hd; [|done].
    injection Hpush as Hst. exists d. split_and!; [done|done|].
    rewrite <- Hst. by apply (reconcile_mirrored uid w fs).
Qed.

Lemma reconcile_unions_ledgers_witness :
  localStatus "lc_2" (reconcile (Some "u1") split_ledgers) = Some "solved" /\
  exists d, remote "u1" "lc_1" (reconcile (Some "u1") split_ledgers) = Some d /\
            status d = "working" /\
            localStatus "lc_1" (reconcile (Some "u1") split_ledgers) = Some "working".
Proof.
  destruct (reconcile_unions_ledgers "u1" split_ledgers _ eq_refl) as [Hremote Hlocal];
    [done| |reflexivity|].
  - intros pid d H. unfold remote in H. simpl in H.
    apply lookup_singleton_Some in H as [[= <-] <-]. reflexivity.
  - split; [|by apply Hlocal].
    by destruct (Hremote "lc_2" _ eq_refl eq_refl) as [_ ->].
Defined.

(** *** getUserStats *)

Lemma sum_categories_insert_fresh f k v m :
  m !! k = None -> sum_categories f (<[k := v]> m) = f v + sum_categories f m.
Proof.
  intros Hnone. unfold sum_categories. rewrite map_fold_insert_L; [done| |done].
  intros. lia.
Qed.

Lemma sum_categories_insert f k v m :
  sum_categories f (<[k := v]> m) = sum_categories f m + f v - from_option f 0 (m !! k).
Proof.
  destruct (m !! k) as [old|] eqn:Hold; simpl.
  - rewrite <- (insert_delete_eq m k v).
    rewrite <- (insert_delete_id m k old Hold) at 2.
    rewrite !sum_categories_insert_fresh by apply lookup_delete_eq. lia.
  - rewrite sum_categories_insert_fresh by done. lia.
Qed.

Lemma count_doc_step acc d :
  let t := count_doc acc d in
  totalAccessed t = totalAccessed acc + 1 /\
  totalSolved t = totalSolved acc + solved_flag d /\
  sum_categories cs_accessed (categoryStats t)
    = sum_categories cs_accessed (categoryStats acc) + 1 /\
  sum_categories cs_solved (categoryStats t)
    = sum_categories cs_solved (categoryStats acc) + solved_flag d /\
  sum_categories cs_timeSpent (categoryStats t)
    = sum_categories cs_timeSpent (categoryStats acc) + timeSpent d /\
  (map_Forall (fun _ => category_ok) (categoryStats acc) ->
   map_Forall (fun _ => category_ok) (categoryStats t)).
Proof.
  simpl. unfold count_doc, solved_flag. simpl.
  set (cat := if decide (category d = "") then "Unknown" else category d).
  rewrite !sum_categories_insert.
  split_and!; [done|destruct (decide (status d = "solved")); lia|..].
  - destruct (categoryStats acc !! cat) as [cs|]; simpl;
      repeat (case_decide; simpl); lia.
  - destruct (categoryStats acc !! cat) as [cs|]; simpl;
      repeat (case_decide; simpl); lia.
  - destruct (categoryStats acc !! cat) as [cs|]; simpl;
      repeat (case_decide; simpl); lia.
  - intros Hall. apply map_Forall_insert_2; [|done].
    destruct (categoryStats acc !! cat) as [cs|] eqn:Hcs; simpl.
    + destruct (Hall cat cs Hcs) as (? & ? & ? & ? & ?).
      unfold category_ok. repeat (case_decide; simpl); lia.
    + unfold category_ok. repeat (case_decide; simpl); lia.
Qed.

Lemma count_docs_fold docs acc :
  let t := foldl (fun acc it => count_doc acc it.2) acc docs in
  totalAccessed t = totalAccessed acc + sum_docs (fun _ => 1) docs /\
  totalSolved t = totalSolved acc + sum_docs solved_flag docs /\
  sum_categories cs_accessed (categoryStats t)
    = sum_categories cs_accessed (categoryStats acc) + sum_docs (fun _ => 1) docs /\
  sum_categories cs_solved (categoryStats t)
    = sum_categories cs_solved (categoryStats acc) + sum_docs solved_flag docs /\
  sum_categories cs_timeSpent (categoryStats t)
    = sum_categories cs_timeSpent (categoryStats acc) + sum_docs timeSpent docs /\
  (map_Forall (fun _ => category_ok) (categoryStats acc) ->
   map_Forall (fun _ => category_ok) (categoryStats t)).
Proof.
  revert acc. induction docs as [|it docs IH]; intros acc; simpl.
  - split_and!; try lia. done.
  - destruct (IH (count_doc acc it.2)) as (H1 & H2 & H3 & H4 & H5 & H6).
    destruct (count_doc_step acc it.2) as (S1 & S2 & S3 & S4 & S5 & S6).
    simpl in *. split_and!; try lia. auto.
Qed.

Lemma getUserStats_Some uid w r :
  getUserStats (Some uid) w = Some r ->
  exists fs u, db w = Some fs /\ userDocs fs !! uid = Some u /\
               r = mkReport (createdAt u) (lastLoginAt u) (totalLogins u)
                            (totalAccessed (count_docs (progress_of uid fs)))
                            (totalSolved (count_docs (progress_of uid fs)))
                            (totalTimeSpent (stats u)) (lastActivityAt (stats u))
                            (categoryStats (count_docs (progress_of uid fs))).
Proof.
  unfold getUserStats. destruct (db w) as [fs|]; [|done].
  destruct (truthy (Some uid)) as [uid'|] eqn:Hu; [|done].
  apply truthy_Some in Hu as [[= <-] _].
  destruct (userDocs fs !! uid) as [u|] eqn:Hud; [|done]. intros [= <-].
  by exists fs, u.
Qed.

(** X9.  The report of getUserStats agrees with the progress records:
    [overall.problemsAccessed] is the number of the user's records and
    [overall.problemsSolved] the number of them with status 'solved';
    the [accessed], [solved] and [timeSpent] entries of [byCategory] add
    up to the number of records, the number of solved records and the
    sum of the records' [timeSpent]; every category listed stands for at
    least one record, and its [solved], [working] and [needHelp]
    counters together do not exceed its [accessed]. *)
Theorem getUserStats_totals uid w r :
  getUserStats (Some uid) w = Some r ->
  overall_problemsAccessed r = recordCount uid w /\
  overall_problemsSolved r = solvedRecords uid w /\
  sum_categories cs_accessed (byCategory r) = recordCount uid w /\
  sum_categories cs_solved (byCategory r) = solvedRecords uid w /\
  sum_categories cs_timeSpent (byCategory r) = timeSum uid w /\
  forall cat cs, byCategory r !! cat = Some cs -> category_ok cs.
Proof.
  intros (fs & u & Hdb & Hu & ->)%getUserStats_Some. simpl.
  unfold recordCount, solvedRecords, timeSum, tally. rewrite Hdb.
  destruct (count_docs_fold (progress_of uid fs) (mkTally ∅ 0 0))
    as (H1 & H2 & H3 & H4 & H5 & H6).
  assert (forall f, sum_categories f ∅ = 0) as Hempty
    by (intros f; unfold sum_categories; by rewrite map_fold_empty).
  simpl in *. rewrite !Hempty in *. unfold count_docs.
  split_and!; try done; try lia.
  intros cat cs. apply H6. apply map_Forall_empty.
Qed.

Lemma getUserStats_totals_witness :
  exists r, getUserStats (Some "u1") stale_device = Some r /\
            overall_problemsSolved r = 1 /\
            sum_categories cs_accessed (byCategory r) = 1.
Proof.
  destruct (getUserStats (Some "u1") stale_device) as [r|] eqn:Hr;
    [|vm_compute in Hr; discriminate].
  exists r. split; [done|].
  destruct (getUserStats_totals "u1" stale_device r Hr) as (_ & -> & -> & _).
  split; reflexivity.
Defined.

(** X10.  While the stored counters are in step with the records, the
    report's totals and the stored counters tell the same story:
    [overall.problemsAccessed] (recounted from the records) is the
    stored [stats.problemsAccessed], [overall.totalTimeSpent] (read from
    the stored counter) is the sum of the categories' [timeSpent], and
    [overall.problemsSolved] (recounted) is at most the stored
    [stats.problemsSolved], which also counts records that were solved
    and then set back. *)
Theorem getUserStats_matches_counters uid w r :
  stats_consistent uid w ->
  getUserStats (Some uid) w = Some r ->
  exists s, userStats uid w = Some s /\
            overall_problemsAccessed r = problemsAccessed s /\
            overall_totalTimeSpent r = sum_categories cs_timeSpent (byCategory r) /\
            overall_problemsSolved r <= problemsSolved s.
Proof.
  intros (s & Hs & Ha & Ht & Hsol) Hr.
  pose proof Hr as (fs & u & Hdb & Hu & ->)%getUserStats_Some.
  exists s. split; [done|]. simpl.
  unfold recordCount, solvedRecords, timeSum, tally in *. rewrite Hdb in *.
  destruct (count_docs_fold (progress_of uid fs) (mkTally ∅ 0 0))
    as (H1 & H2 & H3 & H4 & H5 & H6).
  assert (forall f, sum_categories f ∅ = 0) as Hempty
    by (intros f; unfold sum_categories; by rewrite map_fold_empty).
  simpl in *. rewrite !Hempty in *. unfold count_docs.
  unfold userStats in Hs. rewrite Hdb in Hs. simpl in Hs. rewrite Hu in Hs.
  injection Hs as <-. unfold solved_flag in *. split_and!; lia.
Qed.

Lemma getUserStats_matches_counters_witness :
  exists r s, getUserStats (Some "u1") stale_device = Some r /\
              userStats "u1" stale_device = Some s /\
              overall_problemsAccessed r = problemsAccessed s.
Proof.
  destruct (getUserStats (Some "u1") stale_device) as [r|] eqn:Hr;
    [|vm_compute in Hr; discriminate].
  destruct (getUserStats_matches_counters "u1" stale_device r) as (s & Hs & Ha & _).
  - exists (mkStats 1 1 0 2). split_and!; [reflexivity..|by vm_compute].
  - done.
  - by exists r, s.
Defined.

(** *** recordProblemView *)

Lemma recordProblemView_result uid pid w fs :
  db w = Some fs -> uid <> "" -> pid <> "" ->
  (recordProblemView (Some uid) (Some pid) w).1 = true.
Proof.
  intros Hdb Hu Hp. unfold recordProblemView.
  rewrite Hdb, (truthy_of_Some _ Hu), (truthy_of_Some _ Hp).
  unfold progress_get, progress_update.
  by destruct (progressDocs fs !! (uid, pid)).
Qed.

(** X11.  recordProblemView counts one view and nothing else.  With
    Firestore initialised and non-empty ids it returns true; an existing
    record gets [viewCount] + 1 and a [lastViewedAt], while its status,
    [timeSpent], [solvedAt] and [lastUpdatedAt] stay as they are (a view
    does not move the record in getAllProgress's order); a missing record
    is created with status 'notstarted', [viewCount] 1 and no time, and
    [stats.problemsAccessed] of the user grows by one in that case only.
    No other record and no localStorage entry changes.  Without
    Firestore or with a missing id it returns false and changes
    nothing. *)
Theorem recordProblemView_counts_one_view userId problemId w :
  let r := recordProblemView userId problemId w in
  match db w, truthy userId, truthy problemId with
  | Some fs, Some uid, Some pid =>
      r.1 = true /\
      localStorage r.2 = localStorage w /\
      (forall u p, (u, p) <> (uid, pid) -> remote u p r.2 = remote u p w) /\
      (exists d, remote uid pid r.2 = Some d /\ is_Some (lastViewedAt d) /\
         match remote uid pid w with
         | Some old =>
             viewCount d = viewCount old + 1 /\ status d = status old /\
             timeSpent d = timeSpent old /\ solvedAt d = solvedAt old /\
             lastUpdatedAt d = lastUpdatedAt old
         | None =>
             viewCount d = 1 /\ status d = "notstarted" /\
             timeSpent d = 0 /\ solvedAt d = None
         end) /\
      userCounters uid r.2 =
        bump (mkDelta 0 (if remote uid pid w is Some _ then 0 else 1) 0)
          <$> userCounters uid w
  | _, _, _ => r = (false, w)
  end.
Proof.
  simpl.
  destruct (db w) as [fs|] eqn:Hdb; [|by unfold recordProblemView; rewrite Hdb].
  destruct (truthy userId) as [uid|] eqn:Hu;
    [|by unfold recordProblemView; rewrite Hdb, Hu].
  destruct (truthy problemId) as [pid|] eqn:Hp;
    [|by unfold recordProblemView; rewrite Hdb, Hu, Hp].
  apply truthy_Some in Hu as [-> Hu]. apply truthy_Some in Hp as [-> Hp].
  destruct (recordProblemView_effect uid pid w fs Hdb Hu Hp) as (t & _ & Heff).
  pose proof (doc_effect_remote _ _ _ _ _ _ Heff) as Hremote.
  destruct Heff as (fs0 & fs' & Hdb0 & Hdb' & Hlocal & _ & Hcounters).
  split_and!.
  - by apply (recordProblemView_result uid pid w fs).
  - done.
  - intros u p Hne. rewrite Hremote. by rewrite decide_False.
  - eexists. split; [rewrite Hremote; by rewrite decide_True|].
    unfold remote, doc_at, view_doc. rewrite Hdb. simpl.
    destruct (progressDocs fs !! (uid, pid)) as [old|]; simpl; split_and!; by eauto.
  - rewrite (Hcounters uid), decide_True by done.
    unfold remote, doc_at. rewrite Hdb. done.
Qed.

(** *** A new user *)

Lemma docs_of_nil uid m :
  (forall pid, m !! (uid, pid) = None) -> docs_of uid m = [].
Proof.
  intros Hnone. destruct (docs_of uid m) as [|[pid d] l] eqn:Hl; [done|].
  assert ((pid, d) ∈ docs_of uid m) as Hin by (rewrite Hl; left).
  apply (docs_of_spec uid m) in Hin. by rewrite Hnone in Hin.
Qed.

(** X12.  For a user who has no document and no progress record, the
    first createOrUpdateUserProfile makes the counters exact and they
    stay so: after the sign-in and any further calls of the module,
    [stats.problemsAccessed] is the number of the user's records,
    [stats.totalTimeSpent] is the sum of their [timeSpent], and
    [stats.problemsSolved] is at least the number of solved records. *)
Theorem new_user_stats_exact u ops w fs :
  db w = Some fs ->
  userDocs fs !! Page.uid u = None ->
  (forall pid, remote (Page.uid u) pid w = None) ->
  stats_consistent (Page.uid u) (run_ops (Login (Some u) :: ops) w).
Proof.
  intros Hdb Hnew Hnone.
  change (run_ops (Login (Some u) :: ops) w)
    with (run_ops ops (createOrUpdateUserProfile (Some u) w).2).
  apply run_ops_consistent.
  rewrite (createOrUpdateUserProfile_effect u w fs Hdb). rewrite Hnew. simpl.
  exists (mkStats 0 0 0 (serverClock fs)).
  unfold userStats, recordCount, timeSum, solvedRecords, tally. simpl.
  rewrite lookup_insert_eq.
  change (progress_of (Page.uid u) ?f) with (docs_of (Page.uid u) (progressDocs f)).
  simpl. rewrite docs_of_nil; [done|].
  intros pid. specialize (Hnone pid). unfold remote in Hnone. by rewrite Hdb in Hnone.
Qed.

Lemma new_user_stats_exact_witness :
  stats_consistent "u2"
    (run_ops [Login (Some Auth.bob); View (Some "u2") (Some "lc_3");
              Progress (Some "u2") (Some "lc_3") "solved";
              Time (Some "u2") (Some "lc_3") 75;
              Progress (Some "u2") (Some "lc_3") "working"] first_login).
Proof.
  apply (new_user_stats_exact Auth.bob _ first_login _ eq_refl); [reflexivity|].
  intros pid. unfold remote. simpl. apply lookup_empty.
Defined.

End DatabaseOpsFacts.

(** ** Facts about the time tracker *)

Module TrackingFacts.
Import Database JsFacts DatabaseFacts Tracking.
Local Open Scope Z_scope.
Local Open Scope list_scope.

Lemma total_seconds_snoc cs c : total_seconds (cs ++ [c]) = total_seconds cs + c_seconds c.
Proof. induction cs as [|c' cs IH]; simpl; [lia|]. rewrite IH. lia. Qed.

Lemma remaining_Some user now tr c :
  remaining user now tr = Some c ->
  exists start uid pid,
    sessionStartTime tr = Some start /\ currentProblemId tr = Some pid /\
    uid <> "" /\ pid <> "" /\
    c = mkCall uid pid ((now - start) / 1000) /\ 0 < (now - start) / 1000.
Proof.
  unfold remaining, truthy_time, elapsed.
  destruct (sessionStartTime tr) as [start|]; [|done].
  destruct (decide (start = 0)); [done|].
  destruct (truthy (currentProblemId tr)) as [pid|] eqn:Hp; [|done].
  apply truthy_Some in Hp as [Hp Hpid]. simpl.
  destruct (decide (0 < (now - start) / 1000)); [|done].
  destruct (truthy user) as [uid|] eqn:Hu; [|done].
  apply truthy_Some in Hu as [_ Huid]. intros [= <-]. by exists start, uid, pid.
Qed.

Lemma seconds_fit now start : 1000 * ((now - start) / 1000) <= now - start.
Proof. apply Z.mul_div_le. lia. Qed.

Lemma stopTimeTracking_accounted t0 latest user now tr :
  accounted t0 latest tr -> latest <= now ->
  accounted t0 now (stopTimeTracking user now tr).
Proof.
  intros (Haw & Hact & Hfit) Hnow. unfold stopTimeTracking, accounted.
  destruct (remaining user now tr) as [c|] eqn:Hrem; simpl.
  - apply remaining_Some in Hrem as (start & uid & pid & Hs & _ & _ & _ & -> & _).
    rewrite Hs in Hfit. rewrite total_seconds_snoc. simpl.
    pose proof (seconds_fit now start). split_and!; [done|by intros [? ?]|lia].
  - split_and!; [done|by intros [? ?]|].
    destruct (sessionStartTime tr); lia.
Qed.

Lemma step_accounted t0 latest e tr :
  accounted t0 latest tr -> clock_from latest (readings e) ->
  (forall now, e <> TickBegin now) -> (forall now, e <> TickResume now) ->
  accounted t0 (List.last (readings e) latest) (step tr e).
Proof.
  intros Hacc Hclock Hb Hr.
  destruct e as [userId problemId user now now'|user now|now|now|hidden user now now'
                |user now canBeacon]; simpl in *.
  - destruct Hclock as (H1 & H2 & _).
    pose proof (stopTimeTracking_accounted t0 latest user now tr Hacc H1) as Hstop.
    unfold startTimeTracking.
    destruct (truthy userId) as [uid|];
      [|destruct Hstop as (? & ? & Hfit); split_and!; [done|done|];
        simpl in *; lia].
    destruct (truthy problemId) as [pid|];
      [|destruct Hstop as (? & ? & Hfit); split_and!; [done|done|];
        simpl in *; lia].
    destruct Hstop as (Haw & _ & Hfit). simpl in Hfit.
    unfold accounted. simpl. split_and!; [done|by eexists|lia|lia].
  - destruct Hclock as (H1 & _). by apply (stopTimeTracking_accounted t0 latest).
  - by destruct (Hb now).
  - by destruct (Hr now).
  - destruct Hclock as (H1 & H2 & _). unfold handleVisibilityChange.
    destruct Hacc as (Haw & Hact & Hfit).
    destruct (visibilityListener tr && hidden);
      [|split_and!; [done|done|destruct (sessionStartTime tr); lia]].
    destruct (remaining user now tr) as [c|] eqn:Hrem;
      [|split_and!; [done|done|destruct (sessionStartTime tr); lia]].
    apply remaining_Some in Hrem as (start & uid & pid & Hs & _ & _ & _ & -> & _).
    rewrite Hs in Hfit. unfold accounted. simpl. rewrite total_seconds_snoc. simpl.
    pose proof (seconds_fit now start). split_and!; [done|by eexists|lia|lia].
  - destruct Hclock as (H1 & _). unfold saveTimeBeforeUnload.
    destruct Hacc as (Haw & Hact & Hfit).
    destruct (unloadListener tr && canBeacon);
      [|split_and!; [done|done|destruct (sessionStartTime tr); lia]].
    destruct (remaining user now tr) as [c|];
      split_and!; try done; simpl; destruct (sessionStartTime tr); lia.
Qed.

Lemma tick_accounted t0 latest now now' tr :
  accounted t0 latest tr -> latest <= now -> now <= now' ->
  accounted t0 now' (tick_resume now' (tick_begin now tr)).
Proof.
  intros (Haw & Hact & Hfit) H1 H2. unfold tick_begin.
  destruct (activeTimeTracker tr) as [[uid pid]|] eqn:Ha.
  - destruct (Hact ltac:(by eexists)) as [start Hs]. rewrite Hs in *.
    unfold elapsed. simpl.
    destruct (decide (0 < (now - start) / 1000)).
    + unfold tick_resume, accounted. simpl. rewrite total_seconds_snoc. simpl.
      pose proof (seconds_fit now start). split_and!; [done|by eexists|lia|lia].
    + unfold tick_resume. rewrite Haw. unfold accounted. rewrite Hs, Ha.
      split_and!; [done|by eexists|lia|lia].
  - unfold tick_resume. rewrite Haw. unfold accounted. rewrite Ha.
    split_and!; [done|by intros [? ?]|destruct (sessionStartTime tr); lia].
Qed.

Lemma last_nonempty (b d d' : Z) l : List.last (b :: l) d = List.last (b :: l) d'.
Proof. revert b. induction l as [|c l IH]; intros b; [done|]. apply (IH c). Qed.

Lemma last_cons (a d : Z) l : List.last (a :: l) d = List.last l a.
Proof. destruct l as [|b l]; [done|]. apply (last_nonempty b d a l). Qed.

Lemma last_app (l1 l2 : list Z) d : List.last (l1 ++ l2) d = List.last l2 (List.last l1 d).
Proof.
  revert d. induction l1 as [|a l1 IH]; intros d; [done|].
  change ((a :: l1) ++ l2) with (a :: (l1 ++ l2)). by rewrite !last_cons, IH.
Qed.

Lemma clock_from_app t l1 l2 :
  clock_from t (l1 ++ l2) <-> clock_from t l1 /\ clock_from (List.last l1 t) l2.
Proof.
  revert t. induction l1 as [|a l1 IH]; intros t; [simpl; tauto|].
  rewrite (last_cons a t l1). simpl. rewrite IH. tauto.
Qed.

Lemma run_accounted t0 n :
  forall evs latest tr,
    (length evs <= n)%nat -> whole_ticks evs ->
    clock_from latest (flat_map readings evs) ->
    accounted t0 latest tr ->
    accounted t0 (List.last (flat_map readings evs) latest) (run evs tr).
Proof.
  induction n as [|n IH]; intros evs latest tr Hlen Hwhole Hclock Hacc.
  - destruct evs; [done|simpl in Hlen; lia].
  - destruct evs as [|e rest]; [done|].
    assert ((forall now, e <> TickBegin now) /\ (forall now, e <> TickResume now) \/
            exists a b rest', e = TickBegin a /\ rest = TickResume b :: rest')
      as [[Hb Hr]|(a & b & rest' & -> & ->)].
    { destruct e; try (left; split; intros; discriminate).
      - simpl in Hwhole. destruct rest as [|[] rest']; try done. right. eauto.
      - done. }
    + change (flat_map readings (e :: rest)) with (readings e ++ flat_map readings rest) in *.
      apply clock_from_app in Hclock as [Hc1 Hc2]. rewrite last_app.
      change (run (e :: rest) tr) with (run rest (step tr e)).
      apply IH; [simpl in Hlen; lia| |done|by apply step_accounted].
      destruct e; try done. by destruct (Hb now).
    + simpl in Hclock. destruct Hclock as (H1 & H2 & Hrest).
      change (flat_map readings (TickBegin a :: TickResume b :: rest'))
        with (a :: b :: flat_map readings rest').
      rewrite !last_cons.
      change (run (TickBegin a :: TickResume b :: rest') tr)
        with (run rest' (tick_resume b (tick_begin a tr))).
      apply IH; [simpl in Hlen; lia|done|done|by apply (tick_accounted t0 latest)].
Qed.

(** X13.  The time tracker never saves more time than has passed.
    Over any sequence of startTimeTracking, stopTimeTracking, interval
    callbacks, visibility changes and unloads, for any users and
    problems, with a clock that does not run backwards and every
    interval callback finishing before the next handler runs, the
    seconds passed to updateTimeSpent add up to at most the time between
    the first and the last clock reading: no stretch of time is saved
    twice. *)
Theorem tracker_never_overcounts evs t0 :
  whole_ticks evs ->
  clock_from t0 (flat_map readings evs) ->
  1000 * total_seconds (calls (run evs initial)) <= List.last (flat_map readings evs) t0 - t0.
Proof.
  intros Hwhole Hclock.
  assert (accounted t0 t0 initial) as Hinit.
  { unfold accounted, initial. simpl. split_and!; [done|by intros [? ?]|lia]. }
  destruct (run_accounted t0 (length evs) evs t0 initial (le_n _) Hwhole Hclock Hinit)
    as (_ & _ & Hfit).
  destruct (sessionStartTime (run evs initial)); lia.
Qed.

Lemma tracker_never_overcounts_witness :
  1000 * total_seconds
           (calls (run [Start (Some "u1") (Some "lc_1") None 1000 1000;
                        TickBegin 31000; TickResume 31200;
                        Visibility true (Some "u1") 45700 45700;
                        Start (Some "u1") (Some "lc_2") (Some "u1") 50000 50001;
                        Stop (Some "u1") 58500] initial))
    <= 58500 - 1000.
Proof.
  apply (tracker_never_overcounts
           [Start (Some "u1") (Some "lc_1") None 1000 1000;
            TickBegin 31000; TickResume 31200;
            Visibility true (Some "u1") 45700 45700;
            Start (Some "u1") (Some "lc_2") (Some "u1") 50000 50001;
            Stop (Some "u1") 58500] 1000).
  - simpl. done.
  - simpl. lia.
Defined.

(** *** The tracker's calls and updateTimeSpent *)

Lemma remaining_accepted user now tr c : remaining user now tr = Some c -> accepted c.
Proof.
  intros (start & uid & pid & _ & _ & Hu & Hp & -> & He)%remaining_Some. by split_and!.
Qed.

Lemma stopTimeTracking_sound user now tr : sound tr -> sound (stopTimeTracking user now tr).
Proof.
  intros [Hcalls Hact]. unfold stopTimeTracking.
  destruct (remaining user now tr) as [c|] eqn:Hrem; split; simpl; try done.
  apply Forall_app. split; [done|]. constructor; [|done]. by eapply remaining_accepted.
Qed.

Lemma step_sound e tr : sound tr -> sound (step tr e).
Proof.
  intros Hs.
  destruct e as [userId problemId user now now'|user now|now|now|hidden user now now'
                |user now canBeacon]; simpl.
  - pose proof (stopTimeTracking_sound user now tr Hs) as Hstop.
    unfold startTimeTracking.
    destruct (truthy userId) as [u|] eqn:Hu; [|done].
    destruct (truthy problemId) as [p|] eqn:Hp; [|done].
    apply truthy_Some in Hu as [_ Hu]. apply truthy_Some in Hp as [_ Hp].
    destruct Hstop as [Hcalls Hact].
    split; [done|]. simpl. by intros ? ? [= <- <-].
  - by apply stopTimeTracking_sound.
  - unfold tick_begin.
    destruct (activeTimeTracker tr) as [[u p]|] eqn:Ha; [|done].
    destruct (decide (0 < elapsed now (sessionStartTime tr))); [|done].
    destruct Hs as [Hcalls Hact]. destruct (Hact u p Ha) as [Hu Hp].
    split; simpl; [|exact Hact].
    apply Forall_app. split; [done|]. constructor; [|done]. by split_and!.
  - unfold tick_resume. destruct (awaiting tr); [done|]. by destruct Hs.
  - unfold handleVisibilityChange.
    destruct (visibilityListener tr && hidden); [|done].
    destruct (remaining user now tr) as [c|] eqn:Hrem; [|done].
    destruct Hs as [Hcalls Hact]. split; simpl; [|done].
    apply Forall_app. split; [done|]. constructor; [|done]. by eapply remaining_accepted.
  - unfold saveTimeBeforeUnload.
    destruct (unloadListener tr && canBeacon); [|done].
    destruct (remaining user now tr); [|done]. by destruct Hs.
Qed.

Lemma run_sound evs tr : sound tr -> sound (run evs tr).
Proof.
  revert tr. induction evs as [|e evs IH]; intros tr Hs; [done|].
  apply (IH (step tr e)). by apply step_sound.
Qed.

Lemma updateTimeSpent_adds uid pid seconds old w fs :
  db w = Some fs -> uid <> "" -> pid <> "" -> 0 < seconds ->
  remote uid pid w = Some old ->
  (updateTimeSpent (Some uid) (Some pid) seconds w).1 = true /\
  timeSpentOf uid pid (updateTimeSpent (Some uid) (Some pid) seconds w).2
    = Some (timeSpent old + seconds).
Proof.
  intros Hdb Hu Hp Hs Hold. unfold remote in Hold. rewrite Hdb in Hold. simpl in Hold.
  split.
  - unfold updateTimeSpent. rewrite Hdb, (truthy_of_Some _ Hu), (truthy_of_Some _ Hp).
    rewrite decide_False by lia. unfold progress_update. by rewrite Hold.
  - pose proof (DatabaseOpsFacts.updateTimeSpent_effect uid pid seconds old w fs
                  Hdb Hu Hp Hs Hold) as Heff.
    unfold timeSpentOf.
    rewrite (DatabaseOpsFacts.doc_effect_remote _ _ _ _ _ _ Heff), decide_True by done.
    done.
Qed.

(** X14.  Every call the time tracker makes is one updateTimeSpent
    accepts: over any sequence of tracker events, each call carries a
    non-empty user id, a non-empty problem id and a positive number of
    seconds, so with Firestore initialised and the problem's record in
    place updateTimeSpent returns true and adds exactly those seconds to
    the record's [timeSpent]. *)
Theorem tracker_calls_are_accepted evs c w fs old :
  c ∈ calls (run evs initial) ->
  db w = Some fs ->
  remote (c_userId c) (c_problemId c) w = Some old ->
  let r := updateTimeSpent (Some (c_userId c)) (Some (c_problemId c)) (c_seconds c) w in
  accepted c /\ r.1 = true /\
  timeSpentOf (c_userId c) (c_problemId c) r.2 = Some (timeSpent old + c_seconds c).
Proof.
  intros Hin Hdb Hold. simpl.
  assert (sound initial) as Hinit by (split; [constructor|done]).
  destruct (run_sound evs initial Hinit) as [Hcalls _].
  rewrite Forall_forall in Hcalls. pose proof (Hcalls c Hin) as (Hu & Hp & Hs).
  split; [done|]. by apply (updateTimeSpent_adds _ _ _ old w fs).
Qed.

Lemma tracker_calls_are_accepted_witness :
  timeSpentOf "u1" "lc_1"
    (updateTimeSpent (Some "u1") (Some "lc_1") 30 stale_device).2 = Some 30.
Proof.
  pose proof (tracker_calls_are_accepted
                [Start (Some "u1") (Some "lc_1") None 1000 1000; TickBegin 31000]
                (mkCall "u1" "lc_1" 30) stale_device _
                (mkProgress "lc_1" "LeetCode" "solved" 1 2 None (Some 2) 0 1)
                ltac:(by left) eq_refl eq_refl) as (_ & _ & H).
  exact H.
Defined.

End TrackingFacts.

(** ** Facts about JSON.parse after JSON.stringify *)

Module JsonFacts.
Import JsFacts JsonText.
Local Open Scope string_scope.

Lemma append_cons c (a b : string) : String c a ++ b = String c (a ++ b).
Proof. reflexivity. Qed.

Lemma append_empty (b : string) : "" ++ b = b.
Proof. reflexivity. Qed.

Lemma append_assoc (a b c : string) : (a ++ b) ++ c = a ++ (b ++ c).
Proof.
  induction a as [|x a IH]; [done|]. rewrite !append_cons. by rewrite IH.
Qed.

Lemma append_nil_r (a : string) : a ++ "" = a.
Proof. induction a as [|x a IH]; [done|]. rewrite append_cons. by rewrite IH. Qed.

Lemma length_append (a b : string) :
  String.length (a ++ b) = (String.length a + String.length b)%nat.
Proof.
  induction a as [|x a IH]; [done|]. rewrite append_cons. simpl. by rewrite IH.
Qed.

Ltac strings :=
  repeat (rewrite append_assoc || rewrite append_cons || rewrite append_empty).

Lemma stringify_obj fs : stringify (JObj fs) = "{" ++ members fs ++ "}".
Proof.
  destruct fs; reflexivity.
Qed.

Lemma parse_chars_escape s rest :
  parse_chars (escape s ++ String dquote rest) = Some (s, rest).
Proof.
  induction s as [|c s IH]; [done|]. simpl escape.
  destruct (Ascii.eqb c dquote) eqn:Hq; simpl orb; cbv iota.
  - strings. simpl. rewrite Hq. simpl. by rewrite IH.
  - destruct (Ascii.eqb c backslash) eqn:Hb; strings; simpl.
    + rewrite Hq, Hb. simpl. by rewrite IH.
    + rewrite Hq, Hb. by rewrite IH.
Qed.

Lemma skip_ws_members fs rest :
  fs <> [] -> exists r, skip_ws (members fs ++ rest) = String dquote r /\
                        members fs ++ rest = String dquote r.
Proof.
  destruct fs as [|[k v] fs]; [done|]. intros _. cbn [members]. unfold quote. strings.
  simpl. eauto.
Qed.

Lemma prefix_empty s : String.prefix "" s = true.
Proof. by destruct s. Qed.

Lemma parse_value_flat j fuel rest :
  flat j = true -> parse_value (S fuel) (stringify j ++ rest) = Some (j, rest).
Proof.
  destruct j as [|[|]|s|fs]; intros Hflat; try done.
  - simpl stringify. strings. simpl. unfold drop_chars. simpl.
    by rewrite prefix_empty, Nat.sub_0_r, substring_all.
  - simpl stringify. strings. simpl. unfold drop_chars. simpl.
    by rewrite prefix_empty, Nat.sub_0_r, substring_all.
  - simpl stringify. strings. simpl. unfold drop_chars. simpl.
    by rewrite prefix_empty, Nat.sub_0_r, substring_all.
  - simpl stringify. unfold quote. strings. simpl. by rewrite parse_chars_escape.
Qed.

Lemma parse_members_last fuel k v acc tail rest :
  parse_value fuel tail = Some (v, String "}" rest) ->
  parse_members (S fuel) (quote k ++ String ":" tail) acc = Some (JObj (acc ++ [(k, v)]), rest).
Proof.
  intros H. unfold quote. strings. simpl. rewrite parse_chars_escape. simpl. by rewrite H.
Qed.

Lemma parse_members_more fuel k v acc tail rest :
  parse_value fuel tail = Some (v, String "," rest) ->
  parse_members (S fuel) (quote k ++ String ":" tail) acc
    = parse_members fuel rest (acc ++ [(k, v)]).
Proof.
  intros H. unfold quote. strings. simpl. rewrite parse_chars_escape. simpl. by rewrite H.
Qed.

Lemma parse_members_flat fs :
  forall acc fuel rest,
    fs <> [] -> Forall (fun kv => flat kv.2 = true) fs ->
    (length fs < fuel)%nat ->
    parse_members fuel (members fs ++ String "}" rest) acc = Some (JObj (acc ++ fs), rest).
Proof.
  induction fs as [|[k v] fs IH]; intros acc fuel rest Hne Hflat Hfuel; [done|].
  apply Forall_cons in Hflat as [Hv Hflat]. simpl in Hv.
  destruct fuel as [|[|fuel]]; [simpl in Hfuel; lia|simpl in Hfuel; lia|].
  destruct fs as [|kv fs'].
  - change (members [(k, v)]) with (quote k ++ ":" ++ stringify v ++ "").
    strings. apply parse_members_last. by apply parse_value_flat.
  - change (members ((k, v) :: kv :: fs'))
      with (quote k ++ ":" ++ stringify v ++ "," ++ members (kv :: fs')).
    strings.
    rewrite (parse_members_more (S fuel) k v acc _ (members (kv :: fs') ++ String "}" rest));
      [|by apply parse_value_flat].
    rewrite IH; [|done|done|simpl in *; lia]. by rewrite <- app_assoc.
Qed.

Lemma length_members fs : (length fs <= String.length (members fs))%nat.
Proof.
  induction fs as [|[k v] fs IH]; [done|].
  destruct fs as [|kv fs'].
  - change (members [(k, v)]) with (quote k ++ ":" ++ stringify v ++ "").
    unfold quote. strings. simpl. lia.
  - change (members ((k, v) :: kv :: fs'))
      with (quote k ++ ":" ++ stringify v ++ "," ++ members (kv :: fs')).
    unfold quote. strings. simpl. rewrite !length_append. simpl.
    rewrite !length_append. simpl in *. lia.
Qed.

(** [JSON.parse(JSON.stringify(o))] gives [o] back for an object with
    at least one member whose members are strings, booleans or null. *)
Lemma parse_stringify_flat fs :
  fs <> [] -> Forall (fun kv => flat kv.2 = true) fs ->
  parse (stringify (JObj fs)) = Normal (JObj fs).
Proof.
  intros Hne Hflat. rewrite stringify_obj. unfold parse.
  assert (forall n, (length fs < n)%nat ->
            parse_value (S n) ("{" ++ members fs ++ "}") = Some (JObj fs, "")) as Hparse.
  { intros n Hn. strings.
    destruct (skip_ws_members fs "}" Hne) as (r & Hskip & Hr).
    cbn [parse_value]. simpl (skip_ws (String "{" _)). simpl (String.prefix _ _). cbv iota.
    simpl (Ascii.eqb _ _). cbv iota.
    rewrite Hskip.
    change (match String dquote r with
            | String "}" rest' => Some (JObj [], rest')
            | _ => parse_members n (members fs ++ String "}" "") []
            end) with (parse_members n (members fs ++ String "}" "") []).
    by rewrite (parse_members_flat fs [] n "" Hne Hflat Hn). }
  rewrite Hparse; [done|].
  strings. simpl. rewrite length_append. pose proof (length_members fs). lia.
Qed.

End JsonFacts.

(** ** Facts about the session cache *)

Module SessionFacts.
Import JsFacts Auth AuthFacts JsonText JsonFacts.
Local Open Scope list_scope.

(** What a change of the auth state does to localStorage. *)
Lemma handleAuthStateChange_storage user pg :
  localStorage (handleAuthStateChange user pg).1 =
  match user with
  | User u =>
      if quotaExceeded (localStorage pg) then localStorage pg
      else mkStorage (<[SESSION_KEY := stringify (sessionData u (dateNow pg))]>
                        (items (localStorage pg))) false
  | _ => removeItem SESSION_KEY (localStorage pg)
  end.
Proof.
  unfold handleAuthStateChange, seq, modify, console_log, storeUserSession,
    clearUserSession, try_catch, storage_setItem, storage_removeItem, setItem,
    console_error, modify, ret.
  destruct user as [| |u]; simpl;
    [| |destruct (quotaExceeded (localStorage pg)) eqn:Hq; simpl;
        destruct (dbLoaded pg); simpl];
    match goal with |- localStorage (notify ?v ?ls ?p).1 = _ =>
      destruct (notify_spec v ls p) as (pg' & new & Hn & _ & _ & _ & _ & _ & Hst);
      rewrite Hn; simpl; rewrite Hst
    end; simpl; try done; by rewrite ?Hq.
Qed.

Lemma getStoredUserSession_read pg text v :
  getItem SESSION_KEY (localStorage pg) = Some text -> text <> "" ->
  parse text = Normal v ->
  (getStoredUserSession pg).2 = Normal v.
Proof.
  intros Hget Htext Hparse. unfold getStoredUserSession, try_catch.
  rewrite Hget, (truthy_of_Some _ Htext), Hparse. done.
Qed.

Lemma sessionData_flat u now :
  exists fs, sessionData u now = JObj fs /\ fs <> [] /\
             Forall (fun kv => flat kv.2 = true) fs.
Proof.
  eexists. split; [reflexivity|]. split; [done|].
  repeat constructor; simpl; by destruct (email u), (displayName u), (photoURL u).
Qed.

(** X15.  The session cache follows a sign-in: when localStorage
    accepts the write, after handleAuthStateChange(user) the stored
    session read back by getStoredUserSession is the session object of
    that user (uid, email, displayName, photoURL, emailVerified, the
    first provider id or 'unknown', and the time of the sign-in),
    whatever was stored before and whichever listeners throw; no other
    localStorage key changes. *)
Theorem sign_in_stores_session u pg :
  quotaExceeded (localStorage pg) = false ->
  (getStoredUserSession (handleAuthStateChange (User u) pg).1).2
    = Normal (sessionData u (dateNow pg)) /\
  forall k, k <> SESSION_KEY ->
            getItem k (localStorage (handleAuthStateChange (User u) pg).1)
              = getItem k (localStorage pg).
Proof.
  intros Hq. pose proof (handleAuthStateChange_storage (User u) pg) as Hst.
  rewrite Hq in Hst. split.
  - destruct (sessionData_flat u (dateNow pg)) as (fs & Hfs & Hne & Hflat).
    apply (getStoredUserSession_read _ (stringify (sessionData u (dateNow pg)))).
    + rewrite Hst. unfold getItem. simpl. apply lookup_insert_eq.
    + rewrite Hfs, stringify_obj. done.
    + rewrite Hfs. by apply parse_stringify_flat.
  - intros k Hk. rewrite Hst. unfold getItem. simpl. by rewrite lookup_insert_ne.
Qed.

Lemma sign_in_stores_session_witness :
  (getStoredUserSession (handleAuthStateChange (User alice) fresh_page).1).2
    = Normal (sessionData alice "2026-01-01T00:00:00.000Z").
Proof. apply (sign_in_stores_session alice fresh_page). reflexivity. Defined.

(** X16.  The session cache follows a sign-out: after
    handleAuthStateChange(null) getStoredUserSession returns null,
    whatever was stored before and whether or not localStorage accepts
    writes; no other localStorage key changes. *)
Theorem sign_out_clears_session v pg :
  is_user v = false ->
  (getStoredUserSession (handleAuthStateChange v pg).1).2 = Normal JNull /\
  forall k, k <> SESSION_KEY ->
            getItem k (localStorage (handleAuthStateChange v pg).1)
              = getItem k (localStorage pg).
Proof.
  intros Hv.
  assert (localStorage (handleAuthStateChange v pg).1
          = removeItem SESSION_KEY (localStorage pg)) as Hst.
  { rewrite handleAuthStateChange_storage. by destruct v. }
  split.
  - unfold getStoredUserSession, try_catch. rewrite Hst. unfold getItem, removeItem. simpl.
    by rewrite lookup_delete_eq.
  - intros k Hk. rewrite Hst. unfold getItem, removeItem. simpl. by rewrite lookup_delete_ne.
Qed.

Lemma sign_out_clears_session_witness :
  (getStoredUserSession
     (handleAuthStateChange Null (handleAuthStateChange (User alice) fresh_page).1).1).2
    = Normal JNull.
Proof. apply (sign_out_clears_session Null). reflexivity. Defined.

End SessionFacts.

(** ** Facts about subscribing and unsubscribing *)

Module ListenerFacts.
Import JsFacts Auth AuthFacts.
Local Open Scope list_scope.

Lemma splice_others callback l i :
  indexOf callback l = Some i ->
  filter (fun x => cb_ref x <> cb_ref callback) (splice1 i l)
    = filter (fun x => cb_ref x <> cb_ref callback) l.
Proof.
  revert i. induction l as [|x l IH]; intros i; simpl; [done|].
  destruct (decide (cb_ref x = cb_ref callback)) as [He|Hne].
  - intros [= <-]. unfold splice1. simpl. rewrite drop_0.
    by rewrite filter_cons_False by (intros H; by apply H).
  - destruct (indexOf callback l) as [j|] eqn:Hj; simpl; [|done].
    intros [= <-]. unfold splice1 in *. simpl.
    rewrite !filter_cons_True by done. f_equal. by apply IH.
Qed.

Lemma indexOf_snoc callback l :
  indexOf callback l = None -> indexOf callback (l ++ [callback]) = Some (length l).
Proof.
  induction l as [|x l IH]; simpl.
  - intros _. by rewrite decide_True.
  - destruct (decide (cb_ref x = cb_ref callback)); [done|].
    destruct (indexOf callback l); [done|]. intros _. by rewrite IH.
Qed.

Lemma splice_snoc (l : list Callback) x : splice1 (length l) (l ++ [x]) = l.
Proof.
  unfold splice1. rewrite take_app_length.
  rewrite drop_ge by (rewrite length_app; simpl; lia). apply app_nil_r.
Qed.

Lemma onAuthStateChanged_listeners callback pg :
  authStateListeners (onAuthStateChanged (Some callback) pg).1
    = authStateListeners pg ++ [callback].
Proof.
  unfold onAuthStateChanged, seq, modify, call, ret. simpl.
  destruct (currentUser pg); simpl; try done;
    by destruct (cb_run callback _ (dom pg)) as [d [e|]].
Qed.

Lemma subscribe_unsubscribe callback pg :
  indexOf callback (authStateListeners pg) = None ->
  authStateListeners (unsubscribe callback (onAuthStateChanged (Some callback) pg).1).1
    = authStateListeners pg.
Proof.
  intros Hi. pose proof (onAuthStateChanged_listeners callback pg) as Hls.
  set (pg1 := (onAuthStateChanged (Some callback) pg).1) in *.
  unfold unsubscribe, modify. cbn [fst]. rewrite Hls.
  rewrite (indexOf_snoc _ _ Hi). simpl. apply splice_snoc.
Qed.

(** X17.  Unsubscribing takes out one registration of that callback
    and nothing else: the other listeners stay registered, in the same
    order, and the document, the current user and localStorage are
    untouched.  Subscribing a callback that was not registered and then
    calling the returned handle gives back the listener array from
    before the subscription. *)
Theorem unsubscribe_keeps_other_listeners callback pg :
  let pg' := (unsubscribe callback pg).1 in
  filter (fun x => cb_ref x <> cb_ref callback) (authStateListeners pg')
    = filter (fun x => cb_ref x <> cb_ref callback) (authStateListeners pg) /\
  dom pg' = dom pg /\ currentUser pg' = currentUser pg /\
  localStorage pg' = localStorage pg /\
  (registrations callback pg = 0%nat ->
   authStateListeners (unsubscribe callback (onAuthStateChanged (Some callback) pg).1).1
     = authStateListeners pg).
Proof.
  cbv zeta.
  assert ((unsubscribe callback pg).1 =
          match indexOf callback (authStateListeners pg) with
          | Some i => set_listeners (splice1 i (authStateListeners pg)) pg
          | None => pg
          end) as -> by reflexivity.
  split_and!.
  - destruct (indexOf callback (authStateListeners pg)) as [i|] eqn:Hi; [|done].
    by apply splice_others.
  - by destruct (indexOf callback (authStateListeners pg)).
  - by destruct (indexOf callback (authStateListeners pg)).
  - by destruct (indexOf callback (authStateListeners pg)).
  - unfold registrations. intros Hz. apply length_zero_iff_nil, indexOf_None in Hz.
    by apply subscribe_unsubscribe.
Qed.

(** X18.  What onAuthStateChanged does with a bad argument or a
    failing callback.  An argument that is not a function makes it throw
    'Callback must be a function' with nothing registered and nothing
    called.  A function is registered before it is called: when the
    immediate call throws, the exception leaves onAuthStateChanged (so
    the caller gets no unsubscribe handle) while the callback stays in
    the listener array; otherwise the call returns the handle for that
    callback. *)
Theorem onAuthStateChanged_failures callback pg :
  match callback with
  | None =>
      onAuthStateChanged None pg = (pg, Throw (UserError "Callback must be a function"))
  | Some cb =>
      authStateListeners (onAuthStateChanged (Some cb) pg).1
        = authStateListeners pg ++ [cb] /\
      (onAuthStateChanged (Some cb) pg).2 =
        match currentUser pg with
        | Undefined => Normal cb
        | v => match (cb_run cb v (dom pg)).2 with
               | Some e => Throw e
               | None => Normal cb
               end
        end
  end.
Proof.
  destruct callback as [cb|]; [|done].
  split; [apply onAuthStateChanged_listeners|].
  unfold onAuthStateChanged, seq, modify, call, ret. simpl.
  destruct (currentUser pg); simpl; try done;
    by destruct (cb_run cb _ (dom pg)) as [d [e|]].
Qed.

Lemma unsubscribe_keeps_other_listeners_witness :
  let pg := set_listeners [faulty] fresh_page in
  registrations quiet pg = 0%nat /\
  authStateListeners (unsubscribe quiet (onAuthStateChanged (Some quiet) pg).1).1 = [faulty].
Proof.
  simpl. split; [reflexivity|].
  by apply (unsubscribe_keeps_other_listeners quiet (set_listeners [faulty] fresh_page)).
Defined.

Lemma last_default (a d d' : UserValue) l : List.last (a :: l) d = List.last (a :: l) d'.
Proof. revert a. induction l as [|b l IH]; intros a; [done|]. apply (IH b). Qed.

Lemma calls_of_run_listeners user ls d :
  calls_of (Live.run_listeners user ls d).2 = (fun l => (cb_ref l, user)) <$> ls.
Proof.
  revert d. induction ls as [|l ls IH]; intros d; [done|].
  simpl. by rewrite IH.
Qed.

Lemma calls_of_deliver values ls d :
  calls_of (Live.deliver values ls d).2 =
    flat_map (fun v => (fun l => (cb_ref l, v)) <$> ls) values.
Proof.
  revert d. induction values as [|v values IH]; intros d; [done|].
  simpl. unfold calls_of in *. by rewrite fmap_app, IH, calls_of_run_listeners.
Qed.

(** X19.  Listeners that call no unsubscribe function while they run
    see every change of the auth state, in order.  Over a sequence of
    handleAuthStateChange calls each listener registered at the start
    is run once per change, change by change and in registration order
    within a change, with the value of that change and on the document
    the call before it left behind, whether or not an earlier one threw;
    every exception thrown is on the console; the listener array is the
    same at the end and the current user is the last value. *)
Theorem changes_delivered_in_order handles values pg :
  (forall l, l ∈ authStateListeners pg -> Live.keeps_array handles l) ->
  let pg' := Live.handleAuthStateChange_all handles values pg in
  let r := Live.deliver values (authStateListeners pg) (dom pg) in
  dom pg' = r.1 /\
  invocations pg' = invocations pg ++ r.2 /\
  calls_of r.2 =
    flat_map (fun v => (fun l => (cb_ref l, v)) <$> authStateListeners pg) values /\
  listener_errors (console pg') = listener_errors (console pg) ++ omap threw r.2 /\
  authStateListeners pg' = authStateListeners pg /\
  currentUser pg' = List.last values (currentUser pg).
Proof.
  revert pg. induction values as [|v values IH]; intros pg Hkeep; cbn zeta.
  - simpl. rewrite !app_nil_r. done.
  - change (Live.handleAuthStateChange_all handles (v :: values) pg)
      with (Live.handleAuthStateChange_all handles values
              (Live.handleAuthStateChange handles v pg).1).
    rewrite (live_handleAuthStateChange_keeps handles v pg Hkeep).
    destruct (handleAuthStateChange_runs v pg)
      as (pg1 & Hrun & Hdom & Hinv & Herr & Hls & Hcu).
    rewrite Hrun. cbn [fst].
    destruct (IH pg1) as (Hdom' & Hinv' & _ & Herr' & Hls' & Hcu'); [by rewrite Hls|].
    rewrite Hls, Hdom in *. cbn [Live.deliver fst snd].
    split_and!.
    + exact Hdom'.
    + by rewrite Hinv', Hinv, app_assoc.
    + apply (calls_of_deliver (v :: values)).
    + by rewrite Herr', Herr, omap_app, app_assoc.
    + exact Hls'.
    + rewrite Hcu', Hcu. destruct values as [|a l]; [done|].
      exact (last_default a v (currentUser pg) l).
Qed.

Lemma changes_delivered_in_order_witness :
  (forall l, l ∈ authStateListeners Live.three_listeners ->
             Live.keeps_array Live.no_handles l) /\
  scheduled (dom (Live.handleAuthStateChange_all Live.no_handles
                    [User alice; Null; User bob] Live.three_listeners)) =
    [ShowGateMessage "second ran"; ShowGateMessage "third ran";
     ShowGateMessage "second ran"; ShowGateMessage "third ran"].
Proof.
  assert (forall l, l ∈ authStateListeners Live.three_listeners ->
                    Live.keeps_array Live.no_handles l) as Hkeep
    by (intros l _ v d; reflexivity).
  split; [exact Hkeep|].
  destruct (changes_delivered_in_order Live.no_handles [User alice; Null; User bob]
              Live.three_listeners Hkeep) as (Hdom & _).
  rewrite Hdom. reflexivity.
Defined.

End ListenerFacts.

(** ** Facts about protectContent and about gating a region twice *)

Module ProtectFacts.
Import JsFacts Auth AuthUI AuthFacts AuthUIFacts Protect.
Local Open Scope list_scope.

Lemma requireAuth_signed_in options pg :
  is_user (currentUser_opt pg) = true -> requireAuth options pg = (pg, Normal true).
Proof. intros H. unfold requireAuth. by rewrite H. Qed.

Lemma requireAuth_signed_out options pg :
  is_user (currentUser_opt pg) = false ->
  exists pg', requireAuth options pg = (pg', Normal false).
Proof.
  intros H. unfold requireAuth. rewrite H.
  destruct (requireAuth_prompt_returns options pg) as [pg' Hp].
  exists pg'. unfold seq at 1. rewrite Hp. done.
Qed.

Lemma protectContent_other elements options els e :
  e ∉ elements -> protectContent elements options els !! e = els !! e.
Proof.
  revert els. induction elements as [|x elements IH]; intros els Hnot; [done|].
  apply not_elem_of_cons in Hnot as [Hne Hnot]. simpl. rewrite IH by done.
  unfold protect_element. destruct (els !! x); [|done]. by rewrite lookup_insert_ne.
Qed.

Lemma protectContent_lookup elements options els e el :
  NoDup elements -> e ∈ elements -> els !! e = Some el ->
  protectContent elements options els !! e
    = Some (mkElement (Some (ProtectedHandler options (onclick el))) true).
Proof.
  revert els. induction elements as [|x elements IH]; intros els Hnd Hin Hel.
  - by apply elem_of_nil in Hin.
  - apply NoDup_cons in Hnd as [Hx Hnd]. simpl.
    destruct (decide (e = x)) as [->|Hne].
    + rewrite protectContent_other by done. unfold protect_element. rewrite Hel.
      by rewrite lookup_insert_eq.
    + apply elem_of_cons in Hin as [?|Hin]; [done|].
      apply IH; [done|done|]. unfold protect_element.
      destruct (els !! x); [by rewrite lookup_insert_ne|done].
Qed.

Lemma unprotect_onclick elements els e :
  onclick <$> unprotect elements els !! e = onclick <$> els !! e.
Proof.
  revert els. induction elements as [|x elements IH]; intros els; [done|].
  simpl. rewrite IH. destruct (els !! x) as [el|] eqn:Hx; [|done].
  destruct (decide (e = x)) as [->|Hne];
    [by rewrite lookup_insert_eq, Hx|by rewrite lookup_insert_ne].
Qed.

(** X20.  protectContent puts the sign-in check in front of the click
    handler of each element it is given.  For a signed-in user a click
    does what it did before; for a visitor the handler of the page does
    not run, the event is cancelled ([preventDefault], [stopPropagation],
    return value [false]) and the page is left as requireAuth leaves it
    (redirect or login modal).  The function protectContent returns
    takes the [data-protected] attribute off again but leaves the check
    in place: clicks are gated exactly as before.  Elements that were
    not given are untouched. *)
Theorem protectContent_gates_clicks elements options els e el pg :
  NoDup elements -> e ∈ elements -> els !! e = Some el ->
  let protected := protectContent elements options els in
  (is_user (currentUser_opt pg) = true -> click e protected pg = click e els pg) /\
  (is_user (currentUser_opt pg) = false ->
     click e protected pg
       = ((requireAuth options pg).1, Normal (mkClick [] true true ReturnsFalse))) /\
  click e (unprotect elements protected) pg = click e protected pg /\
  data_protected <$> protected !! e = Some true /\
  (forall e', e' ∉ elements -> protected !! e' = els !! e').
Proof.
  intros Hnd Hin Hel. cbv zeta.
  pose proof (protectContent_lookup elements options els e el Hnd Hin Hel) as Hp.
  split_and!.
  - intros Hu. unfold click. rewrite Hp, Hel. simpl.
    rewrite (requireAuth_signed_in options pg Hu). by destruct (onclick el).
  - intros Hu. unfold click. rewrite Hp. simpl.
    by destruct (requireAuth_signed_out options pg Hu) as [pg' ->].
  - unfold click.
    pose proof (unprotect_onclick elements (protectContent elements options els) e) as Hun.
    destruct (unprotect elements (protectContent elements options els) !! e) as [el'|];
      rewrite Hp in *; simpl in *; [by injection Hun as ->|done].
  - by rewrite Hp.
  - intros e' He'. by apply protectContent_other.
Qed.

Lemma protectContent_gates_clicks_witness :
  (click 3 (protectContent [3; 4]%nat (mkOptions None None None) buttons) visitor_page).2
    = Normal (mkClick [] true true ReturnsFalse) /\
  (click 3 buttons visitor_page).2 = Normal (mkClick [30%nat] false false (ReturnsOf 30)).
Proof.
  destruct (protectContent_gates_clicks [3; 4]%nat (mkOptions None None None) buttons 3%nat
              (mkElement (Some (PageHandler 30)) false) visitor_page)
    as (_ & Hvisitor & _).
  - compute_done.
  - compute_done.
  - reflexivity.
  - split; [|reflexivity]. by rewrite Hvisitor.
Defined.

(** *** A region gated twice *)




End ProtectFacts.

(** ** Facts about the renderer's saved progress *)

Module RendererFacts.
Import Database JsFacts DatabaseFacts DatabaseOps DatabaseOpsFacts Renderer.
Local Open Scope string_scope.

Lemma replace_same s : replace "-" "-" s = s.
Proof.
  induction s as [|c s IH]; [done|]. rewrite replace_unfold.
  destruct (String.prefix "-" (String c s)) eqn:Hpre.
  - apply prefix_split in Hpre as [x Hx]. rewrite Hx. by rewrite substring_app.
  - by rewrite IH.
Qed.

Lemma classMap_known status c :
  c ∈ progress_classes -> c = "progress-" ++ status -> classMap status = Some c.
Proof.
  unfold progress_classes. rewrite !elem_of_union, !elem_of_singleton.
  intros [[[->| ->]| ->]| ->] Heq.
  - change "progress-not-started" with ("progress-" ++ "not-started") in Heq.
    apply (inj _) in Heq as <-. done.
  - change "progress-working" with ("progress-" ++ "working") in Heq.
    apply (inj _) in Heq as <-. done.
  - change "progress-need-help" with ("progress-" ++ "need-help") in Heq.
    apply (inj _) in Heq as <-. done.
  - change "progress-solved" with ("progress-" ++ "solved") in Heq.
    apply (inj _) in Heq as <-. done.
Qed.

Lemma classMap_in status : default "progress-not-started" (classMap status) ∈ progress_classes.
Proof.
  unfold classMap, progress_classes. repeat case_decide; simpl; set_solver.
Qed.

(** X22.  The dropdown of a problem always shows its last saved
    status.  When updateProgress returns, the dropdown carries exactly
    one of the four classes progress-not-started, progress-working,
    progress-need-help and progress-solved: the one of the status just
    saved, progress-not-started for a status outside the four; classes
    other than these four stay on the dropdown; and localStorage holds
    the status under progress_lc_<id>. *)
Theorem dropdown_shows_last_status hasHook problemId status v v' classList :
  updateProgress hasHook problemId status v = Normal v' ->
  dropdowns v !! problemId = Some classList ->
  exists classList',
    dropdowns v' !! problemId = Some classList' /\
    (forall c, c ∈ progress_classes ->
               (c ∈ classList' <-> c = default "progress-not-started" (classMap status))) /\
    (forall c, c ∉ progress_classes -> c ∈ classList -> c ∈ classList') /\
    getItem (progress_key problemId) (storage v') = Some status.
Proof.
  unfold updateProgress, setItem. intros Hrun Hdrop.
  destruct (quotaExceeded (storage v)); [done|]. rewrite Hdrop in Hrun.
  injection Hrun as <-. simpl. rewrite lookup_insert_eq. eexists. split; [done|].
  rewrite replace_same. split_and!.
  - intros c Hc. rewrite !elem_of_union, elem_of_difference, !elem_of_singleton. split.
    + intros [[[_ Hnot]|Heq]|Heq]; [done| |done].
      by rewrite (classMap_known status c Hc Heq).
    + auto.
  - intros c Hc Hin. rewrite !elem_of_union, elem_of_difference. auto.
  - unfold getItem. simpl. apply lookup_insert_eq.
Qed.

Lemma dropdown_shows_last_status_witness :
  exists v' classList',
    updateProgress false "1" "solved" problem_list = Normal v' /\
    dropdowns v' !! "1" = Some classList' /\
    "progress-solved" ∈ classList' /\ "progress-working" ∉ classList'.
Proof.
  destruct (updateProgress false "1" "solved" problem_list) as [v'|] eqn:Hrun;
    [|vm_compute in Hrun; discriminate].
  destruct (dropdown_shows_last_status false "1" "solved" problem_list v'
              {[ "progress-dropdown"; "progress-working" ]} Hrun eq_refl)
    as (classList' & Hd & Hknown & _).
  exists v', classList'. split_and!; [done|done| |].
  - apply Hknown; [unfold progress_classes; set_solver|reflexivity].
  - intros Hin. apply Hknown in Hin; [discriminate|unfold progress_classes; set_solver].
Defined.

(** *** From the renderer to Firestore *)

Lemma with_storage_records_ok st w : records_ok w -> records_ok (with_storage st w).
Proof. intros Hok uid pid d Hd. by apply (Hok uid pid d). Qed.

(** X23.  A status saved on the LeetCode page reaches Firestore under
    the right name.  After updateProgress has stored a non-empty status
    for problem <id> (localStorage accepting the write) and
    syncLocalStorageToFirestore has run for a signed-in user, the user's
    record lc_<id> exists with that status, with [problemId] lc_<id> and
    with category 'LeetCode', whatever the id is.  (The records of the
    store have the shape every write of the module gives them.) *)
Theorem saved_progress_is_pushed problemId status uid w fs :
  db w = Some fs -> uid <> "" -> status <> "" ->
  quotaExceeded (localStorage w) = false ->
  records_ok w ->
  exists d,
    remote uid ("lc_" ++ problemId) (save_then_push problemId status (Some uid) w) = Some d /\
    Database.status d = status /\
    Database.problemId d = "lc_" ++ problemId /\
    category d = "LeetCode".
Proof.
  intros Hdb Hu Hs Hq Hok. unfold save_then_push, setItem. rewrite Hq.
  set (st := mkStorage _ _). set (w1 := with_storage st w).
  assert (db w1 = Some fs) as Hdb1 by done.
  pose proof (run_ops_records_ok [Push (Some uid)] w1 (with_storage_records_ok st w Hok))
    as Hok'.
  change (run_ops [Push (Some uid)] w1)
    with (syncLocalStorageToFirestore (Some uid) w1).2 in Hok'.
  pose proof (push_pushed uid w1 fs Hdb1 Hu ("progress_" ++ ("lc_" ++ problemId)) status)
    as Hpush.
  rewrite replace_app, push_keys_local in Hpush.
  rewrite <- (syncLocalStorageToFirestore_eq uid w1 fs Hdb1 Hu) in Hpush.
  unfold remoteStatus in Hpush.
  destruct (remote uid ("lc_" ++ problemId) (syncLocalStorageToFirestore (Some uid) w1).2)
    as [d|] eqn:Hd.
  - exists d. destruct (Hok' uid _ d Hd) as (Hid & Hcat & _).
    split_and!; [done| |done|by rewrite Hcat].
    assert (Some (Database.status d) = Some status) as [= ->]; [|done].
    apply Hpush; [|apply prefix_app|done|done].
    unfold getItem, w1, st. simpl. apply lookup_insert_eq.
  - exfalso. assert (@None string = Some status) as [=].
    apply Hpush; [|apply prefix_app|done|done].
    unfold getItem, w1, st. simpl. apply lookup_insert_eq.
Qed.

Lemma saved_progress_is_pushed_witness :
  exists d,
    remote "u1" ("lc_" ++ "42") (save_then_push "42" "need-help" (Some "u1") first_login)
      = Some d /\
    Database.status d = "need-help" /\
    Database.problemId d = "lc_" ++ "42" /\
    category d = "LeetCode".
Proof.
  apply (saved_progress_is_pushed "42" "need-help" "u1" first_login
           (mkFirestore {[ "u1" := mkUser 0 0 1 (mkStats 0 0 0 0) ]} ∅ 10) eq_refl).
  - discriminate.
  - discriminate.
  - reflexivity.
  - intros uid pid d H. unfold remote in H. simpl in H. by rewrite lookup_empty in H.
Defined.

End RendererFacts.

(** ** Facts about the first sign-in *)

Module SignInFacts.
Import Database JsFacts DatabaseFacts DatabaseOps DatabaseOpsFacts.
Local Open Scope Z_scope.
Local Open Scope list_scope.

(** Creating a record by updateProblemProgress keeps exact counters
    exact. *)
Lemma updateProblemProgress_fresh_exact uid pid st w fs :
  db w = Some fs -> uid <> "" -> pid <> "" ->
  remote uid pid w = None ->
  stats_exact uid w ->
  let w' := (updateProblemProgress (Some uid) (Some pid) st w).2 in
  stats_exact uid w' /\
  recordCount uid w' = recordCount uid w + 1 /\
  solvedRecords uid w' = solvedRecords uid w + (if decide (st = "solved") then 1 else 0) /\
  timeSum uid w' = timeSum uid w /\
  (forall u p, (u, p) <> (uid, pid) -> remote u p w' = remote u p w).
Proof.
  intros Hdb Hu Hp Hnone Hexact. cbv zeta.
  destruct (updateProblemProgress_effect uid pid st w fs Hdb Hu Hp) as (t & _ & Heff).
  pose proof (doc_effect_remote _ _ _ _ _ _ Heff) as Hremote.
  destruct Heff as (fs0 & fs' & Hdb0 & Hdb' & _ & Hdocs & Hc).
  assert (fs0 = fs) as -> by congruence.
  unfold remote in Hnone. rewrite Hdb in Hnone. simpl in Hnone.
  unfold doc_at in *. rewrite Hnone in *.
  set (w' := (updateProblemProgress (Some uid) (Some pid) st w).2) in *.
  assert (forall f, tally f uid w' = tally f uid w + f (new_progress pid st t)) as Htally.
  { intros f. rewrite (tally_insert f uid uid pid _ w w' fs fs' Hdb Hdb' Hdocs).
    rewrite decide_True by done. rewrite Hnone. simpl. lia. }
  unfold stats_exact, recordCount, solvedRecords, timeSum in *.
  rewrite !Htally. simpl.
  split_and!; try lia.
  - rewrite (Hc uid), decide_True by done. rewrite Hexact. simpl.
    unfold bump, progress_delta, enters_solved. simpl.
    rewrite andb_true_r.
    destruct (decide (st = "solved"));
      [rewrite bool_decide_eq_true_2 by done|rewrite bool_decide_eq_false_2 by done];
      do 2 f_equal; lia.
  - intros u p Hne. rewrite (Hremote u p). by rewrite decide_False.
Qed.

Lemma push_keys_exact uid ks :
  forall w n fs st,
    db w = Some fs -> localStorage w = st -> uid <> "" -> NoDup ks ->
    Forall (fun k => startsWith "progress_" k = true) ks ->
    stats_exact uid w ->
    (forall k, k ∈ ks -> remote uid (replace "progress_" "" k) w = None) ->
    let w' := (push_keys uid ks w n).2 in
    stats_exact uid w' /\
    recordCount uid w' =
      recordCount uid w + Z.of_nat (length (filter (fun k => usable st k = true) ks)) /\
    solvedRecords uid w' =
      solvedRecords uid w +
      Z.of_nat (length (filter (fun k => usable st k = true /\
                                         getItem k st = Some "solved") ks)) /\
    timeSum uid w' = timeSum uid w.
Proof.
  induction ks as [|key ks IH]; intros w n fs st Hdb Hst Hu Hnd Hpre Hexact Hfresh; cbv zeta.
  - simpl. split_and!; [done|lia|lia|done].
  - apply NoDup_cons in Hnd as [Hkey Hnd]. apply Forall_cons in Hpre as [Hk Hpre].
    rewrite !filter_cons.
    destruct (usable st key) eqn:Hus.
    + unfold usable in Hus. simpl in Hus. cbn [push_keys]. rewrite Hst.
      destruct (truthy (getItem key st)) as [s|] eqn:Hs; [|done].
      destruct (decide (replace "progress_" "" key = "")) as [|Hp]; [done|].
      simpl. rewrite decide_False by done.
      apply truthy_Some in Hs as [Hget Hs].
      destruct (updateProblemProgress_fresh_exact uid (replace "progress_" "" key) s w fs
                  Hdb Hu Hp (Hfresh key ltac:(left)) Hexact)
        as (Hexact1 & Hcount1 & Hsolved1 & Htime1 & Hother1).
      set (w1 := (updateProblemProgress (Some uid) (Some (replace "progress_" "" key)) s w).2)
        in *.
      destruct (updateProblemProgress_db (Some uid) (Some (replace "progress_" "" key)) s w fs
                  Hdb) as [fs1 Hdb1]. fold w1 in Hdb1.
      assert (localStorage w1 = st) as Hlocal
        by (rewrite <- Hst; apply updateProblemProgress_local).
      destruct (IH w1 (S n) fs1 st Hdb1 Hlocal Hu Hnd Hpre Hexact1) as (He & Hc & Hsol & Ht).
      { intros k Hin. rewrite Hother1; [apply Hfresh; by right|].
        intros [= Heq]. apply replace_prefix_inj in Heq; [congruence| |done].
        by apply (proj1 (Forall_forall _ _) Hpre). }
      split_and!; [done| | |congruence].
      * rewrite Hc, Hcount1. lia.
      * rewrite Hsol, Hsolved1. rewrite Hget.
        destruct (decide (s = "solved")) as [->|Hns].
        -- rewrite decide_True by done. simpl length. lia.
        -- rewrite decide_False by (intros [_ [= ?]]; done). lia.
    + assert ((push_keys uid (key :: ks) w n).2 = (push_keys uid ks w n).2) as ->.
      { cbn [push_keys]. rewrite Hst. unfold usable in Hus. simpl in Hus.
        destruct (truthy (getItem key st)) as [s|]; [|done].
        simpl. by destruct (decide (replace "progress_" "" key = "")). }
      rewrite decide_False by congruence. rewrite decide_False by (intros [? _]; congruence).
      apply (IH w n fs); try done. intros k Hin. apply Hfresh. by right.
Qed.

Lemma with_storage_exact uid st w : stats_exact uid w -> stats_exact uid (with_storage st w).
Proof. by destruct w. Qed.

Lemma NoDup_progressKeys w : NoDup (progressKeys w).
Proof. unfold progressKeys, keys. apply NoDup_filter, NoDup_fst_map_to_list. Qed.

Lemma Forall_progressKeys w : Forall (fun k => startsWith "progress_" k = true) (progressKeys w).
Proof. apply Forall_forall. intros k Hk. by apply elem_of_progressKeys in Hk as [? _]. Qed.

Lemma filter_progressKeys_solved w :
  filter (fun k => usable (localStorage w) k = true /\
                   getItem k (localStorage w) = Some "solved") (progressKeys w)
  = filter (fun k => migrates_solved (localStorage w) k = true) (keys (localStorage w)).
Proof.
  unfold progressKeys. rewrite list_filter_filter. apply list_filter_iff. intros k.
  unfold migrates_solved. rewrite andb_true_iff, bool_decide_eq_true.
  rewrite <- usable_migrates. tauto.
Qed.

Lemma filter_progressKeys_usable w :
  filter (fun k => usable (localStorage w) k = true) (progressKeys w)
  = filter (fun k => migrates (localStorage w) k = true) (keys (localStorage w)).
Proof.
  unfold progressKeys. rewrite list_filter_filter. apply list_filter_iff. intros k.
  apply usable_migrates.
Qed.

(** X24.  The first sign-in of a new user migrates the progress saved
    on the device with exact statistics.  For a user with no document
    and no progress record, after the chain createOrUpdateUserProfile,
    syncLocalStorageToFirestore, syncFirestoreToLocalStorage of
    handleAuthStateChange, [stats.problemsAccessed] is the number of
    local entries progress_<id> with a non-empty id and value,
    [stats.problemsSolved] is the number of those whose value is
    'solved', [stats.totalTimeSpent] is 0, and the three counters are
    exactly the number of the user's records, the number of solved
    records and the sum of their [timeSpent]. *)
Theorem first_sign_in_migrates_exactly u w fs :
  db w = Some fs -> Page.uid u <> "" ->
  userDocs fs !! Page.uid u = None ->
  (forall pid, remote (Page.uid u) pid w = None) ->
  let w' := signInChain u w in
  let st := localStorage w in
  exists s,
    userStats (Page.uid u) w' = Some s /\
    problemsAccessed s
      = Z.of_nat (length (filter (fun k => migrates st k = true) (keys st))) /\
    problemsSolved s
      = Z.of_nat (length (filter (fun k => migrates_solved st k = true) (keys st))) /\
    totalTimeSpent s = 0 /\
    stats_exact (Page.uid u) w'.
Proof.
  intros Hdb Hu Hnew Hnone. cbv zeta.
  set (uid := Page.uid u) in *.
  set (w0 := (createOrUpdateUserProfile (Some u) w).2).
  assert (signInChain u w =
          (syncFirestoreToLocalStorage (Some uid) (syncLocalStorageToFirestore (Some uid) w0).2).2)
    as -> by reflexivity.
  pose proof (createOrUpdateUserProfile_effect u w fs Hdb) as Heff.
  fold uid in Heff. rewrite Hnew in Heff. cbv zeta in Heff.
  assert (w0 = with_db (mkFirestore (<[uid := new_profile (serverClock fs)]> (userDocs fs))
                                    (progressDocs fs) (serverClock fs + 1)) w) as Hw0
    by (unfold w0; by rewrite Heff).
  assert (forall f, tally f uid w0 = 0) as Hzero.
  { intros f. rewrite Hw0. unfold tally. simpl.
    change (progress_of uid ?x) with (docs_of uid (progressDocs x)). simpl.
    rewrite docs_of_nil; [done|]. intros pid. specialize (Hnone pid).
    unfold remote in Hnone. by rewrite Hdb in Hnone. }
  assert (stats_exact uid w0) as Hexact0.
  { unfold stats_exact, solvedRecords, recordCount, timeSum. rewrite !Hzero.
    rewrite Hw0. unfold userCounters, userStats. simpl. by rewrite lookup_insert_eq. }
  assert (localStorage w0 = localStorage w) as Hlocal0 by by rewrite Hw0.
  assert (exists fs0, db w0 = Some fs0) as [fs0 Hdb0] by (rewrite Hw0; by eexists).
  assert ((syncLocalStorageToFirestore (Some uid) w0).2
          = (push_keys uid (progressKeys w0) w0 0).2) as Hpush
    by apply (syncLocalStorageToFirestore_eq uid w0 fs0 Hdb0 Hu).
  destruct (push_keys_exact uid (progressKeys w0) w0 0%nat fs0 (localStorage w0)
              Hdb0 eq_refl Hu (NoDup_progressKeys w0) (Forall_progressKeys w0) Hexact0)
    as (Hexact1 & Hcount & Hsolved & Htime).
  { intros k _. rewrite Hw0. unfold remote. simpl.
    specialize (Hnone (replace "progress_" "" k)). unfold remote in Hnone.
    by rewrite Hdb in Hnone. }
  rewrite <- Hpush in Hexact1, Hcount, Hsolved, Htime.
  set (w1 := (syncLocalStorageToFirestore (Some uid) w0).2) in *.
  destruct (syncFirestoreToLocalStorage_storage (Some uid) w1) as [st' ->].
  pose proof (with_storage_exact uid st' w1 Hexact1) as Hexact2.
  unfold recordCount, solvedRecords, timeSum in Hcount, Hsolved, Htime.
  rewrite Hzero in Hcount, Hsolved, Htime.
  rewrite filter_progressKeys_usable in Hcount.
  rewrite filter_progressKeys_solved in Hsolved.
  rewrite Hlocal0 in Hcount, Hsolved.
  unfold stats_exact, userCounters in Hexact2.
  destruct (userStats uid (with_storage st' w1)) as [s|] eqn:Hs; [|done].
  simpl in Hexact2. injection Hexact2 as H1 H2 H3.
  exists s. split; [done|].
  assert (forall f, tally f uid (with_storage st' w1) = tally f uid w1) as Hsame
    by (intros f; by destruct w1).
  unfold solvedRecords, recordCount, timeSum in H1, H2, H3.
  rewrite Hsame in H1, H2, H3.
  split_and!; [lia|lia|lia|].
  unfold stats_exact, userCounters. rewrite Hs. simpl.
  unfold solvedRecords, recordCount, timeSum. rewrite !Hsame. by rewrite H1, H2, H3.
Qed.

Lemma first_sign_in_migrates_exactly_witness :
  exists s, userStats "u2" (signInChain Auth.bob first_login) = Some s /\
            problemsAccessed s = 1 /\ problemsSolved s = 1.
Proof.
  destruct (first_sign_in_migrates_exactly Auth.bob first_login _ eq_refl)
    as (s & Hs & Ha & Hsol & _).
  - discriminate.
  - reflexivity.
  - intros pid. unfold remote. simpl. apply lookup_empty.
  - exists s. split; [exact Hs|]. split; [rewrite Ha|rewrite Hsol]; reflexivity.
Defined.

End SignInFacts.
